(** * AutoGenSubTitles v1.1: the subtitle pipeline and its orchestration logic

    A shallow embedding of [gen_subs_EN_v1.1.py].  The program is glue code
    around two external executables (ffmpeg, whisper); what it decides itself
    is which files to look at, which commands to spawn, in which order, and
    what to do when something fails.  The embedding therefore threads an
    explicit world through every function: a finite map for the file tree,
    the lines waiting on standard input, the tools resolvable on the search
    path and the trace of everything observable (log records, prompts,
    subprocess invocations).

    Conventions.
    - Python [str] is [string], read as a sequence of code points: a
      character of [string] is one code point below 256, and the string
      methods below follow CPython 3.12 on that range (white space includes
      U+0085 and U+00A0, the digits include the superscripts).  Text with
      code points from 256 on cannot be written down here and is outside
      the model.  A [Path] is its anchor and its parts.
    - Exceptions are values of [exn]; a computation returns [Ret v] or
      [Raise e] together with the world it leaves behind.
    - The external executables and [json.load] are parameters of the
      development: nothing is assumed about them except where a theorem
      says so.
    - The presentation branches on [RICH_AVAILABLE] show the same data in a
      different dress; the embedding follows the logger branch.  The optional
      log file is a sink of the log records: whether it can be opened is read
      off the file tree, but the file itself and what is appended to it are
      kept outside the modelled file tree.
    - [main] is modelled from the namespace that [parse_args] returns.  The
      exits [argparse] takes on its own (status 2 for a command line it
      rejects, status 0 after [--help]) happen before anything the program
      itself does and are not part of the model. *)

From Stdlib Require Import ZArith Ascii.
From stdpp Require Import gmap strings list pretty.

(** ** Strings *)

Module Str.

Definition eqb (a b : string) : bool := bool_decide (a = b).

(** [str.strip()]: white space as [str.isspace] sees it, that is U+0009 to
    U+000D, U+001C to U+001F, the space, U+0085 and U+00A0. *)
Definition is_space (c : ascii) : bool :=
  match c with
  | "009" | "010" | "011" | "012" | "013"
  | "028" | "029" | "030" | "031" | " "
  | "133" | "160" => true
  | _ => false
  end%char.

Fixpoint lstrip (s : string) : string :=
  match s with
  | String c s' => if is_space c then lstrip s' else s
  | EmptyString => EmptyString
  end.

Definition strip (s : string) : string :=
  String.rev (lstrip (String.rev (lstrip s))).

Definition rstrip (s : string) : string :=
  String.rev (lstrip (String.rev s)).

(** [str.lower()]: the letters A to Z, and U+00C0 to U+00DE apart from the
    multiplication sign U+00D7, move up by 32. *)
Definition lower_char (c : ascii) : ascii :=
  let n := nat_of_ascii c in
  if (65 <=? n)%nat && (n <=? 90)%nat
     || (192 <=? n)%nat && (n <=? 222)%nat && negb (n =? 215)%nat
  then ascii_of_nat (n + 32) else c.

Fixpoint lower (s : string) : string :=
  match s with
  | String c s' => String (lower_char c) (lower s')
  | EmptyString => EmptyString
  end.

(** [str.isdigit()]: a non-empty string of digit characters, which are 0
    to 9 and the superscripts U+00B2, U+00B3 and U+00B9. *)
Definition is_digit (c : ascii) : bool :=
  match c with
  | "178" | "179" | "185" => true
  | _ => bool_decide (is_Some (Ascii.is_nat c))
  end%char.

Fixpoint all_digits (s : string) : bool :=
  match s with
  | String c s' => is_digit c && all_digits s'
  | EmptyString => true
  end.

Definition isdigit (s : string) : bool :=
  negb (eqb s "") && all_digits s.

(** [int(s)] on a string that [isdigit] accepts: its value in base 10 when
    every character is one of 0 to 9; [None] stands for ValueError, raised
    for a superscript digit and for more than [max_str_digits] characters
    ([sys.int_info.default_max_str_digits], leading zeros counted). *)
Definition max_str_digits : nat := 4300.

Fixpoint int_acc (acc : Z) (s : string) : option Z :=
  match s with
  | String c s' =>
      match Ascii.is_nat c with
      | Some d => int_acc (10 * acc + Z.of_nat d) s'
      | None => None
      end
  | EmptyString => Some acc
  end.

Definition int (s : string) : option Z :=
  if eqb s "" || (max_str_digits <? String.length s)%nat then None
  else int_acc 0 s.

(** [sep.join(l)]. *)
Fixpoint join (sep : string) (l : list string) : string :=
  match l with
  | [] => ""
  | [x] => x
  | x :: rest => x +:+ sep +:+ join sep rest
  end.

(** [s.rfind('.')], returned as the text before and after the last dot. *)
Fixpoint rsplit_dot (s : string) : option (string * string) :=
  match s with
  | EmptyString => None
  | String c s' =>
      match rsplit_dot s' with
      | Some (b, a) => Some (String c b, a)
      | None => if Ascii.eqb c "." then Some ("", s') else None
      end
  end.

(** [s.split('/')]. *)
Fixpoint split_slash (cur : string) (s : string) : list string :=
  match s with
  | EmptyString => [String.rev cur]
  | String c s' =>
      if Ascii.eqb c "/" then String.rev cur :: split_slash "" s'
      else split_slash (String c cur) s'
  end.

End Str.

(** ** Paths ([pathlib.PurePosixPath], CPython 3.12) *)

Module Pathlib.

(** A path is its anchor (absolute or relative) and its components. *)
Record Path := mkPath { anchor : bool; parts : list string }.

Global Instance Path_eq_dec : EqDecision Path.
Proof. solve_decision. Defined.

(** [p.name]: the final component, empty for "." and for the root. *)
Definition name (p : Path) : string := default "" (last (parts p)).

(** [suffix] and [stem]: the last dot counts when it is neither the first
    nor the last character of the name. *)
Definition suffix_of_name (n : string) : string :=
  match Str.rsplit_dot n with
  | Some (b, a) =>
      if Str.eqb b "" || Str.eqb a "" then "" else "." +:+ a
  | None => ""
  end.

Definition stem_of_name (n : string) : string :=
  match Str.rsplit_dot n with
  | Some (b, a) =>
      if Str.eqb b "" || Str.eqb a "" then n else b
  | None => n
  end.

Definition suffix (p : Path) : string := suffix_of_name (name p).
Definition stem (p : Path) : string := stem_of_name (name p).

(** [p / s] for a single component [s]; an empty [s] leaves [p] as it is. *)
Definition joinname (p : Path) (s : string) : Path :=
  if Str.eqb s "" then p else mkPath (anchor p) (parts p ++ [s]).

(** [Path(s)]: components split at "/", empty and "." components dropped. *)
Definition keep_part (s : string) : bool :=
  negb (Str.eqb s "" || Str.eqb s ".").

Definition parse (s : string) : Path :=
  mkPath (match s with String "/" _ => true | _ => false end)
         (filter (λ c, keep_part c = true) (Str.split_slash "" s)).

(** [p / q]: an absolute right operand replaces the left one. *)
Definition joinpath (p q : Path) : Path :=
  if anchor q then q else mkPath (anchor p) (parts p ++ parts q).

(** [p.with_suffix(sfx)] for a well-formed [sfx] ("" or ".ext"): fails
    (ValueError) on an empty name. *)
Definition with_suffix (p : Path) (sfx : string) : option Path :=
  let n := name p in
  if Str.eqb n "" then None
  else Some (mkPath (anchor p) (removelast (parts p) ++ [stem_of_name n +:+ sfx])).

(** [str(p)]. *)
Definition to_str (p : Path) : string :=
  match anchor p, parts p with
  | false, [] => "."
  | false, ps => Str.join "/" ps
  | true, ps => "/" +:+ Str.join "/" ps
  end.

(** What the operating system makes of a path: the components from the
    root, a relative path being anchored at the working directory.
    Symbolic links and ".." are not interpreted. *)
Definition resolve (cwd : list string) (p : Path) : list string :=
  if anchor p then parts p else cwd ++ parts p.

End Pathlib.

Import Pathlib.

(** ** Values read from JSON *)

(** What [json.load] can return.  A dictionary is the list of its items; of
    a float only its literal and whether it is zero are kept. *)
#[local] Unset Elimination Schemes.
Inductive pyval :=
| PyNone
| PyBool (b : bool)
| PyInt (z : Z)
| PyFloat (nonzero : bool) (repr : string)
| PyStr (s : string)
| PyList (l : list pyval)
| PyDict (items : list (string * pyval)).

#[local] Set Elimination Schemes.

(** Truth value of a Python object, as [or] sees it. *)
Definition truthy (v : pyval) : bool :=
  match v with
  | PyNone => false
  | PyBool b => b
  | PyInt z => negb (z =? 0)%Z
  | PyFloat nz _ => nz
  | PyStr s => negb (Str.eqb s "")
  | PyList l => match l with [] => false | _ => true end
  | PyDict d => match d with [] => false | _ => true end
  end.

Fixpoint assoc (k : string) (d : list (string * pyval)) : option pyval :=
  match d with
  | [] => None
  | (k', v) :: d' => if Str.eqb k k' then Some v else assoc k d'
  end.

(** ** Exceptions and results *)

Inductive exn :=
| SystemExit (code : Z)
| KeyboardInterrupt
| EOFError
| ValueError (msg : string)
| RuntimeError (msg : string)
| OSError (msg : string)
| AttributeError (msg : string).

(** [except Exception] catches everything but the two that derive from
    [BaseException] directly. *)
Definition is_Exception (e : exn) : bool :=
  match e with
  | SystemExit _ | KeyboardInterrupt => false
  | _ => true
  end.

Inductive result (A : Type) :=
| Ret (a : A)
| Raise (e : exn).
Arguments Ret {A} a.
Arguments Raise {A} e.

(** ** The file tree *)

Module FS.

Inductive node :=
| File (content : string)
| Dir.

Global Instance node_eq_dec : EqDecision node.
Proof. solve_decision. Defined.

(** Keys are resolved paths: the components from the root.  An entry is a
    regular file with its content or a directory; permissions, devices and
    symbolic links are not modelled, so a file operation fails only for the
    reasons written out below. *)
Abbreviation tree := (gmap (list string) node).

Definition exists_ (t : tree) (p : list string) : bool :=
  bool_decide (is_Some (t !! p)).

Definition is_dir (t : tree) (p : list string) : bool :=
  bool_decide (t !! p = Some Dir).

Definition parent_is_dir (t : tree) (p : list string) : bool :=
  match p with
  | [] => false
  | _ => is_dir t (removelast p)
  end.

Definition under (d p : list string) : bool := bool_decide (d `prefix_of` p).

Definition has_children (t : tree) (d : list string) : bool :=
  bool_decide (Exists (λ kv, d `prefix_of` kv.1 ∧ kv.1 ≠ d) (map_to_list t)).

(** A directory moves with everything below it. *)
Definition rebase (src dst k : list string) : list string :=
  dst ++ drop (length src) k.

Definition move_tree (t : tree) (src dst : list string) : tree :=
  filter (λ kv, ¬ src `prefix_of` kv.1) t
  ∪ list_to_map ((λ kv, (rebase src dst kv.1, kv.2))
                   <$> map_to_list (filter (λ kv, src `prefix_of` kv.1) t)).

(** [os.rename] / [os.replace] on POSIX.  [None] stands for OSError. *)
Definition rename (t : tree) (src dst : list string) : option tree :=
  match t !! src with
  | None => None
  | Some n =>
      if bool_decide (src = dst) then Some t
      else if negb (parent_is_dir t dst) then None
      else match n with
           | File c =>
               match t !! dst with
               | Some Dir => None
               | _ => Some (<[dst := File c]> (delete src t))
               end
           | Dir =>
               if under src dst then None
               else match t !! dst with
                    | Some (File _) => None
                    | Some Dir =>
                        if has_children t dst then None
                        else Some (move_tree t src dst)
                    | None => Some (move_tree t src dst)
                    end
           end
  end.

(** [shutil.move(src, dst)]: into [dst] when it is a directory, onto it
    otherwise.  [None] stands for the exception it raises. *)
Definition shutil_move (t : tree) (src dst : list string)
  : option (tree * list string) :=
  match t !! dst with
  | Some Dir =>
      if bool_decide (src = dst) then Some (t, dst)
      else
        let real := dst ++ [default "" (last src)] in
        if exists_ t real then None
        else (λ t', (t', real)) <$> rename t src real
  | _ => (λ t', (t', dst)) <$> rename t src dst
  end.

(** [os.unlink]. *)
Definition unlink (t : tree) (p : list string) : option tree :=
  match t !! p with
  | Some (File _) => Some (delete p t)
  | _ => None
  end.

(** [Path.mkdir(parents=True, exist_ok=True)], on the reversed path. *)
Fixpoint mkdir_rev (t : tree) (rp : list string) : option tree :=
  match t !! rev rp with
  | Some Dir => Some t
  | Some (File _) => None
  | None =>
      match rp with
      | [] => None
      | _ :: rparent =>
          match t !! rev rparent with
          | Some Dir => Some (<[rev rp := Dir]> t)
          | Some (File _) => None
          | None =>
              match mkdir_rev t rparent with
              | Some t' => Some (<[rev rp := Dir]> t')
              | None => None
              end
          end
      end
  end.

Definition mkdir_p (t : tree) (p : list string) : option tree :=
  mkdir_rev t (rev p).

(** [open(p).read()]. *)
Definition read (t : tree) (p : list string) : option string :=
  match t !! p with
  | Some (File c) => Some c
  | _ => None
  end.

End FS.

Import FS.

(** ** The world the program runs in *)

Inductive level := DEBUG | INFO | WARNING | ERROR.

(** Arguments of a log record, kept unformatted as [logging] keeps them. *)
Inductive logarg :=
| AStr (s : string)
| APath (p : Path)
| AResolved (p : list string)
| ABool (b : bool)
| AVal (v : pyval)
| AExn (e : exn)
| ADuration (d : Z).

Inductive event :=
| EvLog (lvl : level) (msg : string) (args : list logarg)
| EvPrompt (text : string)
| EvPrint (text : string)
| EvExec (cmd : list string) (status : option Z).

(** What running an external command does: it cannot be started, or it
    leaves a file tree, the lines it wrote and its exit status. *)
Inductive proc :=
| NotStarted
| Finished (t : tree) (out : list string) (code : Z).

Record world := mkWorld {
  w_tree : tree;
  w_cwd : list string;
  w_stdin : list string;
  w_tty : bool;
  w_path : list string;
  w_clock : list Z;
  w_trace : list event
}.

Definition with_tree (t : tree) (w : world) : world :=
  mkWorld t (w_cwd w) (w_stdin w) (w_tty w) (w_path w) (w_clock w) (w_trace w).
Definition with_stdin (l : list string) (w : world) : world :=
  mkWorld (w_tree w) (w_cwd w) l (w_tty w) (w_path w) (w_clock w) (w_trace w).
Definition with_clock (l : list Z) (w : world) : world :=
  mkWorld (w_tree w) (w_cwd w) (w_stdin w) (w_tty w) (w_path w) l (w_trace w).
Definition with_trace (tr : list event) (w : world) : world :=
  mkWorld (w_tree w) (w_cwd w) (w_stdin w) (w_tty w) (w_path w) (w_clock w) tr.

(** ** Computations: state and exceptions *)

Definition M (A : Type) : Type := world → result A * world.

Definition ret {A} (a : A) : M A := λ w, (Ret a, w).
Definition raise {A} (e : exn) : M A := λ w, (Raise e, w).

Definition bind {A B} (c : M A) (k : A → M B) : M B :=
  λ w, match c w with
       | (Ret a, w') => k a w'
       | (Raise e, w') => (Raise e, w')
       end.

Declare Scope py_scope.
Delimit Scope py_scope with py.
Notation "x <- c ;; k" := (bind c (λ x, k))
  (at level 100, c at next level, right associativity) : py_scope.
Notation "c ;; k" := (bind c (λ _, k))
  (at level 100, right associativity) : py_scope.
Open Scope py_scope.

(** [try: c  except Exception as e: h e]. *)
Definition try_except {A} (c : M A) (h : exn → M A) : M A :=
  λ w, match c w with
       | (Raise e, w') => if is_Exception e then h e w' else (Raise e, w')
       | r => r
       end.

Definition emit (e : event) : M unit :=
  λ w, (Ret tt, with_trace (w_trace w ++ [e]) w).

Definition sys_exit {A} (code : Z) : M A := raise (SystemExit code).

(** [print(text)]. *)
Definition print (text : string) : M unit := emit (EvPrint text).

(** [input(prompt)]: the next line of standard input, EOFError at its end. *)
Definition input (prompt : string) : M string :=
  λ w, let w1 := with_trace (w_trace w ++ [EvPrompt prompt]) w in
       match w_stdin w with
       | [] => (Raise EOFError, w1)
       | l :: rest => (Ret l, with_stdin rest w1)
       end.

(** [sys.stdin.isatty()]. *)
Definition isatty : M bool := λ w, (Ret (w_tty w), w).

(** [datetime.datetime.now()]: the clock is read, not computed. *)
Definition now : M Z :=
  λ w, match w_clock w with
       | [] => (Ret 0%Z, w)
       | t :: rest => (Ret t, with_clock rest w)
       end.

(** [shutil.which(name) is not None]. *)
Definition which (name : string) : M bool :=
  λ w, (Ret (bool_decide (name ∈ w_path w)), w).

(** [Path.cwd()]. *)
Definition getcwd : M Path := λ w, (Ret (mkPath true (w_cwd w)), w).

(** [p.resolve()] and [p.exists()]. *)
Definition path_resolve (p : Path) : M (list string) :=
  λ w, (Ret (resolve (w_cwd w) p), w).

Definition path_exists (p : Path) : M bool :=
  λ w, (Ret (exists_ (w_tree w) (resolve (w_cwd w) p)), w).

(** Lifting the file operations: [None] becomes OSError. *)
Definition fs_try (what : string) (f : tree → list string → option tree)
  : M unit :=
  λ w, match f (w_tree w) (w_cwd w) with
       | Some t' => (Ret tt, with_tree t' w)
       | None => (Raise (OSError what), w)
       end.

(** [src.replace(dest)]. *)
Definition path_replace (src dest : Path) : M unit :=
  fs_try "replace" (λ t cwd, rename t (resolve cwd src) (resolve cwd dest)).

(** [p.unlink()]. *)
Definition path_unlink (p : Path) : M unit :=
  fs_try "unlink" (λ t cwd, unlink t (resolve cwd p)).

(** [p.mkdir(parents=True, exist_ok=True)]. *)
Definition path_mkdir (p : Path) : M unit :=
  fs_try "mkdir" (λ t cwd, mkdir_p t (resolve cwd p)).

(** [shutil.move(str(src), str(dst))]. *)
Definition shutil_move_paths (src dst : Path) : M unit :=
  fs_try "move" (λ t cwd, fst <$> shutil_move t (resolve cwd src) (resolve cwd dst)).

(** [open(p, encoding="utf-8")] followed by reading it whole. *)
Definition read_text (p : Path) : M string :=
  λ w, match read (w_tree w) (resolve (w_cwd w) p) with
       | Some c => (Ret c, w)
       | None => (Raise (OSError "open"), w)
       end.

(** [open(p, "a")]: refused (OSError) for a directory and where the parent
    is not a directory. *)
Definition appendable (t : tree) (p : list string) : bool :=
  negb (is_dir t p) && parent_is_dir t p.

(** ** The logger *)

Record Logger := mkLogger { log_path : option Path }.

(** [logging.FileHandler(p)] opens its file for appending as soon as it is
    created.  The file is the sink of the log records: that it is created,
    and what is appended to it, is not entered in the file tree. *)
Definition open_log (p : Path) : M unit :=
  λ w, if appendable (w_tree w) (resolve (w_cwd w) p)
       then (Ret tt, w) else (Raise (OSError "open"), w).

Definition log (lg : Logger) (lvl : level) (msg : string) (args : list logarg)
  : M unit := emit (EvLog lvl msg args).

Definition setup_logger (log_path : option Path) : M Logger :=
  let logger := mkLogger log_path in
  match log_path with
  | Some p =>
      open_log p ;;
      log logger DEBUG "Logging to file: %s" [APath p] ;; ret logger
  | None => ret logger
  end.

(** ** Constants *)

Definition MODELS : list string := ["tiny"; "base"; "small"; "medium"; "large"].
Definition WHISPER_EXTS : list string := [".srt"; ".json"; ".tsv"; ".txt"; ".vtt"].

Record RunResult := mkRunResult {
  video : Path;
  wav : Path;
  srt : Path;
  detected_language : option pyval;
  duration : Z;
  whisper_succeeded : bool
}.

Definition set_video (p : Path) (r : RunResult) : RunResult :=
  mkRunResult p (wav r) (srt r) (detected_language r) (duration r)
              (whisper_succeeded r).
Definition set_duration (d : Z) (r : RunResult) : RunResult :=
  mkRunResult (video r) (wav r) (srt r) (detected_language r) d
              (whisper_succeeded r).

(** ** Prompts *)

Definition print_banner (title : string) (subtitle : option string)
    (logger : Logger) : M unit :=
  log logger INFO "=== %s === %s" [AStr title; AStr (default "" subtitle)].

(** The numbered menu of the plain prompt: "1) tiny, 2) base, ...". *)
Definition menu (options : list string) : string :=
  Str.join ", " (imap (λ i opt, pretty (S i) +:+ ") " +:+ opt) options).

Definition choice_prompt (prompt : string) (options : list string)
    (default : string) : string :=
  prompt +:+ " " +:+ menu options +:+ " [default " +:+ default +:+ "]: ".

(** One turn of the [while True] loop of [ask_choice] reads one line, so the
    number of lines waiting on standard input bounds the number of turns;
    with that much fuel the last branch is never taken. *)
Fixpoint ask_choice_loop (fuel : nat) (prompt_full : string)
    (options : list string) (default : string) : M string :=
  resp <- input prompt_full ;;
  let resp := Str.strip resp in
  if Str.eqb resp "" then ret default
  else
    let retry :=
      (print "Invalid choice." ;;
       match fuel with
       | O => raise EOFError
       | S fuel' => ask_choice_loop fuel' prompt_full options default
       end) in
    if Str.isdigit resp then
      match Str.int resp with
      | None => raise (ValueError "int")
      | Some n =>
          let idx := (n - 1)%Z in
          if bool_decide (0 ≤ idx < Z.of_nat (length options))%Z
          then ret (from_option id "" (options !! Z.to_nat idx))
          else retry
      end
    else if bool_decide (resp ∈ options) then ret resp
    else retry.

Definition ask_choice (prompt : string) (options : list string)
    (default : string) : M string :=
  λ w, ask_choice_loop (length (w_stdin w))
         (choice_prompt prompt options default) options default w.

Fixpoint yes_no_loop (fuel : nat) (prompt : string) (default : bool) : M bool :=
  let suffix := if default then "Y/n" else "y/N" in
  resp <- input (prompt +:+ " [" +:+ suffix +:+ "]: ") ;;
  let resp := Str.lower (Str.strip resp) in
  if Str.eqb resp "" then ret default
  else if bool_decide (resp ∈ ["y"; "yes"; "o"; "oui"]) then ret true
  else if bool_decide (resp ∈ ["n"; "no"]) then ret false
  else
    print "Answer yes or no." ;;
    match fuel with
    | O => raise EOFError
    | S fuel' => yes_no_loop fuel' prompt default
    end.

Definition yes_no (prompt : string) (default : bool) : M bool :=
  λ w, yes_no_loop (length (w_stdin w)) prompt default w.

(** ** Command line *)

(** The namespace [argparse] hands to [main]. *)
Record Args := mkArgs {
  a_video : Path;
  a_model : option string;
  a_language : option string;
  a_translate_to_en : bool;
  a_no_clean : bool;
  a_no_overwrite : bool;
  a_no_skip : bool;
  a_log : option Path
}.

(** What the prompts and flags resolve to before the pipeline starts. *)
Record Config := mkConfig {
  c_video : Path;
  c_model : string;
  c_language : option string;
  c_out_dir : Path;
  c_clean_wav : bool;
  c_overwrite : bool;
  c_skip_if_exists : bool;
  c_translate_to_en : bool
}.

(** [x or y] on an optional string: [None] and "" are false. *)
Definition str_truthy (o : option string) : bool :=
  match o with
  | Some s => negb (Str.eqb s "")
  | None => false
  end.

(** [result.detected_language or "Unknown"]. *)
Definition or_unknown (d : option pyval) : logarg :=
  match d with
  | Some v => if truthy v then AVal v else AStr "Unknown"
  | None => AStr "Unknown"
  end.

(** ** The pipeline *)

Section Pipeline.

(** The environment: what spawning a command does to the file tree, given
    the working directory, and what [json.load] makes of a file's text
    ([None] when it raises). *)
Variable exec : list string → list string → tree → proc.
Variable json_load : string → option pyval.

(** [subprocess.Popen(cmd, ...)] up to [process.wait()]. *)
Definition popen (cmd : list string) : M (list string * Z) :=
  λ w, match exec cmd (w_cwd w) (w_tree w) with
       | NotStarted =>
           (Raise (OSError "Popen"),
            with_trace (w_trace w ++ [EvExec cmd None]) w)
       | Finished t out code =>
           (Ret (out, code),
            with_tree t (with_trace (w_trace w ++ [EvExec cmd (Some code)]) w))
       end.

Fixpoint log_lines (logger : Logger) (out : list string) : M unit :=
  match out with
  | [] => ret tt
  | line :: rest =>
      log logger INFO (Str.rstrip line) [] ;; log_lines logger rest
  end.

Definition run_cmd_streamed (cmd : list string) (logger : Logger) : M unit :=
  let display := Str.join " " cmd in
  log logger DEBUG "Executing: %s" [AStr display] ;;
  p <- popen cmd ;;
  log_lines logger p.1 ;;
  if bool_decide (p.2 ≠ 0%Z)
  then raise (RuntimeError ("Command failed (" +:+ display +:+ ") exit="
                              +:+ pretty p.2))
  else ret tt.

Definition ffmpeg_cmd (video_path wav_path : Path) : list string :=
  ["ffmpeg"; "-hide_banner"; "-loglevel"; "error";
   "-i"; to_str video_path;
   "-ar"; "16000"; "-ac"; "1";
   "-c:a"; "pcm_s16le";
   to_str wav_path].

Definition extract_audio (video_path wav_path : Path) (logger : Logger)
  : M unit :=
  let cmd := ffmpeg_cmd video_path wav_path in
  log logger DEBUG "Running FFmpeg: %s" [AStr (Str.join " " cmd)] ;;
  run_cmd_streamed cmd logger.

Definition whisper_cmd (wav_path : Path) (model : string)
    (language : option string) (translate : bool) : list string :=
  let task := if translate then "translate" else "transcribe" in
  let cmd := ["whisper"; to_str wav_path; "--model"; model; "--task"; task] in
  if str_truthy language
  then cmd ++ ["--language"; from_option id "" language]
  else cmd.

Definition run_whisper (wav_path : Path) (model : string)
    (language : option string) (translate : bool) (logger : Logger)
  : M unit :=
  let cmd := whisper_cmd wav_path model language translate in
  log logger DEBUG "Running Whisper: %s" [AStr (Str.join " " cmd)] ;;
  run_cmd_streamed cmd logger.

(** The body of the [for ext in WHISPER_EXTS] loop.  [Path(f"{stem}{ext}")]
    is one relative component: a stem holds no separator. *)
Definition move_one_output (stem : string) (target_dir : Path)
    (logger : Logger) (ext : string) : M unit :=
  let src := mkPath false [stem +:+ ext] in
  ex <- path_exists src ;;
  if ex then
    let dest := joinname target_dir (name src) in
    try_except
      (path_replace src dest ;;
       log logger DEBUG "Moved %s -> %s" [APath src; APath dest])
      (λ e, log logger WARNING "Could not move %s to %s: %s"
              [APath src; APath dest; AExn e])
  else ret tt.

Fixpoint for_each (body : string → M unit) (l : list string) : M unit :=
  match l with
  | [] => ret tt
  | x :: rest => body x ;; for_each body rest
  end.

Definition move_whisper_outputs (video_base target_dir : Path)
    (logger : Logger) : M unit :=
  let stem := stem video_base in
  for_each (move_one_output stem target_dir logger) WHISPER_EXTS.

(** [target_dir / f"{base}_{i}{suffix}"]. *)
Definition candidate (target_dir : Path) (base suffix : string) (i : nat)
  : Path :=
  joinname target_dir (base +:+ "_" +:+ pretty i +:+ suffix).

(** The [while True] search of [move_video_into_dir] for the first free
    candidate, counting from [i].  There are more candidates than entries in
    the file tree, so [S (size tree)] turns always reach a free one and the
    bound is never what ends the search (see [first_free_is_free]). *)
Fixpoint first_free (fuel : nat) (t : tree) (cwd : list string)
    (target_dir : Path) (base suffix : string) (i : nat) : nat :=
  match fuel with
  | O => i
  | S fuel' =>
      if exists_ t (resolve cwd (candidate target_dir base suffix i))
      then first_free fuel' t cwd target_dir base suffix (S i)
      else i
  end.

(** The first half of [move_video_into_dir]: where the video is to go. *)
Definition choose_dest (video target_dir : Path) : M Path :=
  let dest := joinname target_dir (name video) in
  ex <- path_exists dest ;;
  if ex then
    λ w, (Ret (candidate target_dir (stem video) (suffix video)
                 (first_free (S (size (w_tree w))) (w_tree w) (w_cwd w)
                    target_dir (stem video) (suffix video) 1)), w)
  else ret dest.

Definition move_video_into_dir (video target_dir : Path) (logger : Logger)
  : M Path :=
  dest <- choose_dest video target_dir ;;
  try_except
    (shutil_move_paths video dest ;;
     log logger DEBUG "Moved video %s -> %s" [APath video; APath dest] ;;
     ret dest)
    (λ e, log logger WARNING "Failed to move video %s to %s: %s"
            [APath video; APath dest; AExn e] ;;
          ret video).

(** [data.get(key)]: AttributeError on anything but a dictionary. *)
Definition dict_get (data : pyval) (key : string) : M pyval :=
  match data with
  | PyDict items => ret (from_option id PyNone (assoc key items))
  | _ => raise (AttributeError "get")
  end.

Definition find_detected_language (srt_base : Path) (logger : Logger)
  : M (option pyval) :=
  match with_suffix srt_base ".json" with
  | None => raise (ValueError "empty name")
  | Some json_path =>
      ex <- path_exists json_path ;;
      if negb ex then ret None
      else
        try_except
          (text <- read_text json_path ;;
           match json_load text with
           | None => raise (ValueError "JSONDecodeError")
           | Some data =>
               v1 <- dict_get data "language" ;;
               if truthy v1 then ret (Some v1)
               else
                 v2 <- dict_get data "language_detected" ;;
                 if truthy v2 then ret (Some v2) else ret None
           end)
          (λ _, ret None)
  end.

Definition check_tools : M (bool * bool) :=
  f <- which "ffmpeg" ;;
  wh <- which "whisper" ;;
  ret (f, wh).

(** The two early returns of [process_video] build the same result. *)
Definition bypass (video wav srt out_dir : Path) (logger : Logger)
    (msg : string) : M RunResult :=
  log logger INFO msg [] ;;
  detected <- find_detected_language (joinname out_dir (stem video)) logger ;;
  ret (mkRunResult video wav srt detected 0 true).

Definition cleanup_wav (clean_wav : bool) (wav : Path) (logger : Logger)
  : M unit :=
  if clean_wav then
    ex <- path_exists wav ;;
    if ex then
      try_except
        (path_unlink wav ;; log logger DEBUG "Temporary WAV removed." [])
        (λ e, log logger WARNING "Failed to remove WAV: %s" [AExn e])
    else ret tt
  else ret tt.

Definition transcribe (wav : Path) (model : string)
    (language : option string) (translate_to_en : bool) (logger : Logger)
  : M bool :=
  try_except
    (run_whisper wav model language translate_to_en logger ;; ret true)
    (λ e, log logger ERROR "Whisper failed: %s" [AExn e] ;; ret false).

(** What [process_video] does when it takes neither early return. *)
Definition full_run (video base wav srt : Path) (model : string)
    (language : option string) (translate_to_en clean_wav : bool)
    (logger : Logger) (out_dir : Path) : M RunResult :=
  extract_audio video wav logger ;;
  wav_resolved <- path_resolve wav ;;
  wav_exists <- path_exists wav ;;
  log logger INFO "WAV file location: %s (exists: %s)"
    [AResolved wav_resolved; ABool wav_exists] ;;
  whisper_ok <- transcribe wav model language translate_to_en logger ;;
  move_whisper_outputs base out_dir logger ;;
  cleanup_wav clean_wav wav logger ;;
  detected <- find_detected_language (joinname out_dir (stem video)) logger ;;
  ret (mkRunResult video wav srt detected 0 whisper_ok).

(** The stages of [full_run] that follow the transcription: relocation,
    cleanup, detection. *)
Definition after_transcription (video base wav : Path) (clean_wav : bool)
    (logger : Logger) (out_dir : Path) : M (option pyval) :=
  move_whisper_outputs base out_dir logger ;;
  cleanup_wav clean_wav wav logger ;;
  find_detected_language (joinname out_dir (stem video)) logger.

Definition process_video (video : Path) (model : string)
    (language : option string) (translate_to_en clean_wav overwrite
     skip_if_exists : bool) (logger : Logger) (out_dir : Path)
  : M RunResult :=
  match with_suffix video "" with
  | None => raise (ValueError "empty name")
  | Some base =>
      let wav := joinname out_dir (stem video +:+ ".wav") in
      let srt := joinname out_dir (stem video +:+ ".srt") in
      srt_exists <- path_exists srt ;;
      if srt_exists then
        if skip_if_exists then
          bypass video wav srt out_dir logger
            ".srt exists and skip_if_exists enabled, skipping Whisper step."
        else if negb overwrite then
          bypass video wav srt out_dir logger
            ".srt exists and overwrite disabled, skipping Whisper step."
        else
          full_run video base wav srt model language translate_to_en
            clean_wav logger out_dir
      else
        full_run video base wav srt model language translate_to_en
          clean_wav logger out_dir
  end.

(** *** [main], in the order of its source *)

(** From the existence check of the video to the confirmation prompt. *)
Definition configure (args : Args) (logger : Logger) : M Config :=
  let video := a_video args in
  ex <- path_exists video ;;
  (if negb ex
   then log logger ERROR "Video not found: %s" [APath video] ;; sys_exit 1
   else ret tt) ;;
  model <- (if str_truthy (a_model args)
            then ret (from_option id "" (a_model args))
            else ask_choice "Choose Whisper model size:" MODELS "small") ;;
  language <- (match a_language args with
               | None =>
                   lang_input <- input "Source audio language (e.g., en, fr, es) [auto-detect]: " ;;
                   let lang_input := Str.strip lang_input in
                   if negb (Str.eqb lang_input "")
                   then ret (Some lang_input) else ret None
               | Some l => ret (Some l)
               end) ;;
  tty <- isatty ;;
  cwd <- getcwd ;;
  out_dir <- (if negb tty then ret (joinname cwd (stem video))
              else
                ans <- input ("Output folder name (default: '" +:+ stem video +:+ "'): ") ;;
                let ans := Str.strip ans in
                let name := if Str.eqb ans "" then stem video else ans in
                ret (joinpath cwd (parse name))) ;;
  path_mkdir out_dir ;;
  out_resolved <- path_resolve out_dir ;;
  log logger INFO "Output folder: %s" [AResolved out_resolved] ;;
  tty <- isatty ;;
  clean_wav <- (if tty then yes_no "Clean .wav after run?" true
                else ret (negb (a_no_clean args))) ;;
  let overwrite := negb (a_no_overwrite args) in
  let skip_if_exists := negb (a_no_skip args) in
  translate_to_en <- (if a_translate_to_en args then ret true
                      else
                        tty <- isatty ;;
                        if tty then yes_no "Translate to English?" false
                        else ret false) ;;
  log logger INFO "Video: %s" [APath video] ;;
  log logger INFO "Model: %s" [AStr model] ;;
  log logger INFO "Language: %s"
    [AStr (if str_truthy language then from_option id "" language else "auto")] ;;
  log logger INFO "Translate to English: %s" [ABool translate_to_en] ;;
  log logger INFO "Clean WAV: %s" [ABool clean_wav] ;;
  log logger INFO "Overwrite SRT: %s" [ABool overwrite] ;;
  log logger INFO "Skip if exists: %s" [ABool skip_if_exists] ;;
  out_resolved <- path_resolve out_dir ;;
  log logger INFO "Output directory: %s" [AResolved out_resolved] ;;
  go <- yes_no "Start processing?" true ;;
  (if negb go then log logger INFO "Cancelled." [] ;; sys_exit 0
   else ret tt) ;;
  ret (mkConfig video model language out_dir clean_wav overwrite
         skip_if_exists translate_to_en).

(** The tool check and its abort. *)
Definition require_tools (logger : Logger) : M unit :=
  tools <- check_tools ;;
  log logger INFO "ffmpeg: %s" [AStr (if tools.1 then "OK" else "MISSING")] ;;
  log logger INFO "whisper: %s" [AStr (if tools.2 then "OK" else "MISSING")] ;;
  if negb (tools.1 && tools.2)
  then log logger ERROR "Missing tool(s), aborting." [] ;; sys_exit 1
  else ret tt.

(** The closing summary. *)
Definition report (result : RunResult) (total_duration : Z)
    (logger : Logger) : M unit :=
  print_banner "Result" (Some "OK!") logger ;;
  srt_exists <- path_exists (srt result) ;;
  log logger INFO ".srt: %s"
    [AStr (to_str (srt result)
           +:+ (if srt_exists then " (exists)" else " (missing)"))] ;;
  log logger INFO "Detected language: %s"
    [or_unknown (detected_language result)] ;;
  log logger INFO "Whisper succeeded: %s" [ABool (whisper_succeeded result)] ;;
  log logger INFO "Video location: %s" [APath (video result)] ;;
  log logger INFO "Total duration: %s" [ADuration total_duration].

(** From the call of [process_video] to the summary. *)
Definition run_and_report (cfg : Config) (start_time : Z) (logger : Logger)
  : M unit :=
  result <- process_video (c_video cfg) (c_model cfg) (c_language cfg)
              (c_translate_to_en cfg) (c_clean_wav cfg) (c_overwrite cfg)
              (c_skip_if_exists cfg) logger (c_out_dir cfg) ;;
  new_video_path <- move_video_into_dir (c_video cfg) (c_out_dir cfg) logger ;;
  let result := if bool_decide (new_video_path ≠ c_video cfg)
                then set_video new_video_path result else result in
  end_time <- now ;;
  let total_duration := (end_time - start_time)%Z in
  let result := set_duration total_duration result in
  report result total_duration logger.

(** The body of the [try] block. *)
Definition main_body (args : Args) (start_time : Z) (logger : Logger)
  : M unit :=
  cfg <- configure args logger ;;
  require_tools logger ;;
  run_and_report cfg start_time logger.

(** What [main] does before its [try] block. *)
Definition startup (args : Args) : M (Logger * Z) :=
  logger <- setup_logger (a_log args) ;;
  start_time <- now ;;
  print_banner "AutoGenSubTitles" (Some "v1.1") logger ;;
  ret (logger, start_time).

(** [main] from the namespace [parse_args] returned (line 271 on), with
    its handlers; the value is the exit status of the process (1 for an
    exception nobody catches, as the one [setup_logger] raises before the
    [try] block when the log file cannot be opened). *)
Definition main (args : Args) : world → Z * world :=
  λ w,
    match startup args w with
    | (Raise _, w0) => (1%Z, w0)
    | (Ret (logger, start_time), w0) =>
        match main_body args start_time logger w0 with
        | (Ret _, w') => (0%Z, w')
        | (Raise (SystemExit c), w') => (c, w')
        | (Raise KeyboardInterrupt, w') =>
            (1%Z, (log logger WARNING "Interrupted by user." [] w').2)
        | (Raise e, w') =>
            (1%Z, (log logger ERROR "Fatal error: %s" [AExn e] w').2)
        end
    end.

End Pipeline.

(** ** Vocabulary of the properties *)

(** The external commands of a trace, in order, each with its exit status
    ([None] when the command could not be started). *)
Definition execs (tr : list event) : list (list string * option Z) :=
  omap (λ e, match e with EvExec c s => Some (c, s) | _ => None end) tr.

(** The prompts shown on the terminal. *)
Definition prompts (tr : list event) : list string :=
  omap (λ e, match e with EvPrompt p => Some p | _ => None end) tr.

(** The events a run added to the trace it started from. *)
Definition emitted (w w' : world) : list event :=
  drop (length (w_trace w)) (w_trace w').

(** A command line is a call of [tool] when its first word is. *)
Definition calls (tool : string) (cmd : list string) : Prop :=
  head cmd = Some tool.

(** The file tree only gained directories: every entry is still there with
    its content, and whatever is new is a directory. *)
Definition tree_grows (t t' : tree) : Prop :=
  (∀ k n, t !! k = Some n → t' !! k = Some n) ∧
  (∀ k n, t !! k = None → t' !! k = Some n → n = Dir).

(** The file tree is as it was, or as one [mkdir -p] left it. *)
Definition single_mkdir (t t' : tree) : Prop :=
  t' = t ∨ ∃ p, mkdir_p t p = Some t'.

Definition tree_step (w w' : world) : Prop :=
  single_mkdir (w_tree w) (w_tree w').

(** The language a JSON document records, in the words of the spec: its
    [language] field or, failing that, the legacy [language_detected]. *)
Definition language_in (data : pyval) : option pyval :=
  match data with
  | PyDict items =>
      match assoc "language" items with
      | Some v => if truthy v then Some v
                  else match assoc "language_detected" items with
                       | Some v' => if truthy v' then Some v' else None
                       | None => None
                       end
      | None => match assoc "language_detected" items with
                | Some v' => if truthy v' then Some v' else None
                | None => None
                end
      end
  | _ => None
  end.

(** The language recorded by the file at a resolved path, nothing when there
    is no such file or [json.load] rejects its text. *)
Definition recorded_language (json_load : string → option pyval) (t : tree)
    (p : list string) : option pyval :=
  match t !! p with
  | Some (File text) =>
      match json_load text with
      | Some data => language_in data
      | None => None
      end
  | _ => None
  end.

(** A JSON document without either language field. *)
Definition lacks_language (data : pyval) : Prop :=
  match data with
  | PyDict items =>
      assoc "language" items = None ∧ assoc "language_detected" items = None
  | _ => True
  end.

(** The companion artifact is absent, is not a regular file, is not JSON, or
    is JSON without a language field. *)
Definition json_unusable (json_load : string → option pyval) (t : tree)
    (p : list string) : Prop :=
  match t !! p with
  | Some (File text) =>
      match json_load text with
      | Some data => lacks_language data
      | None => True
      end
  | _ => True
  end.

(** The paths [process_video] derives from the video and the output
    directory. *)
Definition wav_of (video out_dir : Path) : Path :=
  joinname out_dir (stem video +:+ ".wav").
Definition srt_of (video out_dir : Path) : Path :=
  joinname out_dir (stem video +:+ ".srt").

(** Something exists at a path, seen from the working directory. *)
Definition present (w : world) (p : Path) : bool :=
  exists_ (w_tree w) (resolve (w_cwd w) p).

(** Exit status and file tree a spawned command leaves. *)
Definition status_of (p : proc) : option Z :=
  match p with
  | NotStarted => None
  | Finished _ _ code => Some code
  end.

Definition tree_after (p : proc) (t : tree) : tree :=
  match p with
  | NotStarted => t
  | Finished t' _ _ => t'
  end.

(** [process_video] takes one of its two early returns. *)
Definition bypasses (srt_exists skip_if_exists overwrite : bool) : bool :=
  srt_exists && (skip_if_exists || negb overwrite).

(** ** Scenarios *)

(** A small concrete environment for running the embedding: a stand-in for
    [json.load] on a toy syntax, and stand-ins for the two tools that leave
    the files the real ones would. *)
Module Scenario.

Definition toy_json (s : string) : option pyval :=
  match s with
  | String "l" (String "=" rest) => Some (PyDict [("language", PyStr rest)])
  | String "d" (String "=" rest) =>
      Some (PyDict [("language_detected", PyStr rest)])
  | String "[" _ => Some (PyList [])
  | String "{" _ => Some (PyDict [("text", PyStr "bonjour")])
  | _ => None
  end.

(** [ffmpeg] writes its last argument; [whisper] writes "stem.srt" and
    "stem.json" into the working directory.  Each exits with the given
    status, without writing anything when it is not zero. *)
Definition toy_exec (ffmpeg_status whisper_status : Z) (cmd : list string)
    (cwd : list string) (t : tree) : proc :=
  match cmd with
  | "ffmpeg" :: _ =>
      if bool_decide (ffmpeg_status = 0%Z)
      then Finished
             (<[resolve cwd (parse (from_option id "" (last cmd))) := File "RIFF"]> t)
             [] 0
      else Finished t ["ffmpeg: error"] ffmpeg_status
  | "whisper" :: audio :: _ =>
      let s := stem (parse audio) in
      if bool_decide (whisper_status = 0%Z)
      then Finished
             (<[cwd ++ [s +:+ ".json"] := File "l=fr"]>
                (<[cwd ++ [s +:+ ".srt"] := File "1"]> t))
             ["[00:00.000 --> 00:02.000] bonjour"] 0
      else Finished t ["whisper: error"] whisper_status
  | _ => NotStarted
  end.

Definition logger0 : Logger := mkLogger None.

Definition demo : Path := mkPath false ["demo.mp4"].
Definition out : Path := mkPath true ["home"; "demo"].

(** A fresh working directory holding the video. *)
Definition tree_fresh : tree :=
  <[ ["home"; "demo.mp4"] := File "video" ]>
    (<[ ["home"] := Dir ]> (<[ [] := Dir ]> ∅)).

(** The state a first run leaves (the video put back for a second run):
    subtitles and their companion JSON in the output directory. *)
Definition tree_done : tree :=
  <[ ["home"; "demo"; "demo.json"] := File "l=fr" ]>
    (<[ ["home"; "demo"; "demo.srt"] := File "1" ]>
       (<[ ["home"; "demo"] := Dir ]> tree_fresh)).

(** The output directory already holds a file named like the video. *)
Definition tree_clash : tree :=
  <[ ["home"; "demo"; "demo_1.mp4"] := File "older" ]>
    (<[ ["home"; "demo"; "demo.mp4"] := File "other" ]>
       (<[ ["home"; "demo"] := Dir ]> tree_fresh)).

Definition world_of (t : tree) (stdin : list string) (tty : bool)
    (path : list string) : world :=
  mkWorld t ["home"] stdin tty path [0%Z; 5%Z] [].

Definition both_tools : list string := ["ffmpeg"; "whisper"].

Definition args_flags : Args :=
  mkArgs demo (Some "small") (Some "fr") false false false false None.

Definition args_bare : Args :=
  mkArgs demo None None false false false false None.

End Scenario.

(** ** Specifications of computations *)

(** Every run of [c] relates the world it starts in to the one it leaves. *)
Definition steps {A} (R : world → world → Prop) (c : M A) : Prop :=
  ∀ w, R w (c w).2.

(** Whatever [c] raises satisfies [E] in the world it leaves. *)
Definition raises_only {A} (E : exn → world → Prop) (c : M A) : Prop :=
  ∀ w e, (c w).1 = Raise e → E e (c w).2.

(** [c] always returns a value. *)
Definition total {A} (c : M A) : Prop := raises_only (λ _ _, False) c.

(** The trace was extended by events that spawn nothing. *)
Definition extends_quietly (w w' : world) : Prop :=
  ∃ evs, w_trace w' = w_trace w ++ evs ∧ execs evs = [].

(** Nothing but the trace, the clock and the pending input changed, and no
    command was spawned. *)
Definition calm (w w' : world) : Prop :=
  w_tree w' = w_tree w ∧ w_cwd w' = w_cwd w ∧ w_path w' = w_path w ∧
  extends_quietly w w'.

(** As [calm], except that the file tree may have gained directories. *)
Definition grows (w w' : world) : Prop :=
  tree_grows (w_tree w) (w_tree w') ∧ w_cwd w' = w_cwd w ∧
  w_path w' = w_path w ∧ extends_quietly w w'.

(** The files may have changed, but not through a spawned command. *)
Definition spawnless (w w' : world) : Prop :=
  w_cwd w' = w_cwd w ∧ w_path w' = w_path w ∧ extends_quietly w w'.

(** The exits [main] can take before the pipeline starts: status 1, or
    status 0 after the user declined; [KeyboardInterrupt] is never raised by
    the program itself. *)
Definition early_exit (e : exn) (w : world) : Prop :=
  match e with
  | SystemExit c =>
      c = 1%Z ∨ (c = 0%Z ∧ last (w_trace w) = Some (EvLog INFO "Cancelled." []))
  | KeyboardInterrupt => False
  | _ => True
  end.

(** Only exceptions that [except Exception] catches. *)
Definition catchable (e : exn) (w : world) : Prop := is_Exception e = true.

(** [c] keeps to [R] and raises only what [E] allows. *)
Definition obeys {A} (R : world → world → Prop) (E : exn → world → Prop)
    (c : M A) : Prop :=
  steps R c ∧ raises_only E c.

(** Relations that allow every calm step and compose. *)
Class Lenient (R : world → world → Prop) := {
  lenient_calm : ∀ w w', calm w w' → R w w';
  lenient_trans : ∀ w1 w2 w3, R w1 w2 → R w2 w3 → R w1 w3
}.

(** Exception sets that allow everything [except Exception] catches. *)
Class Catching (E : exn → world → Prop) :=
  catching : ∀ e w, is_Exception e = true → E e w.

(** The run from [w] to [w'] left the tree [t'] and spawned exactly the
    commands [xs], in that order. *)
Definition ran (w w' : world) (t' : tree)
    (xs : list (list string * option Z)) : Prop :=
  w_tree w' = t' ∧ w_cwd w' = w_cwd w ∧ w_path w' = w_path w ∧
  ∃ evs, w_trace w' = w_trace w ++ evs ∧ execs evs = xs.

(** The audio file "stem.wav" of the output directory, once it is a regular
    file with content [c], stays one. *)
Definition keeps_wav (out_dir : Path) (stem c : string) (w w' : world) : Prop :=
  w_cwd w' = w_cwd w ∧
  (w_tree w !! (resolve (w_cwd w) out_dir ++ [stem +:+ ".wav"]) = Some (File c) →
   w_tree w' !! (resolve (w_cwd w) out_dir ++ [stem +:+ ".wav"]) = Some (File c)).

(** ** Vocabulary of the prompt loops *)

(** The text [yes_no] shows at every turn. *)
Definition yes_no_prompt (prompt : string) (default : bool) : string :=
  prompt +:+ " [" +:+ (if default then "Y/n" else "y/N") +:+ "]: ".

(** What the turns of a prompt loop that end in a complaint leave in the
    trace: for every line read and rejected, the prompt and the complaint. *)
Definition rejected_turns (prompt complaint : string) (skipped : list string)
  : list event :=
  skipped ≫= λ _, [EvPrompt prompt; EvPrint complaint].

(** The world after some prompting: [rest] is what is left of standard
    input, [evs] what was added to the trace. *)
Definition after_prompts (rest : list string) (evs : list event) (w : world)
  : world :=
  with_stdin rest (with_trace (w_trace w ++ evs) w).

(** A line [yes_no] does not take for an answer. *)
Definition not_yes_no (line : string) : Prop :=
  Str.lower (Str.strip line) ∉ [""; "y"; "yes"; "o"; "oui"; "n"; "no"].

(** A line [ask_choice] answers with "Invalid choice.": it is not blank,
    and it is a number [int] can read that is no index of [options], or a
    text that is none of them. *)
Definition not_a_choice (options : list string) (line : string) : Prop :=
  let resp := Str.strip line in
  resp ≠ "" ∧
  if Str.isdigit resp
  then ∃ n, Str.int resp = Some n ∧ ¬ (1 ≤ n ≤ Z.of_nat (length options))%Z
  else resp ∉ options.

(** A line of digits that [int] refuses: a superscript digit among them, or
    more digits than [int] accepts. *)
Definition not_an_int (line : string) : Prop :=
  Str.isdigit (Str.strip line) = true ∧ Str.int (Str.strip line) = None.

(** ** Vocabulary of the end of input *)

(** Started with no line left on standard input, [c] leaves none, and what
    it raises is not the exit with status 0. *)
Definition starves {A} (c : M A) : Prop :=
  ∀ w, w_stdin w = [] →
       w_stdin (c w).2 = [] ∧ ∀ e, (c w).1 = Raise e → e ≠ SystemExit 0.

(** [c] needs a line: started with none, it raises, and not the exit with
    status 0. *)
Definition stops {A} (c : M A) : Prop :=
  ∀ w, w_stdin w = [] → ∃ e w', c w = (Raise e, w') ∧ e ≠ SystemExit 0.

(** ** Vocabulary of the start-up *)

(** The log file, when one is asked for, can be opened. *)
Definition log_ready (w : world) (args : Args) : Prop :=
  ∀ p, a_log args = Some p →
       appendable (w_tree w) (resolve (w_cwd w) p) = true.

(** ** Vocabulary of the spawned commands *)

(** The lines a spawned command wrote. *)
Definition output_of (p : proc) : list string :=
  match p with
  | NotStarted => []
  | Finished _ out _ => out
  end.

(** How the end of a command is reported to the caller of
    [run_cmd_streamed]: not at all for status 0, otherwise by the exception
    that names the command line and the status. *)
Definition failure_of (cmd : list string) (p : proc) : option exn :=
  match p with
  | NotStarted => Some (OSError "Popen")
  | Finished _ _ code =>
      if bool_decide (code = 0%Z) then None
      else Some (RuntimeError ("Command failed (" +:+ Str.join " " cmd
                                 +:+ ") exit=" +:+ pretty code))
  end.

(** What one call of [run_cmd_streamed] adds to the trace: the record of
    the command line, the command itself, then its output, line by line. *)
Definition streamed (cmd : list string) (p : proc) : list event :=
  EvLog DEBUG "Executing: %s" [AStr (Str.join " " cmd)]
  :: EvExec cmd (status_of p)
  :: ((λ line, EvLog INFO (Str.rstrip line) []) <$> output_of p).

(** ** Vocabulary of the relocation *)

(** Where [move_whisper_outputs] looks for the output with extension [ext]
    and where it puts it, as resolved paths. *)
Definition output_src (w : world) (video_base : Path) (ext : string)
  : list string :=
  w_cwd w ++ [stem video_base +:+ ext].
Definition output_dst (w : world) (video_base target_dir : Path)
    (ext : string) : list string :=
  resolve (w_cwd w) target_dir ++ [stem video_base +:+ ext].

(** ** Vocabulary of the language detection *)

(** [data.get(key)] on the items of a dictionary: [None] for a missing
    key. *)
Definition field (items : list (string * pyval)) (key : string) : pyval :=
  from_option id PyNone (assoc key items).

(** ** Vocabulary of the terminal *)

(** Nothing was read and nothing was asked: standard input is as it was,
    and no prompt was added to the trace. *)
Definition unattended (w w' : world) : Prop :=
  w_stdin w' = w_stdin w ∧ w_tty w' = w_tty w ∧
  ∃ evs, w_trace w' = w_trace w ++ evs ∧ prompts evs = [].

(** The process is where it was: same kind of standard input, same working
    directory, same search path. *)
Definition seated (w w' : world) : Prop :=
  w_tty w' = w_tty w ∧ w_cwd w' = w_cwd w ∧ w_path w' = w_path w.

(** * Properties *)

(** ** Strings and paths *)

Section StringFacts.

Lemma app_cons c s t : String c s +:+ t = String c (s +:+ t).
Proof. reflexivity. Qed.

Lemma app_assoc a b c : (a +:+ b) +:+ c = a +:+ (b +:+ c).
Proof. induction a as [|x a IH]; [done|]. by rewrite !app_cons, IH. Qed.

Lemma length_app a b :
  String.length (a +:+ b) = String.length a + String.length b.
Proof. induction a as [|x a IH]; [done|]. rewrite app_cons. simpl. by rewrite IH. Qed.

Lemma app_nonempty a e : e ≠ "" → a +:+ e ≠ "".
Proof. destruct a; [done|]. by rewrite app_cons. Qed.

(** Two strings that end in tails of the same length end in the same
    tail. *)
Lemma app_eq_tail a b e1 e2 :
  a +:+ e1 = b +:+ e2 → String.length e1 = String.length e2 →
  a = b ∧ e1 = e2.
Proof.
  revert b. induction a as [|x a IH]; intros [|y b] Heq Hlen.
  - done.
  - exfalso. apply (f_equal String.length) in Heq.
    rewrite !length_app in Heq. simpl in Heq. lia.
  - exfalso. apply (f_equal String.length) in Heq.
    rewrite !length_app in Heq. simpl in Heq. lia.
  - rewrite !app_cons in Heq. injection Heq as -> Heq.
    destruct (IH b Heq Hlen) as [-> ->]. done.
Qed.

Lemma app_inv_tail a b e : a +:+ e = b +:+ e → a = b.
Proof. intros H. by destruct (app_eq_tail _ _ _ _ H eq_refl). Qed.

Lemma eqb_true a b : Str.eqb a b = true ↔ a = b.
Proof. unfold Str.eqb. by rewrite bool_decide_eq_true. Qed.

Lemma eqb_false a b : Str.eqb a b = false ↔ a ≠ b.
Proof. unfold Str.eqb. by rewrite bool_decide_eq_false. Qed.

(** The extensions whisper writes never spell an audio file name. *)
Lemma whisper_ext_not_wav s s' ext :
  ext ∈ WHISPER_EXTS → s' +:+ ext ≠ s +:+ ".wav".
Proof.
  unfold WHISPER_EXTS. rewrite !elem_of_cons, elem_of_nil.
  intros [->|[->|[->|[->|[->|[]]]]]] Heq;
    try (by destruct (app_eq_tail _ _ _ _ Heq eq_refl)).
  change ".json" with ("." +:+ "json") in Heq.
  rewrite <- app_assoc in Heq.
  by destruct (app_eq_tail _ _ _ _ Heq eq_refl).
Qed.

End StringFacts.

Section PathFacts.

Lemma stem_of_name_nonempty n : n ≠ "" → stem_of_name n ≠ "".
Proof.
  intros Hn. unfold stem_of_name.
  destruct (Str.rsplit_dot n) as [[b a]|]; [|done].
  destruct (Str.eqb b "") eqn:Hb; simpl; [done|].
  destruct (Str.eqb a ""); [done|]. by apply eqb_false.
Qed.

Lemma joinname_nonempty p s :
  s ≠ "" → joinname p s = mkPath (anchor p) (parts p ++ [s]).
Proof. intros Hs. unfold joinname. by apply eqb_false in Hs as ->. Qed.

Lemma name_snoc a ps s : name (mkPath a (ps ++ [s])) = s.
Proof. unfold name. simpl. by rewrite last_snoc. Qed.

Lemma resolve_snoc cwd a ps s :
  resolve cwd (mkPath a (ps ++ [s])) = resolve cwd (mkPath a ps) ++ [s].
Proof. unfold resolve. simpl. destruct a; [done|]. by rewrite (assoc_L (++)). Qed.

Lemma resolve_joinname cwd p s :
  s ≠ "" → resolve cwd (joinname p s) = resolve cwd p ++ [s].
Proof.
  intros Hs. rewrite joinname_nonempty by done.
  rewrite resolve_snoc. by destruct p.
Qed.

Lemma with_suffix_joinname p s sfx :
  s ≠ "" →
  with_suffix (joinname p s) sfx = Some (joinname p (stem_of_name s +:+ sfx)).
Proof.
  intros Hs. rewrite joinname_nonempty by done.
  unfold with_suffix. rewrite name_snoc.
  apply eqb_false in Hs as Hs'. rewrite Hs'. simpl.
  rewrite removelast_last. f_equal. unfold joinname.
  destruct (Str.eqb (stem_of_name s +:+ sfx) "") eqn:E; [|done].
  apply eqb_true in E. exfalso.
  apply stem_of_name_nonempty in Hs.
  destruct (stem_of_name s); [done|]. by rewrite app_cons in E.
Qed.

Lemma with_suffix_is_Some p sfx :
  name p ≠ "" → is_Some (with_suffix p sfx).
Proof. intros Hn. unfold with_suffix. apply eqb_false in Hn as ->. eauto. Qed.

Lemma stem_nonempty p : name p ≠ "" → stem p ≠ "".
Proof. apply stem_of_name_nonempty. Qed.

End PathFacts.

(** ** Rules for computations *)

Section Rules.

Lemma execs_app tr1 tr2 : execs (tr1 ++ tr2) = execs tr1 ++ execs tr2.
Proof. unfold execs. by rewrite omap_app. Qed.

Lemma extends_quietly_refl w : extends_quietly w w.
Proof. exists []. by rewrite app_nil_r. Qed.

Lemma extends_quietly_same w w' :
  w_trace w' = w_trace w → extends_quietly w w'.
Proof. intros H. exists []. by rewrite app_nil_r. Qed.

Lemma extends_quietly_trans w1 w2 w3 :
  extends_quietly w1 w2 → extends_quietly w2 w3 → extends_quietly w1 w3.
Proof.
  intros (e1 & H1 & Q1) (e2 & H2 & Q2). exists (e1 ++ e2). split.
  - by rewrite H2, H1, (assoc_L (++)).
  - by rewrite execs_app, Q1, Q2.
Qed.

Lemma extends_quietly_execs w w' :
  extends_quietly w w' → execs (w_trace w') = execs (w_trace w).
Proof. intros (evs & -> & Q). by rewrite execs_app, Q, app_nil_r. Qed.

Lemma calm_refl w : calm w w.
Proof. repeat split; apply extends_quietly_refl. Qed.

Lemma calm_trans w1 w2 w3 : calm w1 w2 → calm w2 w3 → calm w1 w3.
Proof.
  intros (T1 & C1 & P1 & X1) (T2 & C2 & P2 & X2).
  repeat split; try congruence. by eapply extends_quietly_trans.
Qed.

Lemma tree_grows_refl t : tree_grows t t.
Proof. split; [done|]. intros k n H1 H2. congruence. Qed.

Lemma tree_grows_trans t1 t2 t3 :
  tree_grows t1 t2 → tree_grows t2 t3 → tree_grows t1 t3.
Proof.
  intros [K1 N1] [K2 N2]. split.
  - intros k n H. by apply K2, K1.
  - intros k n H1 H3. destruct (t2 !! k) as [m|] eqn:H2.
    + assert (m = Dir) as -> by by eapply N1.
      apply K2 in H2. congruence.
    + by eapply N2.
Qed.

Global Instance calm_lenient : Lenient calm.
Proof. split; [done|apply calm_trans]. Qed.

Global Instance grows_lenient : Lenient grows.
Proof.
  split.
  - intros w w' (T & C & P & X). repeat split; try done.
    + rewrite T. intros k n H. done.
    + rewrite T. intros k n H1 H2. congruence.
  - intros w1 w2 w3 (T1 & C1 & P1 & X1) (T2 & C2 & P2 & X2).
    repeat split; try congruence.
    + by apply (tree_grows_trans _ _ _ T1 T2).
    + by apply (tree_grows_trans _ _ _ T1 T2).
    + by eapply extends_quietly_trans.
Qed.

Global Instance spawnless_lenient : Lenient spawnless.
Proof.
  split.
  - intros w w' (T & C & P & X). by repeat split.
  - intros w1 w2 w3 (C1 & P1 & X1) (C2 & P2 & X2).
    repeat split; try congruence. by eapply extends_quietly_trans.
Qed.

Global Instance catchable_catching : Catching catchable.
Proof. by intros e w H. Qed.

Global Instance early_exit_catching : Catching early_exit.
Proof. intros [] w H; done. Qed.

Lemma lenient_refl R `{!Lenient R} w : R w w.
Proof. apply lenient_calm, calm_refl. Qed.

Context {A B : Type}.

Lemma bind_run (c : M A) (k : A → M B) w :
  bind c k w = match c w with
               | (Ret a, w') => k a w'
               | (Raise e, w') => (Raise e, w')
               end.
Proof. reflexivity. Qed.

Lemma obeys_ret R E `{!Lenient R} (a : A) : obeys R E (ret a).
Proof. split; [intros w; by apply lenient_refl|]. by intros w e. Qed.

Lemma obeys_raise R (E : exn → world → Prop) `{!Lenient R} e :
  (∀ w, E e w) → obeys R E (raise e : M A).
Proof.
  intros HE. split; [intros w; by apply lenient_refl|].
  intros w e' [= <-]. apply HE.
Qed.

Lemma obeys_bind R E `{!Lenient R} (c : M A) (k : A → M B) :
  obeys R E c → (∀ a, obeys R E (k a)) → obeys R E (bind c k).
Proof.
  intros [Sc Rc] Hk. split.
  - intros w. rewrite bind_run. specialize (Sc w).
    destruct (c w) as [[a|e] w']; [|done].
    eapply lenient_trans; [exact Sc|]. apply Hk.
  - intros w e. rewrite bind_run. specialize (Rc w).
    destruct (c w) as [[a|e'] w']; simpl in *.
    + apply Hk.
    + intros [= <-]. by apply Rc.
Qed.

Lemma obeys_try R E `{!Lenient R} (c : M A) (h : exn → M A) :
  obeys R catchable c → (∀ e, obeys R E (h e)) → obeys R E (try_except c h).
Proof.
  intros [Sc Rc] Hh. split.
  - intros w. unfold try_except. specialize (Sc w). specialize (Rc w).
    destruct (c w) as [[a|e] w']; [done|]. simpl in *.
    rewrite (Rc e eq_refl).
    eapply lenient_trans; [exact Sc|]. apply Hh.
  - intros w e. unfold try_except. specialize (Rc w).
    destruct (c w) as [[a|e'] w']; [done|]. simpl in *.
    rewrite (Rc e' eq_refl). apply Hh.
Qed.

Lemma obeys_mono (R R' : world → world → Prop) (E E' : exn → world → Prop)
    (c : M A) :
  (∀ w w', R w w' → R' w w') → (∀ e w, E e w → E' e w) →
  obeys R E c → obeys R' E' c.
Proof.
  intros HR HE [Sc Rc]. split; [intros w; apply HR, Sc|].
  intros w e H. by apply HE, Rc.
Qed.

End Rules.

(** The head of the goal decides the rule. *)
Create HintDb obeys discriminated.

Ltac obeys_step :=
  lazymatch goal with
  | |- obeys _ _ (bind _ _) => apply obeys_bind; [try apply _| |intros ?]
  | |- obeys _ _ (ret _) => apply obeys_ret; apply _
  | |- obeys _ _ (try_except _ _) => apply obeys_try; [try apply _| |intros ?]
  | |- obeys _ _ (if ?b then _ else _) => destruct b
  | |- obeys _ _ (match ?x with _ => _ end) => destruct x
  | |- _ => solve [eauto with obeys typeclass_instances]
  end.

Ltac obeys_auto := cbv zeta; repeat obeys_step.

Section Primitives.

Context (R : world → world → Prop) (E : exn → world → Prop).
Context `{!Lenient R}.

Lemma calm_emit (e : event) w :
  execs [e] = [] → calm w (emit e w).2.
Proof. intros He. repeat split. by exists [e]. Qed.

Lemma obeys_log lg lvl msg args : obeys R E (log lg lvl msg args).
Proof.
  split; [intros w; by apply lenient_calm, calm_emit|]. by intros w e.
Qed.

Lemma obeys_print text : obeys R E (print text).
Proof.
  split; [intros w; by apply lenient_calm, calm_emit|]. by intros w e.
Qed.

Lemma obeys_input `{!Catching E} prompt : obeys R E (input prompt).
Proof.
  split.
  - intros w. apply lenient_calm. unfold input.
    destruct (w_stdin w); repeat split; by exists [EvPrompt prompt].
  - intros w e. unfold input. destruct (w_stdin w); [|done].
    intros [= <-]. by apply catching.
Qed.

Lemma obeys_isatty : obeys R E isatty.
Proof. split; [intros w; apply lenient_refl, _|]. by intros w e. Qed.

Lemma obeys_now : obeys R E now.
Proof.
  split.
  - intros w. apply lenient_calm. unfold now.
    destruct (w_clock w); repeat split; exists []; simpl;
      by rewrite app_nil_r.
  - intros w e. unfold now. by destruct (w_clock w).
Qed.

Lemma obeys_which name : obeys R E (which name).
Proof. split; [intros w; apply lenient_refl, _|]. by intros w e. Qed.

Lemma obeys_getcwd : obeys R E getcwd.
Proof. split; [intros w; apply lenient_refl, _|]. by intros w e. Qed.

Lemma obeys_path_resolve p : obeys R E (path_resolve p).
Proof. split; [intros w; apply lenient_refl, _|]. by intros w e. Qed.

Lemma obeys_path_exists p : obeys R E (path_exists p).
Proof. split; [intros w; apply lenient_refl, _|]. by intros w e. Qed.

Lemma obeys_read_text `{!Catching E} p : obeys R E (read_text p).
Proof.
  split.
  - intros w. unfold read_text.
    destruct (read _ _); apply lenient_refl, _.
  - intros w e. unfold read_text. destruct (read _ _); [done|].
    intros [= <-]. by apply catching.
Qed.

Lemma obeys_sys_exit {A} c : (∀ w, E (SystemExit c) w) → obeys R E (sys_exit c : M A).
Proof. intros H. by apply obeys_raise. Qed.

Lemma obeys_raise_caught {A} `{!Catching E} e :
  is_Exception e = true → obeys R E (raise e : M A).
Proof. intros He. apply obeys_raise; [done|]. intros w. by apply catching. Qed.

Lemma obeys_print_banner title sub lg : obeys R E (print_banner title sub lg).
Proof. apply obeys_log. Qed.

Lemma obeys_open_log `{!Catching E} p : obeys R E (open_log p).
Proof.
  split.
  - intros w. unfold open_log.
    destruct (appendable _ _); apply lenient_refl, _.
  - intros w e. unfold open_log. destruct (appendable _ _); [done|].
    intros [= <-]. by apply catching.
Qed.

Lemma obeys_setup_logger `{!Catching E} p : obeys R E (setup_logger p).
Proof.
  unfold setup_logger. destruct p.
  - apply obeys_bind; [done|apply obeys_open_log|intros _].
    apply obeys_bind; [done|apply obeys_log|intros; by apply obeys_ret].
  - by apply obeys_ret.
Qed.

End Primitives.

Global Hint Resolve obeys_log obeys_print obeys_input obeys_isatty obeys_now
  obeys_which obeys_getcwd obeys_path_resolve obeys_path_exists
  obeys_read_text obeys_print_banner obeys_setup_logger : obeys.
Global Hint Extern 1 (obeys _ _ (raise _)) =>
  apply obeys_raise_caught; first [reflexivity | apply _] : obeys.

(** ** The file tree *)

Section TreeFacts.

Implicit Types (t : tree) (k src dst : list string).

Lemma exists_true t k : exists_ t k = true ↔ is_Some (t !! k).
Proof. unfold exists_. by rewrite bool_decide_eq_true. Qed.

Lemma exists_false t k : exists_ t k = false ↔ t !! k = None.
Proof.
  unfold exists_. rewrite bool_decide_eq_false. by rewrite eq_None_not_Some.
Qed.

Lemma tree_grows_insert t t' k :
  t !! k = None → tree_grows t t' → tree_grows t (<[k := Dir]> t').
Proof.
  intros Hk [K N]. split.
  - intros k' n H. rewrite lookup_insert_ne by congruence. by apply K.
  - intros k' n H. destruct (decide (k = k')) as [->|Hne].
    + rewrite lookup_insert_eq. congruence.
    + rewrite lookup_insert_ne by done. by apply N.
Qed.

(** Creating a directory and its parents only adds directories. *)
Lemma mkdir_rev_grows rp : ∀ t t',
  mkdir_rev t rp = Some t' → tree_grows t t'.
Proof.
  induction rp as [|x rp IH]; intros t t'; simpl.
  - destruct (t !! []) as [[]|]; intros [= <-] || done.
    apply tree_grows_refl.
  - destruct (t !! (rev rp ++ [x])) as [[]|] eqn:Hk; [done| |].
    { intros [= <-]. apply tree_grows_refl. }
    destruct (t !! rev rp) as [[]|] eqn:Hp; [done| |].
    + intros [= <-]. apply tree_grows_insert; [done|apply tree_grows_refl].
    + destruct (mkdir_rev t rp) as [t''|] eqn:Hrec; [|done].
      intros [= <-]. apply tree_grows_insert; [done|by apply IH].
Qed.

Lemma mkdir_p_grows t p t' : mkdir_p t p = Some t' → tree_grows t t'.
Proof. apply mkdir_rev_grows. Qed.

(** A move leaves alone what is outside the moved subtree. *)
Lemma move_tree_keeps t src dst k n :
  t !! k = Some n → ¬ src `prefix_of` k → move_tree t src dst !! k = Some n.
Proof.
  intros Hk Hnot. unfold move_tree. apply lookup_union_Some_l.
  by apply map_lookup_filter_Some_2.
Qed.

(** What a successful rename leaves alone: every entry other than its two
    ends that is not carried along with a moved directory. *)
Lemma rename_keeps t src dst t' k n :
  rename t src dst = Some t' →
  t !! k = Some n → k ≠ src → k ≠ dst →
  (src `prefix_of` k → src `prefix_of` dst) →
  t' !! k = Some n.
Proof.
  unfold rename. intros Hr Hk Hsrc Hdst Hunder.
  destruct (t !! src) as [nsrc|] eqn:Es; [|done].
  case_bool_decide as Hsame; [by simplify_eq|].
  destruct (parent_is_dir t dst); simpl in Hr; [|done].
  destruct nsrc as [c|].
  - assert (t' = <[dst := File c]> (delete src t)) as ->.
    { destruct (t !! dst) as [[]|]; by simplify_eq. }
    rewrite lookup_insert_ne by done. by rewrite lookup_delete_ne.
  - unfold under in Hr. case_bool_decide as Hu; [done|].
    assert (t' = move_tree t src dst) as ->.
    { destruct (t !! dst) as [[]|]; [done| |by simplify_eq].
      destruct (has_children t dst); by simplify_eq. }
    apply move_tree_keeps; [done|]. intros Hp. by apply Hu, Hunder.
Qed.

(** Renaming onto a free name leaves every entry outside the moved subtree
    as it was. *)
Lemma rename_fresh_keeps t src dst t' k n :
  rename t src dst = Some t' → t !! dst = None →
  t !! k = Some n → ¬ src `prefix_of` k → t' !! k = Some n.
Proof.
  intros Hr Hd Hk Hnot. eapply rename_keeps; eauto.
  - intros ->. by apply Hnot.
  - intros ->. congruence.
  - intros Hp. by destruct Hnot.
Qed.

(** A regular file renamed onto a free name arrives there intact. *)
Lemma rename_file_arrives t src dst t' c :
  rename t src dst = Some t' → t !! src = Some (File c) → t !! dst = None →
  t' !! dst = Some (File c).
Proof.
  unfold rename. intros Hr Hs Hd. rewrite Hs, Hd in Hr.
  case_bool_decide as Hsame; [congruence|].
  destruct (parent_is_dir t dst); simpl in Hr; [|done].
  simplify_eq. by rewrite lookup_insert_eq.
Qed.

Lemma shutil_move_fresh t src dst :
  t !! dst = None →
  shutil_move t src dst = (λ t', (t', dst)) <$> rename t src dst.
Proof. intros Hd. unfold shutil_move. by rewrite Hd. Qed.

Lemma unlink_file t p c :
  t !! p = Some (File c) → unlink t p = Some (delete p t).
Proof. intros H. unfold unlink. by rewrite H. Qed.

End TreeFacts.

(** ** The search for a free destination name *)

Section Candidates.

Variables (t : tree) (cwd : list string) (target_dir : Path)
          (base suffix : string).

Local Abbreviation cand i := (resolve cwd (candidate target_dir base suffix i)).

Implicit Types (i j n fuel : nat).

Lemma candidate_name_nonempty i : base +:+ "_" +:+ pretty i +:+ suffix ≠ "".
Proof. apply app_nonempty. by rewrite app_cons. Qed.

Lemma candidate_resolved i :
  cand i = resolve cwd target_dir ++ [base +:+ "_" +:+ pretty i +:+ suffix].
Proof. apply resolve_joinname, candidate_name_nonempty. Qed.

(** Different numbers give different candidates. *)
Lemma candidate_inj i j : cand i = cand j → i = j.
Proof.
  rewrite !candidate_resolved. intros H.
  apply app_inj_tail in H as [_ H].
  apply String.app_inj in H. rewrite !app_cons in H.
  injection H as H. change ("" +:+ ?x) with x in H.
  apply app_inv_tail in H.
  by apply (inj pretty) in H.
Qed.

Lemma first_free_spec fuel : ∀ i,
  let r := first_free fuel t cwd target_dir base suffix i in
  i ≤ r ≤ i + fuel ∧
  (∀ j, i ≤ j < r → exists_ t (cand j) = true) ∧
  (r < i + fuel → exists_ t (cand r) = false).
Proof.
  induction fuel as [|fuel IH]; intros i; cbv zeta; simpl.
  - split; [lia|]. split; [intros j Hj; lia|intros Hlt; lia].
  - destruct (exists_ t (cand i)) eqn:Hi.
    + destruct (IH (S i)) as (Hr & Hbelow & Hfree).
      split; [lia|]. split.
      * intros j Hj. destruct (decide (j = i)) as [->|]; [done|].
        apply Hbelow. lia.
      * intros Hlt. apply Hfree. lia.
    + split; [lia|]. split; [intros j Hj; lia|done].
Qed.

(** A tree of [n] entries cannot hold [n + 1] candidates. *)
Lemma candidates_run_out i n :
  (∀ j, i ≤ j < i + n → exists_ t (cand j) = true) → n ≤ size t.
Proof.
  intros Hall.
  set (l := (λ j, cand j) <$> seq i n).
  assert (NoDup l) as Hnd.
  { apply NoDup_fmap_2_strong; [|apply NoDup_seq].
    intros a b _ _. apply candidate_inj. }
  assert (list_to_set l ⊆ dom t) as Hsub.
  { intros k. rewrite elem_of_list_to_set. unfold l.
    rewrite list_elem_of_fmap. intros (j & -> & Hj).
    apply elem_of_seq in Hj. apply elem_of_dom, exists_true, Hall. lia. }
  apply subseteq_size in Hsub.
  rewrite size_list_to_set, size_dom in Hsub by done.
  unfold l in Hsub. by rewrite length_fmap, length_seq in Hsub.
Qed.

(** The search always ends on a free name: the bound on its turns is
    never what stops it. *)
Lemma first_free_is_free :
  exists_ t (cand (first_free (S (size t)) t cwd target_dir base suffix 1))
  = false.
Proof.
  destruct (first_free_spec (S (size t)) 1) as (Hr & Hbelow & Hfree).
  set (r := first_free _ _ _ _ _ _ _) in *.
  destruct (decide (r < 1 + S (size t))) as [Hlt|Hge]; [by apply Hfree|].
  exfalso. assert (S (size t) ≤ size t); [|lia].
  apply (candidates_run_out 1). intros j Hj. apply Hbelow. lia.
Qed.

End Candidates.

(** ** Prompts *)

Section Prompts.

Context (R : world → world → Prop) (E : exn → world → Prop).
Context `{!Lenient R} `{!Catching E}.

Lemma obeys_ask_choice_loop fuel prompt options default :
  obeys R E (ask_choice_loop fuel prompt options default).
Proof.
  induction fuel as [|fuel IH]; simpl; obeys_auto; exact IH.
Qed.

Lemma obeys_ask_choice prompt options default :
  obeys R E (ask_choice prompt options default).
Proof.
  split.
  - intros w. apply (obeys_ask_choice_loop (length (w_stdin w))).
  - intros w. apply (obeys_ask_choice_loop (length (w_stdin w))).
Qed.

Lemma obeys_yes_no_loop fuel prompt default :
  obeys R E (yes_no_loop fuel prompt default).
Proof.
  induction fuel as [|fuel IH]; simpl; obeys_auto; exact IH.
Qed.

Lemma obeys_yes_no prompt default : obeys R E (yes_no prompt default).
Proof.
  split.
  - intros w. apply (obeys_yes_no_loop (length (w_stdin w))).
  - intros w. apply (obeys_yes_no_loop (length (w_stdin w))).
Qed.

End Prompts.

Global Hint Resolve obeys_ask_choice obeys_yes_no : obeys.

(** The bound on the turns of a prompt loop is never what stops it: a turn
    that reads a line leaves one line less. *)
Lemma yes_no_loop_fuel prompt default : ∀ fuel w,
  length (w_stdin w) ≤ fuel →
  yes_no_loop fuel prompt default w = yes_no prompt default w.
Proof.
  unfold yes_no. intros fuel w. remember (w_stdin w) as lines eqn:Hl.
  revert fuel w Hl. induction lines as [|l lines IH]; intros fuel w Hl Hle.
  - destruct fuel; simpl; unfold bind, input; by rewrite <- Hl.
  - destruct fuel as [|fuel]; [simpl in Hle; lia|]. simpl.
    unfold bind at 1 3, input. rewrite <- Hl.
    destruct (Str.eqb _ ""); [done|].
    repeat (case_bool_decide; [done|]).
    unfold bind, print, emit. simpl.
    rewrite (IH fuel) by (simpl in *; done || lia).
    symmetry. destruct lines; [|by apply IH; simpl in *; done || lia].
    simpl. unfold bind, input. simpl. done.
Qed.

(** ** The functions of the pipeline *)

Lemma bind_ret_eq {A B} (c : M A) (k : A → M B) w a w' :
  c w = (Ret a, w') → bind c k w = k a w'.
Proof. intros H. unfold bind. by rewrite H. Qed.

Lemma bind_raise_eq {A B} (c : M A) (k : A → M B) w e w' :
  c w = (Raise e, w') → bind c k w = (Raise e, w').
Proof. intros H. unfold bind. by rewrite H. Qed.

Lemma obeys_for_each R E `{!Lenient R} (body : string → M unit) l :
  (∀ x, x ∈ l → obeys R E (body x)) → obeys R E (for_each body l).
Proof.
  induction l as [|x l IH]; intros H; simpl.
  - by apply obeys_ret.
  - apply obeys_bind; [done| |intros _].
    + apply H. by left.
    + apply IH. intros y Hy. apply H. by right.
Qed.

Lemma obeys_fs_try E `{!Catching E} what f : obeys spawnless E (fs_try what f).
Proof.
  split.
  - intros w. unfold fs_try. destruct (f _ _); simpl;
      repeat split; by apply extends_quietly_same.
  - intros w e. unfold fs_try. destruct (f _ _); [done|].
    intros [= <-]. by apply catching.
Qed.

Section Detection.

Variable json_load : string → option pyval.

(** [find_detected_language] reads the language the file at
    [srt_base.with_suffix(".json")] records, swallows whatever goes wrong
    on the way and touches nothing. *)
Lemma find_detected_language_reads srt_base lg json_path w :
  with_suffix srt_base ".json" = Some json_path →
  find_detected_language json_load srt_base lg w
  = (Ret (recorded_language json_load (w_tree w)
            (resolve (w_cwd w) json_path)), w).
Proof.
  intros Hp. unfold find_detected_language. rewrite Hp.
  unfold bind at 1, path_exists, exists_, recorded_language. simpl.
  destruct (w_tree w !! resolve (w_cwd w) json_path) as [[text|]|] eqn:Hf.
  - rewrite bool_decide_eq_true_2 by eauto. simpl.
    unfold try_except, bind at 1, read_text, read. rewrite Hf.
    destruct (json_load text) as [data|]; [|done].
    destruct data; try done. unfold language_in. simpl.
    unfold bind, ret.
    destruct (assoc "language" items) as [v|]; simpl.
    + destruct (truthy v); [done|].
      by destruct (assoc "language_detected" items) as [v'|];
        simpl; [destruct (truthy v')|].
    + by destruct (assoc "language_detected" items) as [v'|];
        simpl; [destruct (truthy v')|].
  - rewrite bool_decide_eq_true_2 by eauto. simpl.
    unfold try_except, bind at 1, read_text, read. by rewrite Hf.
  - rewrite bool_decide_eq_false_2 by (by intros [? ?]). done.
Qed.

Lemma recorded_language_unusable t p :
  json_unusable json_load t p → recorded_language json_load t p = None.
Proof.
  unfold json_unusable, recorded_language.
  destruct (t !! p) as [[text|]|]; [|done..].
  destruct (json_load text) as [[]|]; try done.
  simpl. by intros [-> ->].
Qed.

Lemma find_detected_language_obeys R E `{!Lenient R} `{!Catching E} srt_base lg :
  obeys R E (find_detected_language json_load srt_base lg).
Proof.
  unfold find_detected_language.
  destruct (with_suffix srt_base ".json") as [jp|] eqn:Hp.
  - split.
    + intros w.
      pose proof (find_detected_language_reads srt_base lg jp w Hp) as H.
      unfold find_detected_language in H. rewrite Hp in H. rewrite H.
      by apply lenient_refl.
    + intros w e.
      pose proof (find_detected_language_reads srt_base lg jp w Hp) as H.
      unfold find_detected_language in H. rewrite Hp in H. by rewrite H.
  - by apply obeys_raise_caught.
Qed.

End Detection.

Section Bypass.

Variable exec : list string → list string → tree → proc.
Variable json_load : string → option pyval.

(** The JSON file the pipeline looks up for a video: the stem joined to the
    output directory, its suffix then replaced by ".json". *)
Lemma companion_json_path video out_dir :
  name video ≠ "" →
  with_suffix (joinname out_dir (stem video)) ".json"
  = Some (joinname out_dir (stem_of_name (stem video) +:+ ".json")).
Proof. intros Hn. by apply with_suffix_joinname, stem_nonempty. Qed.

(** For a stem that carries no extension of its own this is "stem.json". *)
Lemma companion_json_plain video out_dir :
  name video ≠ "" → suffix_of_name (stem video) = "" →
  with_suffix (joinname out_dir (stem video)) ".json"
  = Some (joinname out_dir (stem video +:+ ".json")).
Proof.
  intros Hn Hs. rewrite companion_json_path by done. do 3 f_equal.
  unfold suffix_of_name, stem_of_name in *.
  destruct (Str.rsplit_dot (stem video)) as [[b a]|]; [|done].
  destruct (Str.eqb b "" || Str.eqb a ""); [done|].
  by rewrite app_cons in Hs.
Qed.

Lemma bypass_spec video wav srt out_dir lg msg json_path w :
  with_suffix (joinname out_dir (stem video)) ".json" = Some json_path →
  bypass json_load video wav srt out_dir lg msg w
  = (Ret (mkRunResult video wav srt
            (recorded_language json_load (w_tree w)
               (resolve (w_cwd w) json_path)) 0 true),
     with_trace (w_trace w ++ [EvLog INFO msg []]) w).
Proof.
  intros Hp. unfold bypass.
  erewrite bind_ret_eq by reflexivity.
  erewrite bind_ret_eq by (by apply find_detected_language_reads).
  reflexivity.
Qed.

(** Both early returns of [process_video]: one log record, nothing
    spawned, nothing written, the transcription reported as a success and
    the language taken from the JSON file already there. *)
Lemma process_video_bypass video model language translate clean overwrite
    skip lg out_dir w :
  name video ≠ "" →
  present w (srt_of video out_dir) = true →
  skip || negb overwrite = true →
  ∃ msg json_path,
    with_suffix (joinname out_dir (stem video)) ".json" = Some json_path ∧
    process_video exec json_load video model language translate clean
      overwrite skip lg out_dir w
    = (Ret (mkRunResult video (wav_of video out_dir) (srt_of video out_dir)
              (recorded_language json_load (w_tree w)
                 (resolve (w_cwd w) json_path)) 0 true),
       with_trace (w_trace w ++ [EvLog INFO msg []]) w).
Proof.
  intros Hn Hsrt Hflags. unfold process_video.
  destruct (with_suffix_is_Some video "" Hn) as [base ->].
  cbv zeta. erewrite bind_ret_eq by reflexivity.
  fold (srt_of video out_dir). fold (wav_of video out_dir).
  fold (present w (srt_of video out_dir)). rewrite Hsrt.
  pose proof (companion_json_path video out_dir Hn) as Hp.
  destruct skip.
  - eexists _, _. split; [exact Hp|]. by apply bypass_spec.
  - simpl in Hflags. rewrite Hflags.
    eexists _, _. split; [exact Hp|]. by apply bypass_spec.
Qed.

End Bypass.

(** ** The closing summary *)

Lemma report_trace result total lg w :
  (report result total lg w).1 = Ret tt ∧
  w_tree (report result total lg w).2 = w_tree w ∧
  w_trace (report result total lg w).2
  = w_trace w ++
    [EvLog INFO "=== %s === %s" [AStr "Result"; AStr "OK!"];
     EvLog INFO ".srt: %s"
       [AStr (to_str (srt result)
              +:+ (if present w (srt result) then " (exists)" else " (missing)"))];
     EvLog INFO "Detected language: %s" [or_unknown (detected_language result)];
     EvLog INFO "Whisper succeeded: %s" [ABool (whisper_succeeded result)];
     EvLog INFO "Video location: %s" [APath (video result)];
     EvLog INFO "Total duration: %s" [ADuration total]].
Proof.
  unfold report, print_banner, log, emit, bind, path_exists, present. simpl.
  repeat split. by rewrite <- !(assoc_L (++)).
Qed.

Lemma obeys_report R E `{!Lenient R} result total lg :
  obeys R E (report result total lg).
Proof. unfold report. obeys_auto. Qed.

Global Hint Resolve obeys_report : obeys.

(** ** Early returns: claim C10, and the language an early return reports *)

(** X25. When the subtitle file is already in the output directory and
    skip-if-exists is enabled, [process_video] returns a result without
    spawning ffmpeg or whisper and without touching the file tree, and the
    detected language of that result is what is recorded by the JSON file
    that [find_detected_language] opens for "out_dir / stem": that path with
    its last suffix replaced by ".json".  For a stem without a dot this is
    the companion of the subtitles; for a stem such as "talk.v2" it is
    "talk.json". *)
Theorem skip_existing_reuses_language exec json_load video model language
    translate clean overwrite lg out_dir w :
  name video ≠ "" →
  present w (srt_of video out_dir) = true →
  ∃ r w' json_path,
    process_video exec json_load video model language translate clean
      overwrite true lg out_dir w = (Ret r, w') ∧
    execs (w_trace w') = execs (w_trace w) ∧
    w_tree w' = w_tree w ∧
    with_suffix (joinname out_dir (stem video)) ".json" = Some json_path ∧
    detected_language r
    = recorded_language json_load (w_tree w) (resolve (w_cwd w) json_path).
Proof.
  intros Hn Hsrt.
  destruct (process_video_bypass exec json_load video model language translate
              clean overwrite true lg out_dir w Hn Hsrt eq_refl)
    as (msg & jp & Hjp & Hrun).
  eexists _, _, jp. split; [exact Hrun|]. simpl.
  split; [|by repeat split].
  by rewrite execs_app, app_nil_r.
Qed.

(** C10. When the subtitle file is already there and [process_video] takes
    an early return, because skip-if-exists is enabled or because overwrite
    is disabled, the result says [whisper_succeeded = True] although no
    command was spawned in that run. *)
Theorem bypass_reports_success exec json_load video model language translate
    clean overwrite skip lg out_dir w :
  name video ≠ "" →
  present w (srt_of video out_dir) = true →
  skip = true ∨ overwrite = false →
  ∃ r w',
    process_video exec json_load video model language translate clean
      overwrite skip lg out_dir w = (Ret r, w') ∧
    whisper_succeeded r = true ∧
    execs (w_trace w') = execs (w_trace w).
Proof.
  intros Hn Hsrt Hflags.
  assert (skip || negb overwrite = true) as Hb.
  { destruct Hflags as [-> | ->]; [done|]. by destruct skip. }
  destruct (process_video_bypass exec json_load video model language translate
              clean overwrite skip lg out_dir w Hn Hsrt Hb)
    as (msg & jp & Hjp & Hrun).
  eexists _, _. split; [exact Hrun|]. simpl. split; [done|].
  by rewrite execs_app, app_nil_r.
Qed.

(** X26. When the file that [find_detected_language] opens (its argument
    with the last suffix replaced by ".json") is absent, is not JSON, or is
    JSON without a [language] and without a [language_detected] field, the
    function returns [None] to its caller, raises nothing and changes
    nothing; and [report] shows a result without a language as
    "Unknown". *)
Theorem unusable_json_is_unknown json_load srt_base lg json_path w :
  with_suffix srt_base ".json" = Some json_path →
  json_unusable json_load (w_tree w) (resolve (w_cwd w) json_path) →
  find_detected_language json_load srt_base lg w = (Ret None, w) ∧
  ∀ r total lg' w0,
    detected_language r = None →
    EvLog INFO "Detected language: %s" [AStr "Unknown"]
    ∈ w_trace (report r total lg' w0).2.
Proof.
  intros Hp Hbad. split.
  - rewrite (find_detected_language_reads _ _ _ _ _ Hp).
    by rewrite recorded_language_unusable.
  - intros r total lg' w0 Hd.
    destruct (report_trace r total lg' w0) as (_ & _ & ->).
    rewrite Hd. simpl. set_solver.
Qed.

(** ** Spawning the tools *)

Section Ran.

Lemma ran_execs w w' t xs :
  ran w w' t xs → execs (w_trace w') = execs (w_trace w) ++ xs.
Proof. intros (_ & _ & _ & evs & -> & <-). apply execs_app. Qed.

Lemma ran_trans w w1 w2 t1 t2 xs1 xs2 :
  ran w w1 t1 xs1 → ran w1 w2 t2 xs2 → ran w w2 t2 (xs1 ++ xs2).
Proof.
  intros (T1 & C1 & P1 & e1 & H1 & X1) (T2 & C2 & P2 & e2 & H2 & X2).
  repeat split; try congruence. exists (e1 ++ e2). split.
  - by rewrite H2, H1, (assoc_L (++)).
  - by rewrite execs_app, X1, X2.
Qed.

Lemma calm_ran w w' : calm w w' → ran w w' (w_tree w) [].
Proof. intros (T & C & P & X). by repeat split. Qed.

Lemma spawnless_ran w w' : spawnless w w' → ran w w' (w_tree w') [].
Proof. intros (C & P & X). by repeat split. Qed.

Lemma ran_calm_l w w1 w2 t xs :
  calm w w1 → ran w1 w2 t xs → ran w w2 t xs.
Proof. intros H1 H2. apply (ran_trans _ _ _ _ _ [] xs (calm_ran _ _ H1) H2). Qed.

Lemma ran_spawnless_r w w1 w2 t xs :
  ran w w1 t xs → spawnless w1 w2 → ran w w2 (w_tree w2) xs.
Proof.
  intros H1 H2. rewrite <- (app_nil_r xs).
  apply (ran_trans _ _ _ _ _ xs [] H1 (spawnless_ran _ _ H2)).
Qed.

Lemma ran_calm_r w w1 w2 t xs :
  ran w w1 t xs → calm w1 w2 → ran w w2 t xs.
Proof.
  intros H1 H2. pose proof (ran_trans _ _ _ _ _ _ _ H1 (calm_ran _ _ H2)) as H.
  rewrite app_nil_r in H. by destruct H1 as (<- & _).
Qed.

Lemma total_returns {A} (c : M A) w : total c → ∃ a, (c w).1 = Ret a.
Proof.
  intros H. destruct (c w) as [[a|e] w'] eqn:Hc; simpl; [eauto|].
  exfalso. apply (H w e). by rewrite Hc.
Qed.

Lemma obeys_returns {A} R (c : M A) w :
  obeys R (λ _ _, False) c → ∃ a w', c w = (Ret a, w') ∧ R w w'.
Proof.
  intros [Hs Ht]. destruct (total_returns c w Ht) as [a Ha].
  specialize (Hs w). destruct (c w) as [r w']; simpl in *. subst. eauto.
Qed.

End Ran.


Section Spawning.

Variable exec : list string → list string → tree → proc.

Lemma obeys_log_lines R E `{!Lenient R} lg out : obeys R E (log_lines lg out).
Proof. induction out as [|l out IH]; simpl; obeys_auto. Qed.

(** One command: it appears in the trace with its status, the tree is the
    one it left, and anything but status 0 raises. *)
Lemma run_cmd_streamed_spec cmd lg w :
  let p := exec cmd (w_cwd w) (w_tree w) in
  ∃ r w1,
    run_cmd_streamed exec cmd lg w = (r, w1) ∧
    ran w w1 (tree_after p (w_tree w)) [(cmd, status_of p)] ∧
    match status_of p with
    | Some 0%Z => r = Ret tt
    | _ => ∃ e, r = Raise e ∧ is_Exception e = true
    end.
Proof.
  cbv zeta. unfold run_cmd_streamed.
  erewrite bind_ret_eq by reflexivity.
  unfold bind at 1, popen. simpl.
  destruct (exec cmd (w_cwd w) (w_tree w)) as [|t out code] eqn:Hp; simpl.
  - eexists _, _. split; [reflexivity|]. split; [|by eexists].
    repeat split. eexists [_; _].
    split; [simpl; by rewrite <- (assoc_L (++))|reflexivity].
  - set (w1 := with_tree t _).
    destruct (obeys_returns calm (log_lines lg out) w1
                (obeys_log_lines _ _ lg out)) as ([] & w2 & Hl & Hc).
    erewrite bind_ret_eq by exact Hl.
    assert (ran w w2 t [(cmd, Some code)]) as Hran.
    { destruct Hc as (T & C & P & evs & Ht & Hx). repeat split; [done..|].
      eexists (_ :: _ :: evs). split.
      - rewrite Ht. unfold w1. simpl. by rewrite <- !(assoc_L (++)).
      - simpl. by rewrite Hx. }
    case_bool_decide as Hcode.
    + eexists _, _. split; [reflexivity|]. split; [done|].
      destruct code; [done|by eexists..].
    + subst code.
      eexists _, _. split; [reflexivity|]. by split.
Qed.

Lemma logged_then_run {A} lg lvl msg args (c : M A) w r w1 t xs :
  c (log lg lvl msg args w).2 = (r, w1) →
  ran (log lg lvl msg args w).2 w1 t xs →
  (log lg lvl msg args ;; c) w = (r, w1) ∧ ran w w1 t xs.
Proof.
  intros Hc Hran. split; [by erewrite bind_ret_eq by reflexivity|].
  eapply ran_calm_l; [|exact Hran]. by apply calm_emit.
Qed.

Lemma extract_audio_spec video_path wav_path lg w :
  let p := exec (ffmpeg_cmd video_path wav_path) (w_cwd w) (w_tree w) in
  ∃ r w1,
    extract_audio exec video_path wav_path lg w = (r, w1) ∧
    ran w w1 (tree_after p (w_tree w))
      [(ffmpeg_cmd video_path wav_path, status_of p)] ∧
    match status_of p with
    | Some 0%Z => r = Ret tt
    | _ => ∃ e, r = Raise e ∧ is_Exception e = true
    end.
Proof.
  cbv zeta. unfold extract_audio.
  set (cmd := ffmpeg_cmd video_path wav_path).
  destruct (run_cmd_streamed_spec cmd lg
              (log lg DEBUG "Running FFmpeg: %s" [AStr (Str.join " " cmd)] w).2)
    as (r & w1 & Hrun & Hran & Hres).
  exists r, w1. 
  destruct (logged_then_run _ _ _ _ _ _ _ _ _ _ Hrun Hran) as [H1 H2].
  split; [exact H1|]. split; [exact H2|exact Hres].
Qed.

Lemma run_whisper_spec wav_path model language translate lg w :
  let cmd := whisper_cmd wav_path model language translate in
  let p := exec cmd (w_cwd w) (w_tree w) in
  ∃ r w1,
    run_whisper exec wav_path model language translate lg w = (r, w1) ∧
    ran w w1 (tree_after p (w_tree w)) [(cmd, status_of p)] ∧
    match status_of p with
    | Some 0%Z => r = Ret tt
    | _ => ∃ e, r = Raise e ∧ is_Exception e = true
    end.
Proof.
  cbv zeta. unfold run_whisper.
  set (cmd := whisper_cmd wav_path model language translate).
  destruct (run_cmd_streamed_spec cmd lg
              (log lg DEBUG "Running Whisper: %s" [AStr (Str.join " " cmd)] w).2)
    as (r & w1 & Hrun & Hran & Hres).
  exists r, w1.
  destruct (logged_then_run _ _ _ _ _ _ _ _ _ _ Hrun Hran) as [H1 H2].
  split; [exact H1|]. split; [exact H2|exact Hres].
Qed.

(** The transcription step never raises: its outcome is a boolean. *)
Lemma transcribe_spec wav_path model language translate lg w :
  let cmd := whisper_cmd wav_path model language translate in
  let p := exec cmd (w_cwd w) (w_tree w) in
  ∃ w2,
    transcribe exec wav_path model language translate lg w
    = (Ret (bool_decide (status_of p = Some 0%Z)), w2) ∧
    ran w w2 (tree_after p (w_tree w)) [(cmd, status_of p)].
Proof.
  cbv zeta. unfold transcribe, try_except.
  destruct (run_whisper_spec wav_path model language translate lg w)
    as (r & w1 & Hrun & Hran & Hres).
  cbv zeta in *. rewrite bind_run, Hrun.
  set (st := status_of _) in *.
  assert (∀ e, is_Exception e = true →
            ∃ w2, (if is_Exception e
                   then (log lg ERROR "Whisper failed: %s" [AExn e] ;; ret false) w1
                   else (Raise e, w1)) = (Ret false, w2) ∧
                  ran w w2 (tree_after (exec (whisper_cmd wav_path model language translate) (w_cwd w) (w_tree w)) (w_tree w))
                    [(whisper_cmd wav_path model language translate, st)]) as Hfail.
  { intros e ->. eexists. split; [reflexivity|].
    eapply ran_calm_r; [exact Hran|]. by apply calm_emit. }
  destruct st as [[| |]|].
  - subst r. eexists. split; [reflexivity|done].
  - destruct Hres as (e & -> & He). apply (Hfail e He).
  - destruct Hres as (e & -> & He). apply (Hfail e He).
  - destruct Hres as (e & -> & He). apply (Hfail e He).
Qed.

End Spawning.

(** ** Relocation and cleanup *)

Section Relocation.

Global Instance keeps_wav_lenient out_dir s c : Lenient (keeps_wav out_dir s c).
Proof.
  split.
  - intros w w' (T & C & _). split; [done|]. by rewrite T.
  - intros w1 w2 w3 [C1 K1] [C2 K2]. split; [congruence|].
    intros H. rewrite C1 in K2. by apply K2, K1.
Qed.

Lemma obeys_path_replace E `{!Catching E} src dest :
  obeys spawnless E (path_replace src dest).
Proof. by apply obeys_fs_try. Qed.

Lemma obeys_path_unlink E `{!Catching E} p : obeys spawnless E (path_unlink p).
Proof. by apply obeys_fs_try. Qed.

Lemma obeys_shutil_move E `{!Catching E} src dst :
  obeys spawnless E (shutil_move_paths src dst).
Proof. by apply obeys_fs_try. Qed.

(** A path that ends like a whisper output is not the audio file, and a
    directory of that name holding the audio file holds the output
    directory too. *)
Lemma output_apart_from_wav (C R : list string) s s' ext :
  ext ∈ WHISPER_EXTS →
  R ++ [s +:+ ".wav"] ≠ C ++ [s' +:+ ext] ∧
  (C ++ [s' +:+ ext] `prefix_of` R ++ [s +:+ ".wav"] →
   C ++ [s' +:+ ext] `prefix_of` R ++ [s' +:+ ext]).
Proof.
  intros Hext. split.
  - intros H. apply app_inj_tail in H as [_ H].
    by apply (whisper_ext_not_wav s s' ext Hext).
  - intros [l Hl]. destruct l as [|z l _] using rev_ind.
    + rewrite app_nil_r in Hl. apply app_inj_tail in Hl as [_ H].
      by destruct (whisper_ext_not_wav s s' ext Hext).
    + rewrite (assoc_L (++)) in Hl. apply app_inj_tail in Hl as [-> _].
      apply prefix_app_r, prefix_app_r. done.
Qed.

Lemma path_replace_keeps_wav out_dir s s' c ext :
  ext ∈ WHISPER_EXTS →
  obeys (keeps_wav out_dir s c) catchable
    (path_replace (mkPath false [s' +:+ ext])
       (joinname out_dir (name (mkPath false [s' +:+ ext])))).
Proof.
  intros Hext. split; [|apply obeys_fs_try, _].
  intros w. unfold path_replace, fs_try.
  destruct (rename _ _ _) as [t'|] eqn:Hr; simpl; [|by split].
  split; [done|]. intros HW.
  change [s' +:+ ext] with ([] ++ [s' +:+ ext]) in Hr.
  rewrite name_snoc in Hr.
  assert (s' +:+ ext ≠ "") as Hne.
  { apply app_nonempty. revert Hext. unfold WHISPER_EXTS.
    rewrite !elem_of_cons, elem_of_nil.
    by intros [->|[->|[->|[->|[->|[]]]]]]. }
  rewrite resolve_joinname in Hr by done.
  rewrite resolve_snoc in Hr. 
  destruct (output_apart_from_wav (resolve (w_cwd w) (mkPath false []))
              (resolve (w_cwd w) out_dir) s s' ext Hext) as [Hsrc Hunder].
  destruct (output_apart_from_wav (resolve (w_cwd w) out_dir)
              (resolve (w_cwd w) out_dir) s s' ext Hext) as [Hdst _].
  eapply rename_keeps; eauto.
Qed.

Lemma move_one_output_keeps out_dir s s' c lg ext :
  ext ∈ WHISPER_EXTS →
  obeys (keeps_wav out_dir s c) (λ _ _, False)
    (move_one_output s' out_dir lg ext).
Proof.
  intros Hext. unfold move_one_output. obeys_auto.
  by apply path_replace_keeps_wav.
Qed.

Lemma move_whisper_outputs_keeps base out_dir s c lg :
  obeys (keeps_wav out_dir s c) (λ _ _, False)
    (move_whisper_outputs base out_dir lg).
Proof.
  unfold move_whisper_outputs. apply obeys_for_each; [apply _|].
  intros ext Hext. by apply move_one_output_keeps.
Qed.

Lemma move_whisper_outputs_spawnless base out_dir lg :
  obeys spawnless (λ _ _, False) (move_whisper_outputs base out_dir lg).
Proof.
  unfold move_whisper_outputs. apply obeys_for_each; [apply _|].
  intros ext _. unfold move_one_output. obeys_auto.
  apply obeys_path_replace, _.
Qed.

Lemma cleanup_wav_spawnless clean wav_path lg :
  obeys spawnless (λ _ _, False) (cleanup_wav clean wav_path lg).
Proof.
  unfold cleanup_wav. obeys_auto. apply obeys_path_unlink, _.
Qed.

(** Cleanup removes a regular audio file when asked to, and leaves the
    tree alone otherwise. *)
Lemma cleanup_wav_effect clean wav_path lg c w :
  w_tree w !! resolve (w_cwd w) wav_path = Some (File c) →
  ∃ w', cleanup_wav clean wav_path lg w = (Ret tt, w') ∧
        w_cwd w' = w_cwd w ∧
        w_tree w' !! resolve (w_cwd w) wav_path
        = if clean then None else Some (File c).
Proof.
  intros Hf. unfold cleanup_wav. destruct clean; [|by eexists].
  unfold bind at 1, path_exists, exists_. simpl.
  rewrite bool_decide_eq_true_2 by eauto.
  unfold try_except, bind, path_unlink, fs_try.
  rewrite (unlink_file _ _ _ Hf). simpl.
  eexists. split; [reflexivity|]. split; [done|]. simpl.
  by rewrite lookup_delete_eq.
Qed.

End Relocation.

(** ** The full run *)

Section FullRun.

Variable exec : list string → list string → tree → proc.
Variable json_load : string → option pyval.

(** What follows the transcription always returns, spawns nothing, and
    settles the audio file as the clean flag says. *)
Lemma after_transcription_spec video base clean lg out_dir w :
  name video ≠ "" →
  ∃ d w',
    after_transcription json_load video base (wav_of video out_dir) clean lg
      out_dir w = (Ret d, w') ∧
    spawnless w w' ∧
    ∀ c, w_tree w !! resolve (w_cwd w) (wav_of video out_dir) = Some (File c) →
         w_tree w' !! resolve (w_cwd w) (wav_of video out_dir)
         = if clean then None else Some (File c).
Proof.
  intros Hn. unfold after_transcription.
  assert (stem video +:+ ".wav" ≠ "") as Hwav by by apply app_nonempty.
  destruct (obeys_returns _ (move_whisper_outputs base out_dir lg) w
              (move_whisper_outputs_spawnless base out_dir lg))
    as ([] & w1 & Hmove & Hs1).
  destruct (obeys_returns _ (cleanup_wav clean (wav_of video out_dir) lg) w1
              (cleanup_wav_spawnless clean _ lg))
    as ([] & w2 & Hclean & Hs2).
  pose proof (find_detected_language_reads json_load _ lg _ w2
                (companion_json_path video out_dir Hn)) as Hfind.
  eexists _, w2. split; [|split].
  - erewrite bind_ret_eq by exact Hmove.
    erewrite bind_ret_eq by exact Hclean. exact Hfind.
  - by apply (lenient_trans w w1 w2).
  - intros c Hc.
    unfold wav_of in *. rewrite resolve_joinname in * by done.
    destruct (move_whisper_outputs_keeps base out_dir (stem video) c lg)
      as [Hk _].
    specialize (Hk w). rewrite Hmove in Hk. simpl in Hk.
    destruct Hk as [Hcwd Hk].
    specialize (Hk Hc).
    destruct (cleanup_wav_effect clean (joinname out_dir (stem video +:+ ".wav"))
                lg c w1) as (w2' & Hclean' & _ & Heff).
    { rewrite resolve_joinname by done. by rewrite Hcwd. }
    rewrite Hclean in Hclean'. injection Hclean' as <-.
    rewrite resolve_joinname in Heff by done. by rewrite Hcwd in Heff.
Qed.

(** The full run, stage by stage.  A failing extraction ends it with an
    exception after the one ffmpeg call; otherwise whisper is called on
    the tree ffmpeg left, and the run goes on to relocation, cleanup and
    detection whatever whisper's status. *)
Lemma full_run_spec video base srt model language translate clean lg
    out_dir w :
  name video ≠ "" →
  let wav := wav_of video out_dir in
  let ffmpeg := ffmpeg_cmd video wav in
  let whisper := whisper_cmd wav model language translate in
  let p1 := exec ffmpeg (w_cwd w) (w_tree w) in
  let p2 := exec whisper (w_cwd w) (tree_after p1 (w_tree w)) in
  match status_of p1 with
  | Some 0%Z =>
      ∃ d w2 w',
        full_run exec json_load video base wav srt model language translate
          clean lg out_dir w
        = (Ret (mkRunResult video wav srt d 0
                  (bool_decide (status_of p2 = Some 0%Z))), w') ∧
        ran w w2 (tree_after p2 (tree_after p1 (w_tree w)))
          [(ffmpeg, Some 0%Z); (whisper, status_of p2)] ∧
        after_transcription json_load video base wav clean lg out_dir w2
        = (Ret d, w') ∧
        spawnless w2 w' ∧
        ∀ c, w_tree w2 !! resolve (w_cwd w) wav = Some (File c) →
             w_tree w' !! resolve (w_cwd w) wav
             = if clean then None else Some (File c)
  | st =>
      ∃ e w',
        full_run exec json_load video base wav srt model language translate
          clean lg out_dir w = (Raise e, w') ∧
        is_Exception e = true ∧
        ran w w' (tree_after p1 (w_tree w)) [(ffmpeg, st)]
  end.
Proof.
  intros Hn. cbv zeta. unfold full_run.
  destruct (extract_audio_spec exec video (wav_of video out_dir) lg w)
    as (r & w1 & Hex & Hran1 & Hres). cbv zeta in *.
  set (p1 := exec (ffmpeg_cmd video (wav_of video out_dir)) (w_cwd w) (w_tree w)) in *.
  destruct (status_of p1) as [[| |]|] eqn:Hst;
    [|destruct Hres as (e & -> & He); exists e, w1;
      (split; [by erewrite bind_raise_eq by exact Hex|]);
      (split; [done|exact Hran1])..].
  subst r.
  erewrite bind_ret_eq by exact Hex.
  do 3 (erewrite bind_ret_eq by reflexivity).
  set (w1' := with_trace _ w1).
  assert (calm w1 w1') as Hcalm by (repeat split; by eexists [_]).
  destruct (transcribe_spec exec (wav_of video out_dir) model language
              translate lg w1') as (w2 & Htr & Hran2). cbv zeta in *.
  destruct Hran1 as (Ht1 & Hc1 & Hp1 & Hev1).
  change (w_cwd w1') with (w_cwd w1) in *.
  change (w_tree w1') with (w_tree w1) in *.
  rewrite Hc1, Ht1 in *.
  set (p2 := exec (whisper_cmd _ _ _ _) _ _) in *.
  erewrite bind_ret_eq by exact Htr.
  destruct (after_transcription_spec video base clean lg out_dir w2 Hn)
    as (d & w' & Hafter & Hsp & Hwav).
  exists d, w2, w'. split; [|split; [|split; [exact Hafter|split; [exact Hsp|]]]].
  - unfold after_transcription in Hafter.
    destruct (move_whisper_outputs base out_dir lg w2) as [[[]|e] w3] eqn:Hm;
      [|by rewrite (bind_raise_eq _ _ _ _ _ Hm) in Hafter].
    rewrite (bind_ret_eq _ _ _ _ _ Hm) in Hafter.
    rewrite (bind_ret_eq _ _ _ _ _ Hm).
    destruct (cleanup_wav clean (wav_of video out_dir) lg w3) as [[[]|e] w4] eqn:Hcl;
      [|by rewrite (bind_raise_eq _ _ _ _ _ Hcl) in Hafter].
    rewrite (bind_ret_eq _ _ _ _ _ Hcl) in Hafter.
    rewrite (bind_ret_eq _ _ _ _ _ Hcl).
    by erewrite bind_ret_eq by exact Hafter.
  - change [(?a, Some 0%Z); ?b] with ([(a, Some 0%Z)] ++ [b]).
    apply (ran_trans w w1 w2 (tree_after p1 (w_tree w))); [by repeat split|].
    eapply ran_calm_l; [exact Hcalm|exact Hran2].
  - intros c Hc. destruct Hran2 as (_ & C2 & _).
    change (w_cwd w1') with (w_cwd w1) in C2. rewrite Hc1 in C2.
    rewrite <- C2 in *. by apply Hwav.
Qed.

End FullRun.

(** ** The full run: claims C7 and C5 *)

Section ProcessVideo.

Variable exec : list string → list string → tree → proc.
Variable json_load : string → option pyval.

Lemma process_video_full video model language translate clean overwrite
    skip lg out_dir w :
  name video ≠ "" →
  bypasses (present w (srt_of video out_dir)) skip overwrite = false →
  ∃ base,
    with_suffix video "" = Some base ∧
    process_video exec json_load video model language translate clean
      overwrite skip lg out_dir w
    = full_run exec json_load video base (wav_of video out_dir)
        (srt_of video out_dir) model language translate clean lg out_dir w.
Proof.
  intros Hn Hby. unfold process_video.
  destruct (with_suffix_is_Some video "" Hn) as [base ->].
  exists base. split; [done|]. cbv zeta.
  erewrite bind_ret_eq by reflexivity.
  fold (srt_of video out_dir). fold (wav_of video out_dir).
  fold (present w (srt_of video out_dir)).
  unfold bypasses in Hby.
  destruct (present w (srt_of video out_dir)); [|done].
  destruct skip; [done|]. by destruct overwrite.
Qed.

(** The commands a full run spawns: ffmpeg with the fixed profile first,
    then whisper if and only if ffmpeg exited with status 0. *)
Lemma process_video_execs video model language translate clean overwrite
    skip lg out_dir w :
  name video ≠ "" →
  bypasses (present w (srt_of video out_dir)) skip overwrite = false →
  let wav := wav_of video out_dir in
  let p1 := exec (ffmpeg_cmd video wav) (w_cwd w) (w_tree w) in
  let p2 := exec (whisper_cmd wav model language translate) (w_cwd w)
              (tree_after p1 (w_tree w)) in
  ∃ r w',
    process_video exec json_load video model language translate clean
      overwrite skip lg out_dir w = (r, w') ∧
    execs (w_trace w')
    = execs (w_trace w)
      ++ (ffmpeg_cmd video wav, status_of p1)
         :: match status_of p1 with
            | Some 0%Z =>
                [(whisper_cmd wav model language translate, status_of p2)]
            | _ => []
            end.
Proof.
  intros Hn Hby. cbv zeta.
  destruct (process_video_full video model language translate clean
              overwrite skip lg out_dir w Hn Hby) as (base & _ & ->).
  pose proof (full_run_spec exec json_load video base (srt_of video out_dir)
                model language translate clean lg out_dir w Hn) as H.
  cbv zeta in H.
  destruct (status_of (exec (ffmpeg_cmd video (wav_of video out_dir))
                         (w_cwd w) (w_tree w))) as [[| |]|].
  - destruct H as (d & w2 & w' & Hrun & Hran & _ & Hsp & _).
    eexists _, _. split; [exact Hrun|].
    rewrite (extends_quietly_execs w2 w') by apply Hsp.
    by apply ran_execs in Hran.
  - destruct H as (e & w' & Hrun & _ & Hran).
    eexists _, _. split; [exact Hrun|]. by apply ran_execs in Hran.
  - destruct H as (e & w' & Hrun & _ & Hran).
    eexists _, _. split; [exact Hrun|]. by apply ran_execs in Hran.
  - destruct H as (e & w' & Hrun & _ & Hran).
    eexists _, _. split; [exact Hrun|]. by apply ran_execs in Hran.
Qed.

End ProcessVideo.

(** C7. A run of [process_video] on a video that has a name and that does
    not take an early return spawns the transcoder first, with exactly the
    fixed profile: banner hidden, errors only, the video as input, 16000 Hz,
    one channel, signed 16-bit little-endian PCM, the audio path as output.
    The transcription tool is spawned after it, and only once the extraction
    has completed with status 0. *)
Theorem extraction_profile_precedes_transcription exec json_load video model
    language translate clean overwrite skip lg out_dir w :
  name video ≠ "" →
  bypasses (present w (srt_of video out_dir)) skip overwrite = false →
  ∃ r w' st rest,
    process_video exec json_load video model language translate clean
      overwrite skip lg out_dir w = (r, w') ∧
    execs (w_trace w')
    = execs (w_trace w)
      ++ (["ffmpeg"; "-hide_banner"; "-loglevel"; "error";
           "-i"; to_str video;
           "-ar"; "16000"; "-ac"; "1"; "-c:a"; "pcm_s16le";
           to_str (wav_of video out_dir)], st) :: rest ∧
    (rest = [] ∨
     st = Some 0%Z ∧
     ∃ st', rest = [(whisper_cmd (wav_of video out_dir) model language
                       translate, st')]).
Proof.
  intros Hn Hby.
  destruct (process_video_execs exec json_load video model language translate
              clean overwrite skip lg out_dir w Hn Hby) as (r & w' & Hrun & Hx).
  cbv zeta in Hx. eexists r, w', _, _. split; [exact Hrun|].
  split; [exact Hx|].
  destruct (status_of _) as [[| |]|]; eauto.
Qed.

(** C5, as amended.  With the subtitle file already there, overwrite enabled
    and skip-if-exists disabled, [process_video] spawns ffmpeg again
    whatever the existing output, and then whisper provided the extraction
    exited with status 0 (a failed extraction ends the run before whisper).
    With skip-if-exists enabled nothing is spawned, whatever the overwrite
    policy: skip-if-exists takes precedence. *)
Theorem overwrite_reruns_tools exec json_load video model language translate
    clean lg out_dir w :
  name video ≠ "" →
  present w (srt_of video out_dir) = true →
  (∃ r w' st,
     process_video exec json_load video model language translate clean
       true false lg out_dir w = (r, w') ∧
     execs (w_trace w')
     = execs (w_trace w)
       ++ (ffmpeg_cmd video (wav_of video out_dir), st)
          :: match st with
             | Some 0%Z =>
                 [(whisper_cmd (wav_of video out_dir) model language translate,
                   status_of (exec (whisper_cmd (wav_of video out_dir) model
                                      language translate) (w_cwd w)
                                (tree_after
                                   (exec (ffmpeg_cmd video (wav_of video out_dir))
                                      (w_cwd w) (w_tree w)) (w_tree w))))]
             | _ => []
             end) ∧
  (∀ overwrite, ∃ r w',
     process_video exec json_load video model language translate clean
       overwrite true lg out_dir w = (Ret r, w') ∧
     execs (w_trace w') = execs (w_trace w)).
Proof.
  intros Hn Hsrt. split.
  - destruct (process_video_execs exec json_load video model language
                translate clean true false lg out_dir w Hn)
      as (r & w' & Hrun & Hx).
    { unfold bypasses. by rewrite Hsrt. }
    cbv zeta in Hx. by eexists r, w', _.
  - intros overwrite.
    destruct (process_video_bypass exec json_load video model language
                translate clean overwrite true lg out_dir w Hn Hsrt eq_refl)
      as (msg & jp & _ & Hrun).
    eexists _, _. split; [exact Hrun|]. simpl.
    by rewrite execs_app, app_nil_r.
Qed.

(** ** Moving the video: claim C4 *)

Section MoveVideo.

Lemma choose_dest_spec video target_dir w :
  ∃ target,
    choose_dest video target_dir w = (Ret target, w) ∧
    w_tree w !! resolve (w_cwd w) target = None ∧
    if present w (joinname target_dir (name video)) then
      ∃ i, 1 ≤ i ∧
           target = candidate target_dir (stem video) (suffix video) i ∧
           ∀ j, 1 ≤ j < i →
                present w (candidate target_dir (stem video) (suffix video) j)
                = true
    else target = joinname target_dir (name video).
Proof.
  unfold choose_dest, bind, path_exists, present.
  destruct (exists_ (w_tree w) (resolve (w_cwd w) (joinname target_dir (name video))))
    eqn:Hex.
  - eexists. split; [reflexivity|]. split.
    + apply exists_false, first_free_is_free.
    + destruct (first_free_spec (w_tree w) (w_cwd w) target_dir (stem video)
                  (suffix video) (S (size (w_tree w))) 1) as (Hr & Hbelow & _).
      eexists. split; [apply Hr|]. split; [reflexivity|exact Hbelow].
  - eexists. split; [reflexivity|]. split; [by apply exists_false|done].
Qed.

Lemma move_video_into_dir_spec video target_dir lg w :
  ∃ target dest w',
    choose_dest video target_dir w = (Ret target, w) ∧
    move_video_into_dir video target_dir lg w = (Ret dest, w') ∧
    spawnless w w' ∧
    (dest = target ∧
     rename (w_tree w) (resolve (w_cwd w) video) (resolve (w_cwd w) target)
     = Some (w_tree w')
     ∨ dest = video ∧ w_tree w' = w_tree w).
Proof.
  destruct (choose_dest_spec video target_dir w) as (target & Hch & Hfree & _).
  exists target. unfold move_video_into_dir.
  erewrite bind_ret_eq by exact Hch.
  unfold try_except, bind at 1, shutil_move_paths, fs_try.
  rewrite (shutil_move_fresh _ _ _ Hfree).
  destruct (rename _ _ _) as [t'|] eqn:Hr; simpl.
  - eexists _, _. split; [done|]. split; [reflexivity|]. split.
    + repeat split. by eexists [_].
    + by left.
  - eexists _, _. split; [done|]. split; [reflexivity|]. split.
    + repeat split. by eexists [_].
    + by right.
Qed.

Lemma obeys_move_video_into_dir video target_dir lg :
  obeys spawnless (λ _ _, False) (move_video_into_dir video target_dir lg).
Proof.
  split.
  - intros w.
    destruct (move_video_into_dir_spec video target_dir lg w)
      as (? & ? & ? & _ & -> & H & _). done.
  - intros w e.
    destruct (move_video_into_dir_spec video target_dir lg w)
      as (? & ? & ? & _ & -> & _). done.
Qed.

End MoveVideo.

(** C4. [move_video_into_dir] never overwrites: the destination it chooses
    is free in the output directory; when a file named like the video is
    already there, that destination is the first free "stem_i suffix" with
    i >= 1; the function always returns; every entry of the file tree other
    than the video itself (and what is below it) keeps its content, so in
    particular the file already there does; and a video that is a regular
    file arrives at the destination with its content. *)
Theorem move_video_never_overwrites video target_dir lg w :
  ∃ target dest w',
    choose_dest video target_dir w = (Ret target, w) ∧
    w_tree w !! resolve (w_cwd w) target = None ∧
    (present w (joinname target_dir (name video)) = true →
     ∃ i, 1 ≤ i ∧
          target = joinname target_dir
                     (stem video +:+ "_" +:+ pretty i +:+ suffix video) ∧
          ∀ j, 1 ≤ j < i →
               present w (joinname target_dir
                            (stem video +:+ "_" +:+ pretty j +:+ suffix video))
               = true) ∧
    move_video_into_dir video target_dir lg w = (Ret dest, w') ∧
    (dest = target ∨ dest = video ∧ w_tree w' = w_tree w) ∧
    (∀ k n, w_tree w !! k = Some n →
            ¬ resolve (w_cwd w) video `prefix_of` k →
            w_tree w' !! k = Some n) ∧
    (∀ c, dest ≠ video →
          w_tree w !! resolve (w_cwd w) video = Some (File c) →
          w_tree w' !! resolve (w_cwd w) dest = Some (File c)).
Proof.
  destruct (choose_dest_spec video target_dir w) as (target & Hch & Hfree & Hname).
  destruct (move_video_into_dir_spec video target_dir lg w)
    as (target' & dest & w' & Hch' & Hmv & _ & Hout).
  rewrite Hch in Hch'. injection Hch' as <-.
  exists target, dest, w'. split; [done|]. split; [done|]. split.
  { intros Hp. rewrite Hp in Hname. exact Hname. }
  split; [done|]. split; [tauto|]. split.
  - intros k n Hk Hnot. destruct Hout as [[_ Hr]|[_ ->]]; [|done].
    by eapply rename_fresh_keeps.
  - intros c Hne Hv. destruct Hout as [[-> Hr]|[? _]]; [|done].
    by eapply rename_file_arrives.
Qed.

(** ** [main] before the pipeline: claim C2 *)

(** The worlds differ by a few appended records that spawn nothing. *)
Ltac calm_by_trace :=
  repeat split;
  eexists; split;
  [simpl; rewrite <- ?(assoc_L (++)); reflexivity|reflexivity].

Section Configure.

Lemma obeys_path_mkdir E `{!Catching E} p : obeys grows E (path_mkdir p).
Proof.
  split.
  - intros w. unfold path_mkdir, fs_try.
    destruct (mkdir_p _ _) as [t'|] eqn:Hm; simpl.
    + repeat split; try by apply extends_quietly_same.
      * by apply (mkdir_p_grows _ _ _ Hm).
      * by apply (mkdir_p_grows _ _ _ Hm).
    + apply lenient_refl, _.
  - intros w e. unfold path_mkdir, fs_try. destruct (mkdir_p _ _); [done|].
    intros [= <-]. by apply catching.
Qed.

Lemma obeys_exit_1 R `{!Lenient R} {A} : obeys R early_exit (sys_exit 1 : M A).
Proof. apply obeys_raise; [done|]. intros w. by left. Qed.

Lemma obeys_cancel R `{!Lenient R} {A} lg :
  obeys R early_exit (log lg INFO "Cancelled." [] ;; (sys_exit 0 : M A)).
Proof.
  split.
  - intros w. by apply lenient_calm, calm_emit.
  - intros w e [= <-]. right. split; [done|]. simpl. apply last_snoc.
Qed.

Lemma obeys_configure args lg : obeys grows early_exit (configure args lg).
Proof.
  unfold configure. cbv zeta.
  repeat first
    [ apply obeys_cancel; apply _
    | apply obeys_exit_1; apply _
    | apply obeys_path_mkdir; apply _
    | obeys_step ].
Qed.

Lemma check_tools_spec w :
  check_tools w
  = (Ret (bool_decide ("ffmpeg" ∈ w_path w), bool_decide ("whisper" ∈ w_path w)), w).
Proof. reflexivity. Qed.

Lemma require_tools_missing lg w :
  ¬ ("ffmpeg" ∈ w_path w ∧ "whisper" ∈ w_path w) →
  ∃ w', require_tools lg w = (Raise (SystemExit 1), w') ∧ calm w w'.
Proof.
  intros Hmiss. unfold require_tools.
  erewrite bind_ret_eq by apply check_tools_spec.
  do 2 (erewrite bind_ret_eq by reflexivity). simpl.
  assert (bool_decide ("ffmpeg" ∈ w_path w) && bool_decide ("whisper" ∈ w_path w)
          = false) as ->.
  { apply andb_false_iff. rewrite !bool_decide_eq_false.
    destruct (decide ("ffmpeg" ∈ w_path w)); [right|by left].
    intros ?. by apply Hmiss. }
  simpl. eexists. split; [reflexivity|]. calm_by_trace.
Qed.

Lemma require_tools_present lg w :
  "ffmpeg" ∈ w_path w → "whisper" ∈ w_path w →
  ∃ w', require_tools lg w = (Ret tt, w') ∧ calm w w'.
Proof.
  intros Hf Hw. unfold require_tools.
  erewrite bind_ret_eq by apply check_tools_spec.
  do 2 (erewrite bind_ret_eq by reflexivity). simpl.
  rewrite !bool_decide_eq_true_2 by done. simpl.
  eexists. split; [reflexivity|]. calm_by_trace.
Qed.

Lemma obeys_require_tools lg : obeys calm early_exit (require_tools lg).
Proof.
  split.
  - intros w.
    destruct (decide ("ffmpeg" ∈ w_path w ∧ "whisper" ∈ w_path w)) as [[Hf Hw]|Hm].
    + by destruct (require_tools_present lg w Hf Hw) as (w' & -> & Hc).
    + by destruct (require_tools_missing lg w Hm) as (w' & -> & Hc).
  - intros w e.
    destruct (decide ("ffmpeg" ∈ w_path w ∧ "whisper" ∈ w_path w)) as [[Hf Hw]|Hm].
    + by destruct (require_tools_present lg w Hf Hw) as (w' & -> & Hc).
    + destruct (require_tools_missing lg w Hm) as (w' & -> & Hc).
      intros [= <-]. by left.
Qed.

End Configure.

Section Startup.

(** Start-up ends the run at once when the log file cannot be opened;
    otherwise it returns a logger and a start time, and logs the banner. *)
Lemma startup_spec args w :
  startup args w = (Raise (OSError "open"), w) ∧ ¬ log_ready w args
  ∨ log_ready w args ∧
    ∃ lg start w0 evs,
      startup args w = (Ret (lg, start), w0) ∧
      calm w w0 ∧ w_stdin w0 = w_stdin w ∧ w_tty w0 = w_tty w ∧
      w_trace w0 = w_trace w ++ evs ∧ evs ≠ [] ∧
      execs evs = [] ∧ prompts evs = [].
Proof.
  unfold startup, setup_logger, log_ready.
  destruct (a_log args) as [p|].
  - destruct (appendable (w_tree w) (resolve (w_cwd w) p)) eqn:Ha.
    2:{ left. split; [|intros H; specialize (H p eq_refl); congruence].
        unfold bind, open_log. by rewrite Ha. }
    right. split; [by intros ? [= <-]|].
    destruct (w_clock w) as [|t clock] eqn:Hc.
    all: unfold bind, open_log, now, print_banner, log, emit, ret; cbv beta.
    all: rewrite Ha; simpl; rewrite Hc; simpl.
    all: eexists _, _, _, _; split; [reflexivity|].
    all: split; [calm_by_trace|].
    all: split; [reflexivity|]; split; [reflexivity|].
    all: split; [simpl; rewrite <- ?(assoc_L (++)); reflexivity|].
    all: split; [done|].
    all: split; reflexivity.
  - right. split; [done|].
    destruct (w_clock w) as [|t clock] eqn:Hc.
    all: unfold bind, now, print_banner, log, emit, ret; simpl; rewrite Hc; simpl.
    all: eexists _, _, _, _; split; [reflexivity|].
    all: split; [calm_by_trace|].
    all: split; [reflexivity|]; split; [reflexivity|].
    all: split; [simpl; rewrite <- ?(assoc_L (++)); reflexivity|].
    all: split; [done|].
    all: split; reflexivity.
Qed.

Lemma emitted_app w w' evs :
  w_trace w' = w_trace w ++ evs → emitted w w' = evs.
Proof. intros H. unfold emitted. rewrite H. apply drop_app_length. Qed.

Lemma emitted_same w : emitted w w = [].
Proof. apply emitted_app. by rewrite app_nil_r. Qed.

End Startup.

Section OneDirectory.

Lemma steps_calm_then {A B} (c : M A) (k : A → M B) :
  steps calm c → (∀ a, steps tree_step (k a)) → steps tree_step (bind c k).
Proof.
  intros Hc Hk w. rewrite bind_run. specialize (Hc w).
  destruct (c w) as [[a|e] w1]; simpl in *.
  - specialize (Hk a w1). unfold tree_step in *.
    destruct Hc as (<- & _). exact Hk.
  - destruct Hc as (T & _). left. exact T.
Qed.

Lemma steps_then_calm {A B} (c : M A) (k : A → M B) :
  steps tree_step c → (∀ a, steps calm (k a)) → steps tree_step (bind c k).
Proof.
  intros Hc Hk w. rewrite bind_run. specialize (Hc w).
  destruct (c w) as [[a|e] w1]; simpl in *; [|done].
  specialize (Hk a w1). destruct Hk as (T & _).
  unfold tree_step in *. by rewrite T.
Qed.

Lemma steps_path_mkdir p : steps tree_step (path_mkdir p).
Proof.
  intros w. unfold path_mkdir, fs_try, tree_step.
  destruct (mkdir_p _ _) as [t'|] eqn:Hm; simpl; [right; eauto|by left].
Qed.

Lemma obeys_steps {A} R E (c : M A) : obeys R E c → steps R c.
Proof. by intros [? ?]. Qed.

(** Configuration changes the file tree by at most one [mkdir -p]: the
    one of the output directory. *)
Lemma configure_single_mkdir args lg : steps tree_step (configure args lg).
Proof.
  unfold configure. cbv zeta.
  do 7 (apply steps_calm_then;
        [apply (obeys_steps calm early_exit);
         repeat first [apply obeys_exit_1; apply _ | obeys_step]
        |intros ?]).
  apply steps_then_calm; [apply steps_path_mkdir|intros ?].
  apply (obeys_steps calm early_exit).
  repeat first
    [ apply obeys_cancel; apply _
    | apply obeys_exit_1; apply _
    | obeys_step ].
Qed.

End OneDirectory.

Section MainMissingTool.

Variable exec : list string → list string → tree → proc.
Variable json_load : string → option pyval.

(** Without both tools the body of [main] ends before the pipeline, with
    one of the early exits. *)
Lemma main_body_missing_tool args start lg w :
  ¬ ("ffmpeg" ∈ w_path w ∧ "whisper" ∈ w_path w) →
  ∃ e w',
    main_body exec json_load args start lg w = (Raise e, w') ∧
    grows w w' ∧ tree_step w w' ∧ early_exit e w'.
Proof.
  intros Hmiss. unfold main_body.
  destruct (obeys_configure args lg) as [Hs Hr].
  pose proof (configure_single_mkdir args lg w) as Hone.
  specialize (Hs w). specialize (Hr w).
  destruct (configure args lg w) as [[cfg|e] w1] eqn:Hcfg; simpl in *.
  - pose proof Hs as (_ & _ & Hp & _).
    destruct (require_tools_missing lg w1) as (w2 & Hreq & Hcalm).
    { by rewrite Hp. }
    exists (SystemExit 1), w2. split.
    + erewrite bind_ret_eq by exact Hcfg.
      by erewrite bind_raise_eq by exact Hreq.
    + split; [|split; [|by left]].
      * apply (lenient_trans w w1 w2); [done|by apply lenient_calm].
      * destruct Hcalm as (T & _). unfold tree_step in *. by rewrite T.
  - exists e, w1. split; [by erewrite bind_raise_eq by exact Hcfg|].
    split; [done|]. split; [done|by apply Hr].
Qed.

End MainMissingTool.

(** C2, as amended.  When ffmpeg or whisper is not on the search path, a run
    of [main] spawns no command and changes no existing entry of the file
    tree: no file is written, moved or deleted.  All it can do to the tree
    is what one [mkdir -p] does (that of the output directory, which comes
    before the tool check), so whatever is new is a directory.  The exit
    status is 1, unless the user declined the confirmation prompt, in which
    case it is 0. *)
Theorem missing_tool_aborts_before_pipeline exec json_load args w :
  ¬ ("ffmpeg" ∈ w_path w ∧ "whisper" ∈ w_path w) →
  let code := (main exec json_load args w).1 in
  let w' := (main exec json_load args w).2 in
  (code = 1%Z ∨ code = 0%Z ∧ EvLog INFO "Cancelled." [] ∈ emitted w w') ∧
  execs (emitted w w') = [] ∧
  single_mkdir (w_tree w) (w_tree w') ∧
  tree_grows (w_tree w) (w_tree w').
Proof.
  intros Hmiss. cbv zeta. unfold main.
  destruct (startup_spec args w)
    as [[-> _]|(_ & lg & start & w0 & evs0 & -> & Hcalm0 & _ & _ & Htr0 & Hne & _)].
  { simpl. rewrite emitted_same. split; [by left|]. split; [done|].
    split; [by left|apply tree_grows_refl]. }
  destruct (main_body_missing_tool exec json_load args start lg w0)
    as (e & w1 & -> & Hgrows & Hone & Hexit).
  { destruct Hcalm0 as (_ & _ & -> & _). done. }
  assert (single_mkdir (w_tree w) (w_tree w1)) as Hone'.
  { destruct Hcalm0 as (T & _). unfold tree_step in Hone. by rewrite T in Hone. }
  assert (grows w w1) as Hg.
  { apply (lenient_trans w w0 w1); [by apply lenient_calm|done]. }
  destruct Hgrows as (_ & _ & _ & evs1 & Htr1 & Hx1).
  assert (w_trace w1 = w_trace w ++ (evs0 ++ evs1)) as Htr.
  { by rewrite Htr1, Htr0, (assoc_L (++)). }
  assert (execs (evs0 ++ evs1) = []) as Hx.
  { destruct Hg as (_ & _ & _ & evs & Htr' & Hx). rewrite Htr in Htr'.
    by apply app_inv_head in Htr' as ->. }
  destruct Hg as (Hg & _).
  assert (∀ ev, execs [ev] = [] →
            execs (emitted w (with_trace (w_trace w1 ++ [ev]) w1)) = []) as Hlog.
  { intros ev Hev.
    rewrite (emitted_app w _ ((evs0 ++ evs1) ++ [ev])).
    - rewrite execs_app, Hx. exact Hev.
    - simpl. rewrite Htr. by rewrite <- !(assoc_L (++)). }
  destruct e; simpl in *.
  - rewrite (emitted_app _ _ _ Htr). split; [|done].
    destruct Hexit as [->|[-> Hlast]]; [by left|right].
    split; [done|]. rewrite Htr in Hlast.
    rewrite (assoc_L (++)), last_app in Hlast.
    destruct (last evs1) as [ev|] eqn:Hl1.
    + injection Hlast as ->. apply elem_of_app. right.
      apply last_Some in Hl1 as [l' ->]. set_solver.
    + rewrite last_app in Hlast. destruct (last evs0) eqn:Hl0.
      * injection Hlast as ->. apply elem_of_app. left.
        apply last_Some in Hl0 as [l' ->]. set_solver.
      * apply last_None in Hl0. done.
  - done.
  - split; [by left|]. split; [by apply Hlog|done].
  - split; [by left|]. split; [by apply Hlog|done].
  - split; [by left|]. split; [by apply Hlog|done].
  - split; [by left|]. split; [by apply Hlog|done].
  - split; [by left|]. split; [by apply Hlog|done].
Qed.

(** ** [main] through the pipeline: claim C3 *)

Section MainPipeline.

Variable exec : list string → list string → tree → proc.
Variable json_load : string → option pyval.

Lemma grows_ran w w' : grows w w' → ran w w' (w_tree w') [].
Proof. intros (_ & C & P & X). by repeat split. Qed.

(** What a run of [process_video] can spawn: nothing (early return, or a
    video without a name), ffmpeg alone when the extraction fails, or
    ffmpeg and then whisper; only the first and the last return a
    result, and the last one records whisper's outcome. *)
Lemma process_video_outcome video model language translate clean overwrite
    skip lg out_dir w :
  ∃ r w1 xs,
    process_video exec json_load video model language translate clean
      overwrite skip lg out_dir w = (r, w1) ∧
    ran w w1 (w_tree w1) xs ∧
    (xs = [] ∨
     (∃ st e, xs = [(ffmpeg_cmd video (wav_of video out_dir), st)] ∧
              r = Raise e) ∨
     (∃ st2 res,
        xs = [(ffmpeg_cmd video (wav_of video out_dir), Some 0%Z);
              (whisper_cmd (wav_of video out_dir) model language translate, st2)] ∧
        r = Ret res ∧
        whisper_succeeded res = bool_decide (st2 = Some 0%Z))).
Proof.
  destruct (decide (name video = "")) as [Hn|Hn].
  { exists (Raise (ValueError "empty name")), w, []. split.
    - unfold process_video, with_suffix. by rewrite Hn.
    - split; [|by left]. apply calm_ran, calm_refl. }
  destruct (bypasses (present w (srt_of video out_dir)) skip overwrite) eqn:Hby.
  { unfold bypasses in Hby. apply andb_true_iff in Hby as [Hsrt Hfl].
    destruct (process_video_bypass exec json_load video model language
                translate clean overwrite skip lg out_dir w Hn Hsrt Hfl)
      as (msg & jp & _ & Hrun).
    eexists _, _, []. split; [exact Hrun|]. split; [|by left].
    repeat split. by eexists [_]. }
  destruct (process_video_full exec json_load video model language translate
              clean overwrite skip lg out_dir w Hn Hby) as (base & _ & ->).
  pose proof (full_run_spec exec json_load video base (srt_of video out_dir)
                model language translate clean lg out_dir w Hn) as H.
  cbv zeta in H.
  destruct (status_of (exec (ffmpeg_cmd video (wav_of video out_dir))
                         (w_cwd w) (w_tree w))) as [[| |]|].
  - destruct H as (d & w2 & w' & Hrun & Hran & _ & Hsp & _).
    eexists _, w', _. split; [exact Hrun|]. split.
    + eapply ran_spawnless_r; [exact Hran|exact Hsp].
    + right. right. eexists _, _. split; [reflexivity|]. by split.
  - destruct H as (e & w' & Hrun & _ & Hran).
    eexists _, w', _. split; [exact Hrun|]. split.
    + destruct Hran as (<- & ?). by split.
    + right. left. by eexists _, _.
  - destruct H as (e & w' & Hrun & _ & Hran).
    eexists _, w', _. split; [exact Hrun|]. split.
    + destruct Hran as (<- & ?). by split.
    + right. left. by eexists _, _.
  - destruct H as (e & w' & Hrun & _ & Hran).
    eexists _, w', _. split; [exact Hrun|]. split.
    + destruct Hran as (<- & ?). by split.
    + right. left. by eexists _, _.
Qed.

(** Once [process_video] has returned, the rest of [main] returns too: the
    video is moved, the summary is logged, nothing is spawned. *)
Lemma after_process_video cfg start lg (res : RunResult) w :
  ∃ w' evs,
    (new_video_path <- move_video_into_dir (c_video cfg) (c_out_dir cfg) lg ;;
     let result := if bool_decide (new_video_path ≠ c_video cfg)
                   then set_video new_video_path res else res in
     end_time <- now ;;
     let total_duration := (end_time - start)%Z in
     let result := set_duration total_duration result in
     report result total_duration lg) w = (Ret tt, w') ∧
    w_cwd w' = w_cwd w ∧ w_path w' = w_path w ∧
    w_trace w' = w_trace w ++ evs ∧ execs evs = [] ∧
    EvLog INFO "Whisper succeeded: %s" [ABool (whisper_succeeded res)] ∈ evs.
Proof.
  destruct (obeys_returns _ _ w
              (obeys_move_video_into_dir (c_video cfg) (c_out_dir cfg) lg))
    as (dest & w1 & Hmv & C1 & P1 & evs1 & T1 & X1).
  destruct (obeys_returns calm now w1 (obeys_now _ _))
    as (t & w2 & Hnow & _ & C2 & P2 & evs2 & T2 & X2).
  erewrite bind_ret_eq by exact Hmv. cbv zeta.
  erewrite bind_ret_eq by exact Hnow.
  set (result := set_duration _ _).
  destruct (report_trace result (t - start) lg w2) as (Hret & _ & Htr).
  destruct (report result (t - start) lg w2) as [r w3] eqn:Hrep.
  simpl in Hret, Htr. subst r.
  pose proof (obeys_report spawnless (λ _ _, False) result (t - start) lg) as [Hs _].
  specialize (Hs w2). rewrite Hrep in Hs. simpl in Hs.
  destruct Hs as (C3 & P3 & _).
  eexists w3, _. split; [reflexivity|].
  split; [congruence|]. split; [congruence|]. split.
  { rewrite Htr, T2, T1. rewrite <- !(assoc_L (++)). reflexivity. }
  split.
  - by rewrite !execs_app, X1, X2.
  - rewrite !elem_of_app. right. right.
    unfold result. case_bool_decide; simpl;
      do 3 apply list_elem_of_further; apply list_elem_of_here.
Qed.

End MainPipeline.

Section MainOutcome.

Variable exec : list string → list string → tree → proc.
Variable json_load : string → option pyval.

Lemma calls_ffmpeg_cmd video_path wav_path :
  calls "ffmpeg" (ffmpeg_cmd video_path wav_path).
Proof. reflexivity. Qed.

(** The three shapes a run of the body of [main] can have. *)
Lemma main_body_outcome args start lg w :
  ∃ r w1 evs,
    main_body exec json_load args start lg w = (r, w1) ∧
    w_trace w1 = w_trace w ++ evs ∧
    (execs evs = [] ∨
     (∃ c1 st, calls "ffmpeg" c1 ∧ execs evs = [(c1, st)] ∧ r ≠ Ret tt) ∨
     (∃ c1 c2 st2,
        calls "ffmpeg" c1 ∧
        execs evs = [(c1, Some 0%Z); (c2, st2)] ∧
        r = Ret tt ∧
        EvLog INFO "Whisper succeeded: %s" [ABool (bool_decide (st2 = Some 0%Z))]
        ∈ evs)).
Proof.
  unfold main_body.
  destruct (obeys_configure args lg) as [Hs _]. specialize (Hs w).
  destruct (configure args lg w) as [[cfg|e] w1] eqn:Hcfg; simpl in Hs;
    destruct Hs as (_ & C1 & P1 & evs1 & T1 & X1).
  2:{ exists (Raise e), w1, evs1.
      split; [by erewrite bind_raise_eq by exact Hcfg|]. by split; [|left]. }
  erewrite bind_ret_eq by exact Hcfg.
  destruct (obeys_require_tools lg) as [Hs _]. specialize (Hs w1).
  destruct (require_tools lg w1) as [[[]|e] w2] eqn:Hreq; simpl in Hs;
    destruct Hs as (_ & C2 & P2 & evs2 & T2 & X2).
  2:{ exists (Raise e), w2, (evs1 ++ evs2).
      split; [by erewrite bind_raise_eq by exact Hreq|]. split.
      - by rewrite T2, T1, (assoc_L (++)).
      - left. by rewrite execs_app, X1, X2. }
  erewrite bind_ret_eq by exact Hreq. unfold run_and_report.
  destruct (process_video_outcome exec json_load (c_video cfg) (c_model cfg)
              (c_language cfg) (c_translate_to_en cfg) (c_clean_wav cfg)
              (c_overwrite cfg) (c_skip_if_exists cfg) lg (c_out_dir cfg) w2)
    as (r & w3 & xs & Hpv & (_ & _ & _ & evs3 & T3 & X3) & Hshape).
  assert (w_trace w3 = w_trace w ++ (evs1 ++ evs2 ++ evs3)) as T.
  { rewrite T3, T2, T1. by rewrite <- !(assoc_L (++)). }
  assert (execs (evs1 ++ evs2 ++ evs3) = xs) as X.
  { by rewrite !execs_app, X1, X2, X3. }
  destruct r as [res|e].
  - erewrite bind_ret_eq by exact Hpv.
    destruct (after_process_video cfg start lg res w3)
      as (w' & evs4 & Hrest & _ & _ & T4 & X4 & Hlog).
    exists (Ret tt), w', ((evs1 ++ evs2 ++ evs3) ++ evs4).
    split; [exact Hrest|]. split.
    { rewrite T4, T. by rewrite <- !(assoc_L (++)). }
    rewrite execs_app, X, X4, app_nil_r.
    destruct Hshape as [->|[(st & e & _ & [=])|(st2 & res' & -> & [= <-] & Hws)]].
    + by left.
    + right. right. eexists _, _, st2. split; [apply calls_ffmpeg_cmd|].
      split; [reflexivity|]. split; [done|].
      apply elem_of_app. right. by rewrite <- Hws.
  - exists (Raise e), w3, (evs1 ++ evs2 ++ evs3).
    split; [by erewrite bind_raise_eq by exact Hpv|]. split; [exact T|].
    rewrite X.
    destruct Hshape as [->|[(st & e' & -> & _)|(st2 & res' & _ & [=] & _)]].
    + by left.
    + right. left. eexists _, st. split; [apply calls_ffmpeg_cmd|]. by split.
Qed.

(** The same three shapes for [main]: it spawns nothing, or ffmpeg alone,
    or ffmpeg and one more command, and then it exits with status 0 after
    the summary. *)
Lemma main_outcome args w :
  let code := (main exec json_load args w).1 in
  let w' := (main exec json_load args w).2 in
  execs (emitted w w') = [] ∨
  (∃ c1 st, calls "ffmpeg" c1 ∧ execs (emitted w w') = [(c1, st)]) ∨
  (∃ c1 c2 st2,
     calls "ffmpeg" c1 ∧
     execs (emitted w w') = [(c1, Some 0%Z); (c2, st2)] ∧
     code = 0%Z ∧
     EvLog INFO "Whisper succeeded: %s" [ABool (bool_decide (st2 = Some 0%Z))]
     ∈ emitted w w').
Proof.
  cbv zeta. unfold main.
  destruct (startup_spec args w)
    as [[-> _]|(_ & lg & start & w0 & evs0 & -> & _ & _ & _ & T0 & _ & X0 & _)].
  { simpl. rewrite emitted_same. by left. }
  destruct (main_body_outcome args start lg w0)
    as (r & w1 & evs & -> & T1 & Hshape).
  assert (w_trace w1 = w_trace w ++ (evs0 ++ evs)) as T.
  { by rewrite T1, T0, (assoc_L (++)). }
  assert (execs (evs0 ++ evs) = execs evs) as X.
  { by rewrite execs_app, X0. }
  assert (∀ ev, execs [ev] = [] →
     execs (emitted w (with_trace (w_trace w1 ++ [ev]) w1)) = execs evs) as Hlog.
  { intros ev Hev. rewrite (emitted_app w _ ((evs0 ++ evs) ++ [ev])).
    - rewrite execs_app, X, Hev. apply app_nil_r.
    - simpl. rewrite T. by rewrite <- !(assoc_L (++)). }
  destruct r as [[]|e].
  - simpl. rewrite (emitted_app _ _ _ T), X.
    destruct Hshape as [->|[(c1 & st & Hc & -> & _)|(c1 & c2 & st2 & Hc & -> & _ & Hin)]].
    + by left.
    + right. left. by eexists _, _.
    + right. right. eexists _, _, _. split; [exact Hc|]. split; [done|].
      split; [done|]. apply elem_of_app. by right.
  - assert (execs evs = [] ∨ ∃ c1 st, calls "ffmpeg" c1 ∧ execs evs = [(c1, st)])
      as Hshape'.
    { destruct Hshape as [?|[(c1 & st & Hc & ? & _)|(? & ? & ? & _ & _ & [=] & _)]];
        [by left|right; eauto]. }
    assert (∀ w2, execs (emitted w w2) = execs evs →
              execs (emitted w w2) = [] ∨
              (∃ c1 st, calls "ffmpeg" c1 ∧ execs (emitted w w2) = [(c1, st)]) ∨
              (∃ c1 c2 st2, calls "ffmpeg" c1 ∧
                 execs (emitted w w2) = [(c1, Some 0%Z); (c2, st2)] ∧
                 (match e with SystemExit c => c | _ => 1%Z end) = 0%Z ∧
                 EvLog INFO "Whisper succeeded: %s"
                   [ABool (bool_decide (st2 = Some 0%Z))] ∈ emitted w w2)) as Hfin.
    { intros w2 ->. destruct Hshape' as [->|(c1 & st & Hc & ->)];
        [by left|right; left; eauto]. }
    destruct e; simpl;
      try (apply Hfin; by apply Hlog).
    apply Hfin. by rewrite (emitted_app _ _ _ T).
Qed.

End MainOutcome.

(** C8, evaluated where the code departs from it.  Standard input is not a
    terminal and neither [--model] nor [--language] is given: the model and
    the language are still asked for, and the answers ("2", "de") win over
    the defaults; only the output folder, the clean flag and the translate
    flag fall back without a prompt. *)
Theorem noninteractive_run_still_prompts :
  let w := Scenario.world_of Scenario.tree_fresh ["2"; "de"; ""] false
             Scenario.both_tools in
  w_tty w = false ∧
  ∃ cfg w',
    configure Scenario.args_bare Scenario.logger0 w = (Ret cfg, w') ∧
    c_model cfg = "base" ∧
    c_language cfg = Some "de" ∧
    c_clean_wav cfg = true ∧
    c_translate_to_en cfg = false ∧
    c_out_dir cfg = Scenario.out ∧
    prompts (w_trace w')
    = ["Choose Whisper model size: 1) tiny, 2) base, 3) small, 4) medium, 5) large [default small]: ";
       "Source audio language (e.g., en, fr, es) [auto-detect]: ";
       "Start processing? [Y/n]: "].
Proof.
  cbv zeta. split; [reflexivity|]. eexists _, _.
  split; [vm_compute; reflexivity|]. by vm_compute.
Qed.

(** ** The claims on concrete runs *)

Section Runs.

Import Scenario.

(** A second run on a finished output directory: nothing is spawned and
    the language comes from "demo.json". *)
Lemma skip_existing_reuses_language_witness :
  let w := world_of tree_done [] false both_tools in
  name demo ≠ "" ∧
  present w (srt_of demo out) = true ∧
  ∃ r w' json_path,
    process_video (toy_exec 0 0) toy_json demo "small" None false true true
      true logger0 out w = (Ret r, w') ∧
    execs (w_trace w') = execs (w_trace w) ∧
    w_tree w' = w_tree w ∧
    with_suffix (joinname out (stem demo)) ".json" = Some json_path ∧
    detected_language r
    = recorded_language toy_json (w_tree w) (resolve (w_cwd w) json_path).
Proof.
  cbv zeta. split; [done|]. split; [reflexivity|].
  apply skip_existing_reuses_language; [done|reflexivity].
Defined.

Lemma bypass_reports_success_witness :
  let w := world_of tree_done [] false both_tools in
  name demo ≠ "" ∧
  present w (srt_of demo out) = true ∧
  ∃ r w',
    process_video (toy_exec 0 0) toy_json demo "small" None false true false
      false logger0 out w = (Ret r, w') ∧
    whisper_succeeded r = true ∧
    execs (w_trace w') = execs (w_trace w).
Proof.
  cbv zeta. split; [done|]. split; [reflexivity|].
  apply bypass_reports_success; [done|reflexivity|by right].
Defined.

(** A companion file that is JSON but records no language. *)
Lemma unusable_json_is_unknown_witness :
  let w := world_of (<[ ["home"; "demo"; "demo.json"] := File "{" ]> tree_done)
             [] false both_tools in
  let json_path := mkPath true ["home"; "demo"; "demo.json"] in
  with_suffix (joinname out "demo") ".json" = Some json_path ∧
  json_unusable toy_json (w_tree w) (resolve (w_cwd w) json_path) ∧
  find_detected_language toy_json (joinname out "demo") logger0 w
  = (Ret None, w) ∧
  ∀ r total lg' w0,
    detected_language r = None →
    EvLog INFO "Detected language: %s" [AStr "Unknown"]
    ∈ w_trace (report r total lg' w0).2.
Proof.
  cbv zeta. split; [reflexivity|]. split; [by vm_compute|].
  apply (unusable_json_is_unknown toy_json (joinname out "demo") logger0
           (mkPath true ["home"; "demo"; "demo.json"]));
    [reflexivity|by vm_compute].
Defined.

Lemma extraction_profile_precedes_transcription_witness :
  let w := world_of tree_fresh [] false both_tools in
  name demo ≠ "" ∧
  bypasses (present w (srt_of demo out)) true true = false ∧
  ∃ r w' st rest,
    process_video (toy_exec 0 0) toy_json demo "small" None false true true
      true logger0 out w = (r, w') ∧
    execs (w_trace w')
    = execs (w_trace w)
      ++ (["ffmpeg"; "-hide_banner"; "-loglevel"; "error";
           "-i"; to_str demo;
           "-ar"; "16000"; "-ac"; "1"; "-c:a"; "pcm_s16le";
           to_str (wav_of demo out)], st) :: rest ∧
    (rest = [] ∨
     st = Some 0%Z ∧
     ∃ st', rest = [(whisper_cmd (wav_of demo out) "small" None false, st')]).
Proof.
  cbv zeta. split; [done|]. split; [reflexivity|].
  apply extraction_profile_precedes_transcription; [done|reflexivity].
Defined.

Lemma overwrite_reruns_tools_witness :
  let w := world_of tree_done [] false both_tools in
  name demo ≠ "" ∧
  present w (srt_of demo out) = true ∧
  (∃ r w' st,
     process_video (toy_exec 0 0) toy_json demo "small" None false true
       true false logger0 out w = (r, w') ∧
     execs (w_trace w')
     = execs (w_trace w)
       ++ (ffmpeg_cmd demo (wav_of demo out), st)
          :: match st with
             | Some 0%Z =>
                 [(whisper_cmd (wav_of demo out) "small" None false,
                   status_of (toy_exec 0 0
                                (whisper_cmd (wav_of demo out) "small" None false)
                                (w_cwd w)
                                (tree_after
                                   (toy_exec 0 0 (ffmpeg_cmd demo (wav_of demo out))
                                      (w_cwd w) (w_tree w)) (w_tree w))))]
             | _ => []
             end) ∧
  (∀ overwrite, ∃ r w',
     process_video (toy_exec 0 0) toy_json demo "small" None false true
       overwrite true logger0 out w = (Ret r, w') ∧
     execs (w_trace w') = execs (w_trace w)).
Proof.
  cbv zeta. split; [done|]. split; [reflexivity|].
  apply overwrite_reruns_tools; [done|reflexivity].
Defined.

(** C5 as stated fails when the extraction fails: the subtitle file is
    there, overwrite is enabled, skip-if-exists is disabled, ffmpeg exits
    with status 1, and whisper is never spawned. *)
Lemma overwrite_reruns_tools_counterexample :
  let w := world_of tree_done [] false both_tools in
  let run := process_video (toy_exec 1 0) toy_json demo "small" None false
               true true false logger0 out w in
  present w (srt_of demo out) = true ∧
  execs (w_trace run.2) = [(ffmpeg_cmd demo (wav_of demo out), Some 1%Z)] ∧
  ¬ ∃ cmd st, calls "whisper" cmd ∧ (cmd, st) ∈ execs (w_trace run.2).
Proof.
  cbv zeta. split; [reflexivity|].
  assert (execs (w_trace (process_video (toy_exec 1 0) toy_json demo "small"
                            None false true true false logger0 out
                            (world_of tree_done [] false both_tools)).2)
          = [(ffmpeg_cmd demo (wav_of demo out), Some 1%Z)]) as ->
    by (vm_compute; reflexivity).
  split; [done|]. intros (cmd & st & Hc & Hin).
  apply list_elem_of_singleton in Hin. injection Hin as -> _. discriminate Hc.
Qed.

(** "demo.mp4" and "demo_1.mp4" are taken: the video goes to
    "demo_2.mp4". *)
Lemma move_video_never_overwrites_witness :
  let w := world_of tree_clash [] false both_tools in
  present w (joinname out (name demo)) = true ∧
  ∃ target dest w',
    choose_dest demo out w = (Ret target, w) ∧
    w_tree w !! resolve (w_cwd w) target = None ∧
    (present w (joinname out (name demo)) = true →
     ∃ i, 1 ≤ i ∧
          target = joinname out (stem demo +:+ "_" +:+ pretty i +:+ suffix demo) ∧
          ∀ j, 1 ≤ j < i →
               present w (joinname out
                            (stem demo +:+ "_" +:+ pretty j +:+ suffix demo))
               = true) ∧
    move_video_into_dir demo out logger0 w = (Ret dest, w') ∧
    (dest = target ∨ dest = demo ∧ w_tree w' = w_tree w) ∧
    (∀ k n, w_tree w !! k = Some n →
            ¬ resolve (w_cwd w) demo `prefix_of` k →
            w_tree w' !! k = Some n) ∧
    (∀ c, dest ≠ demo →
          w_tree w !! resolve (w_cwd w) demo = Some (File c) →
          w_tree w' !! resolve (w_cwd w) dest = Some (File c)).
Proof.
  cbv zeta. split; [reflexivity|]. apply move_video_never_overwrites.
Defined.

Example move_video_clash_run :
  let w := world_of tree_clash [] false both_tools in
  let run := move_video_into_dir demo out logger0 w in
  run.1 = Ret (mkPath true ["home"; "demo"; "demo_2.mp4"]) ∧
  w_tree run.2 !! ["home"; "demo"; "demo_2.mp4"] = Some (File "video") ∧
  w_tree run.2 !! ["home"; "demo"; "demo.mp4"] = Some (File "other") ∧
  w_tree run.2 !! ["home"; "demo"; "demo_1.mp4"] = Some (File "older") ∧
  w_tree run.2 !! ["home"; "demo.mp4"] = None.
Proof. cbv zeta. by vm_compute. Qed.

Lemma missing_tool_aborts_before_pipeline_witness :
  let w := world_of tree_fresh [""] false ["ffmpeg"] in
  let code := (main (toy_exec 0 0) toy_json args_flags w).1 in
  let w' := (main (toy_exec 0 0) toy_json args_flags w).2 in
  ¬ ("ffmpeg" ∈ w_path w ∧ "whisper" ∈ w_path w) ∧
  (code = 1%Z ∨ code = 0%Z ∧ EvLog INFO "Cancelled." [] ∈ emitted w w') ∧
  execs (emitted w w') = [] ∧
  single_mkdir (w_tree w) (w_tree w') ∧
  tree_grows (w_tree w) (w_tree w').
Proof.
  cbv zeta.
  assert (¬ ("ffmpeg" ∈ w_path (world_of tree_fresh [""] false ["ffmpeg"]) ∧
             "whisper" ∈ w_path (world_of tree_fresh [""] false ["ffmpeg"])))
    as Hmiss.
  { intros [_ H]. apply list_elem_of_singleton in H. discriminate H. }
  split; [exact Hmiss|].
  exact (missing_tool_aborts_before_pipeline (toy_exec 0 0) toy_json
           args_flags _ Hmiss).
Defined.

(** C2 as stated fails: whisper is missing, the run exits with status 1,
    and by then the output directory has been created. *)
Lemma missing_tool_aborts_before_pipeline_counterexample :
  let w := world_of tree_fresh [""] false ["ffmpeg"] in
  let run := main (toy_exec 0 0) toy_json args_flags w in
  ¬ ("ffmpeg" ∈ w_path w ∧ "whisper" ∈ w_path w) ∧
  run.1 = 1%Z ∧
  w_tree w !! ["home"; "demo"] = None ∧
  w_tree run.2 !! ["home"; "demo"] = Some Dir ∧
  w_tree run.2 ≠ w_tree w.
Proof.
  cbv zeta. split.
  { intros [_ H]. apply list_elem_of_singleton in H. discriminate H. }
  split; [by vm_compute|]. split; [by vm_compute|].
  assert (w_tree (main (toy_exec 0 0) toy_json args_flags
                    (world_of tree_fresh [""] false ["ffmpeg"])).2
          !! ["home"; "demo"] = Some Dir) as H by by vm_compute.
  split; [exact H|]. intros Heq. rewrite Heq in H. by vm_compute in H.
Qed.

(** Without a tool, declining the confirmation gives status 0. *)
Example missing_tool_cancelled_run :
  let w := world_of tree_fresh ["n"] false ["ffmpeg"] in
  (main (toy_exec 0 0) toy_json args_flags w).1 = 0%Z.
Proof. by vm_compute. Qed.

End Runs.

(** ** Sanity checks of the library model *)

Section Checks.

Import Scenario.

Example stem_demo : stem (mkPath false ["videos"; "demo.mp4"]) = "demo".
Proof. reflexivity. Qed.

Example suffix_demo : suffix (mkPath false ["videos"; "demo.mp4"]) = ".mp4".
Proof. reflexivity. Qed.

Example stem_hidden : stem (mkPath false [".bashrc"]) = ".bashrc".
Proof. reflexivity. Qed.

Example stem_trailing_dot : stem (mkPath false ["notes."]) = "notes.".
Proof. reflexivity. Qed.

Example with_suffix_demo :
  with_suffix (mkPath false ["out"; "demo"]) ".json"
  = Some (mkPath false ["out"; "demo.json"]).
Proof. reflexivity. Qed.

Example with_suffix_root : with_suffix (mkPath true []) "" = None.
Proof. reflexivity. Qed.

Example parse_demo : parse "/tmp//a/./b" = mkPath true ["tmp"; "a"; "b"].
Proof. reflexivity. Qed.

Example to_str_demo : to_str (mkPath true ["home"; "demo"; "demo.wav"])
                      = "/home/demo/demo.wav".
Proof. reflexivity. Qed.

Example strip_demo : Str.strip "  yes " = "yes".
Proof. reflexivity. Qed.

Example lower_demo : Str.lower "OUI" = "oui".
Proof. reflexivity. Qed.

Example int_demo : Str.int "42" = Some 42%Z.
Proof. reflexivity. Qed.

(** The no-break space U+00A0 is white space to [strip]; the superscript
    two U+00B2 is a digit to [isdigit] and no number to [int]. *)
Example strip_nbsp_demo : Str.strip (String "160" "n" +:+ String "160" "") = "n".
Proof. reflexivity. Qed.

Example superscript_demo :
  Str.isdigit (String "178" "") = true ∧ Str.int (String "178" "") = None.
Proof. by split. Qed.

Example candidate_demo : candidate out "demo" ".mp4" 2
                         = mkPath true ["home"; "demo"; "demo_2.mp4"].
Proof. by vm_compute. Qed.

(** A stem with a dot of its own: [with_suffix] replaces what follows it, so
    the JSON file looked up for "talk.v2.mp4" is "talk.json", next to the
    expected subtitles "talk.v2.srt". *)
Example companion_json_dotted :
  let video := mkPath false ["talk.v2.mp4"] in
  srt_of video out = mkPath true ["home"; "demo"; "talk.v2.srt"] ∧
  with_suffix (joinname out (stem video)) ".json"
  = Some (mkPath true ["home"; "demo"; "talk.json"]).
Proof. by vm_compute. Qed.

(** A first run in a fresh directory: both tools succeed, the outputs are
    relocated, the audio file is removed, the video is moved, and the exit
    status is 0. *)
Example first_run :
  let run := main (toy_exec 0 0) toy_json args_flags
               (world_of tree_fresh [""] false both_tools) in
  run.1 = 0%Z ∧
  map fst (execs (w_trace run.2))
  = [ffmpeg_cmd demo (wav_of demo out);
     whisper_cmd (wav_of demo out) "small" (Some "fr") false] ∧
  w_tree run.2 !! ["home"; "demo"; "demo.srt"] = Some (File "1") ∧
  w_tree run.2 !! ["home"; "demo"; "demo.json"] = Some (File "l=fr") ∧
  w_tree run.2 !! ["home"; "demo"; "demo.wav"] = None ∧
  w_tree run.2 !! ["home"; "demo"; "demo.mp4"] = Some (File "video") ∧
  w_tree run.2 !! ["home"; "demo.mp4"] = None.
Proof. by vm_compute. Qed.

(** At the end of standard input a prompt raises EOFError, which [main]
    reports as a fatal error. *)
Example eof_is_fatal :
  (main (toy_exec 0 0) toy_json args_flags
     (world_of tree_fresh [] false both_tools)).1 = 1%Z.
Proof. by vm_compute. Qed.

End Checks.

(** The bound on the turns of the menu loop is never what stops it
    either. *)
Lemma ask_choice_loop_fuel prompt options default : ∀ fuel w,
  length (w_stdin w) ≤ fuel →
  ask_choice_loop fuel prompt options default w
  = ask_choice_loop (length (w_stdin w)) prompt options default w.
Proof.
  intros fuel w. remember (w_stdin w) as lines eqn:Hl.
  revert fuel w Hl. induction lines as [|l lines IH]; intros fuel w Hl Hle.
  - destruct fuel; simpl; unfold bind, input; by rewrite <- Hl.
  - destruct fuel as [|fuel]; [simpl in Hle; lia|]. simpl.
    unfold bind at 1 4, input. rewrite <- Hl.
    destruct (Str.eqb _ ""); [done|].
    assert (∀ w', w_stdin w' = lines →
              (print "Invalid choice." ;; ask_choice_loop fuel prompt options default) w'
              = (print "Invalid choice." ;;
                 ask_choice_loop (length lines) prompt options default) w') as Hretry.
    { intros w' Hw'. unfold bind, print, emit. simpl.
      rewrite (IH fuel) by (simpl in *; done || lia).
      done. }
    destruct (Str.isdigit _).
    + destruct (Str.int _); [|done].
      case_bool_decide; [done|]. by apply Hretry.
    + case_bool_decide; [done|]. by apply Hretry.
Qed.

(** With the clean flag off the audio file outlives the run. *)
Example keep_wav_run :
  let run := process_video (Scenario.toy_exec 0 0) Scenario.toy_json
               Scenario.demo "small" None false false true false
               Scenario.logger0 Scenario.out
               (Scenario.world_of Scenario.tree_done [] false
                  Scenario.both_tools) in
  w_tree run.2 !! ["home"; "demo"; "demo.wav"] = Some (File "RIFF").
Proof. by vm_compute. Qed.

(** * Further properties *)

(** ** The prompt loops *)

Section PromptLoops.

Lemma after_prompts_after rest1 evs1 rest2 evs2 w :
  after_prompts rest2 evs2 (after_prompts rest1 evs1 w)
  = after_prompts rest2 (evs1 ++ evs2) w.
Proof.
  unfold after_prompts, with_stdin, with_trace. simpl.
  by rewrite (assoc_L (++)).
Qed.

Lemma after_prompts_trace rest evs w :
  w_trace (after_prompts rest evs w) = w_trace w ++ evs.
Proof. reflexivity. Qed.

(** A rejected line costs one turn: the loop starts again on what is left
    of standard input. *)
Lemma yes_no_rejects prompt default w l rest :
  w_stdin w = l :: rest → not_yes_no l →
  yes_no prompt default w
  = yes_no prompt default
      (after_prompts rest
         [EvPrompt (yes_no_prompt prompt default); EvPrint "Answer yes or no."] w).
Proof.
  intros Hin Hno. unfold yes_no at 1. rewrite Hin. simpl length.
  cbn [yes_no_loop]. unfold bind at 1, input. rewrite Hin.
  unfold not_yes_no in Hno.
  rewrite !not_elem_of_cons in Hno.
  destruct Hno as (H0 & Hy & Hyes & Ho & Houi & Hn & Hnn & _).
  apply eqb_false in H0 as ->.
  rewrite bool_decide_eq_false_2
    by (rewrite !elem_of_cons, elem_of_nil; tauto).
  rewrite bool_decide_eq_false_2
    by (rewrite !elem_of_cons, elem_of_nil; tauto).
  unfold bind, print, emit. simpl.
  unfold yes_no. simpl.
  f_equal. unfold after_prompts, with_stdin, with_trace, yes_no_prompt. simpl.
  by rewrite <- (assoc_L (++)).
Qed.

Lemma ask_choice_rejects prompt options default w l rest :
  w_stdin w = l :: rest → not_a_choice options l →
  ask_choice prompt options default w
  = ask_choice prompt options default
      (after_prompts rest
         [EvPrompt (choice_prompt prompt options default);
          EvPrint "Invalid choice."] w).
Proof.
  intros Hin [H0 Hno]. unfold ask_choice at 1. rewrite Hin. simpl length.
  cbn [ask_choice_loop]. unfold bind at 1, input. rewrite Hin.
  apply eqb_false in H0 as ->.
  assert ((print "Invalid choice." ;;
           ask_choice_loop (length rest) (choice_prompt prompt options default)
             options default)
            (with_stdin rest
               (with_trace
                  (w_trace w ++ [EvPrompt (choice_prompt prompt options default)]) w))
          = ask_choice prompt options default
              (after_prompts rest
                 [EvPrompt (choice_prompt prompt options default);
                  EvPrint "Invalid choice."] w)) as Hretry.
  { unfold bind, print, emit, ask_choice. simpl. f_equal.
    unfold after_prompts, with_stdin, with_trace. simpl.
    by rewrite <- (assoc_L (++)). }
  destruct (Str.isdigit (Str.strip l)).
  - destruct Hno as (n & -> & Hn).
    rewrite bool_decide_eq_false_2 by lia. exact Hretry.
  - rewrite bool_decide_eq_false_2 by done. exact Hretry.
Qed.

End PromptLoops.

(** X1. [yes_no] answers with the first line of standard input that it can
    read as an answer: the default for a blank line, yes for y, yes, o or
    oui, no for n or no, whatever the case of the letters and the white
    space around them.  Every line before that one costs a prompt and the
    complaint "Answer yes or no."; the lines after it are left unread. *)
Theorem yes_no_first_answer prompt default w skipped l rest b :
  w_stdin w = skipped ++ l :: rest →
  Forall not_yes_no skipped →
  (Str.lower (Str.strip l) = "" ∧ b = default
   ∨ Str.lower (Str.strip l) ∈ ["y"; "yes"; "o"; "oui"] ∧ b = true
   ∨ Str.lower (Str.strip l) ∈ ["n"; "no"] ∧ b = false) →
  yes_no prompt default w
  = (Ret b,
     after_prompts rest
       (rejected_turns (yes_no_prompt prompt default) "Answer yes or no." skipped
        ++ [EvPrompt (yes_no_prompt prompt default)]) w).
Proof.
  revert w. induction skipped as [|s skipped IH]; intros w Hin Hskip Hl.
  - simpl in Hin. unfold yes_no. rewrite Hin. simpl length.
    cbn [yes_no_loop]. unfold bind at 1, input. rewrite Hin.
    destruct Hl as [[H0 ->]|[[Hy ->]|[Hn ->]]].
    + apply eqb_true in H0 as ->. reflexivity.
    + destruct (Str.eqb _ "") eqn:E.
      { apply eqb_true in E. rewrite E in Hy.
        rewrite !elem_of_cons, elem_of_nil in Hy.
        by destruct Hy as [?|[?|[?|[?|[]]]]]. }
      by rewrite bool_decide_eq_true_2.
    + destruct (Str.eqb _ "") eqn:E.
      { apply eqb_true in E. rewrite E in Hn.
        rewrite !elem_of_cons, elem_of_nil in Hn.
        by destruct Hn as [?|[?|[]]]. }
      rewrite bool_decide_eq_false_2.
      * by rewrite bool_decide_eq_true_2.
      * rewrite !elem_of_cons, elem_of_nil in *.
        intros [Hy|[Hy|[Hy|[Hy|[]]]]]; rewrite Hy in Hn;
          by destruct Hn as [?|[?|[]]].
  - apply Forall_cons in Hskip as [Hs Hskip].
    rewrite (yes_no_rejects prompt default w s (skipped ++ l :: rest) Hin Hs).
    rewrite IH by done.
    by rewrite after_prompts_after.
Qed.

(** After "maybe", the answer " YES " is taken; "later" stays unread. *)
Lemma yes_no_first_answer_witness :
  let w := Scenario.world_of Scenario.tree_fresh ["maybe"; " YES "; "later"]
             true Scenario.both_tools in
  w_stdin w = ["maybe"] ++ " YES " :: ["later"] ∧
  Forall not_yes_no ["maybe"] ∧
  yes_no "Translate to English?" false w
  = (Ret true,
     after_prompts ["later"]
       [EvPrompt "Translate to English? [y/N]: "; EvPrint "Answer yes or no.";
        EvPrompt "Translate to English? [y/N]: "] w).
Proof.
  cbv zeta.
  assert (Forall not_yes_no ["maybe"]) as Hskip.
  { apply Forall_cons. split; [|apply Forall_nil_2].
    unfold not_yes_no. change (Str.lower (Str.strip "maybe")) with "maybe".
    rewrite !not_elem_of_cons. repeat split; try done. apply not_elem_of_nil. }
  split; [reflexivity|]. split; [exact Hskip|].
  apply (yes_no_first_answer "Translate to English?" false _ ["maybe"] " YES "
           ["later"] true); [reflexivity|exact Hskip|].
  right. left. split; [|done].
  change (Str.lower (Str.strip " YES ")) with "yes".
  apply list_elem_of_further, list_elem_of_here.
Defined.


(** X2. When no line left on standard input is an answer, [yes_no] reads
    them all, complaining after each, and the prompt that follows raises
    EOFError: the loop has no other way out and raises nothing else. *)
Theorem yes_no_end_of_input prompt default w :
  Forall not_yes_no (w_stdin w) →
  yes_no prompt default w
  = (Raise EOFError,
     after_prompts []
       (rejected_turns (yes_no_prompt prompt default) "Answer yes or no."
          (w_stdin w)
        ++ [EvPrompt (yes_no_prompt prompt default)]) w).
Proof.
  remember (w_stdin w) as lines eqn:Hin. symmetry in Hin.
  revert w Hin. induction lines as [|s lines IH]; intros w Hin Hall.
  - unfold yes_no. rewrite Hin. simpl. unfold bind, input. rewrite Hin.
    f_equal. unfold after_prompts, with_stdin, with_trace. simpl.
    destruct w; simpl in *. by subst.
  - apply Forall_cons in Hall as [Hs Hall].
    rewrite (yes_no_rejects prompt default w s lines Hin Hs).
    rewrite IH by done.
    by rewrite after_prompts_after.
Qed.

Lemma yes_no_end_of_input_witness :
  let w := Scenario.world_of Scenario.tree_fresh ["maybe"] true
             Scenario.both_tools in
  Forall not_yes_no (w_stdin w) ∧
  yes_no "Start processing?" true w
  = (Raise EOFError,
     after_prompts []
       [EvPrompt "Start processing? [Y/n]: "; EvPrint "Answer yes or no.";
        EvPrompt "Start processing? [Y/n]: "] w).
Proof.
  cbv zeta.
  assert (Forall not_yes_no ["maybe"]) as Hskip.
  { apply Forall_cons. split; [|apply Forall_nil_2].
    unfold not_yes_no. change (Str.lower (Str.strip "maybe")) with "maybe".
    rewrite !not_elem_of_cons. repeat split; try done. apply not_elem_of_nil. }
  split; [exact Hskip|].
  apply (yes_no_end_of_input "Start processing?" true
           (Scenario.world_of Scenario.tree_fresh ["maybe"] true
              Scenario.both_tools)).
  exact Hskip.
Defined.


(** X3. [ask_choice] answers with the first line it can read as a choice:
    the default for a blank line, the option at that position for a number
    between 1 and the number of options, the line itself (stripped) when it
    is one of the options.  A number is only ever read as a position.  Every
    line before that one that is answered with "Invalid choice." costs a
    prompt and that complaint; the lines after it are left unread. *)
Theorem ask_choice_first_answer prompt options default w skipped l rest r :
  w_stdin w = skipped ++ l :: rest →
  Forall (not_a_choice options) skipped →
  (Str.strip l = "" ∧ r = default
   ∨ Str.isdigit (Str.strip l) = true ∧
     (∃ n, Str.int (Str.strip l) = Some n ∧ (1 ≤ n)%Z ∧
           options !! Z.to_nat (n - 1) = Some r)
   ∨ Str.strip l ≠ "" ∧ Str.isdigit (Str.strip l) = false ∧
     Str.strip l ∈ options ∧ r = Str.strip l) →
  ask_choice prompt options default w
  = (Ret r,
     after_prompts rest
       (rejected_turns (choice_prompt prompt options default) "Invalid choice."
          skipped
        ++ [EvPrompt (choice_prompt prompt options default)]) w).
Proof.
  revert w. induction skipped as [|s skipped IH]; intros w Hin Hskip Hl.
  - simpl in Hin. unfold ask_choice. rewrite Hin. simpl length.
    cbn [ask_choice_loop]. unfold bind at 1, input. rewrite Hin.
    destruct Hl as [[H0 ->]|[(Hd & n & Hn & Hge & Hr)|(H0 & Hd & Hopt & ->)]].
    + apply eqb_true in H0 as ->. reflexivity.
    + destruct (Str.eqb _ "") eqn:E.
      { apply eqb_true in E. by rewrite E in Hd. }
      rewrite Hd, Hn.
      apply lookup_lt_Some in Hr as Hlt.
      rewrite bool_decide_eq_true_2 by lia.
      by rewrite Hr.
    + apply eqb_false in H0 as ->. rewrite Hd.
      by rewrite bool_decide_eq_true_2.
  - apply Forall_cons in Hskip as [Hs Hskip].
    rewrite (ask_choice_rejects prompt options default w s
               (skipped ++ l :: rest) Hin Hs).
    rewrite IH by done.
    by rewrite after_prompts_after.
Qed.

(** "9" is no position and "huge" no model; "4" then selects the fourth
    model. *)
Lemma ask_choice_first_answer_witness :
  let w := Scenario.world_of Scenario.tree_fresh ["9"; "huge"; " 4"; "tiny"]
             false Scenario.both_tools in
  let text := "Choose Whisper model size: 1) tiny, 2) base, 3) small, 4) medium, 5) large [default small]: " in
  w_stdin w = ["9"; "huge"] ++ " 4" :: ["tiny"] ∧
  Forall (not_a_choice MODELS) ["9"; "huge"] ∧
  ask_choice "Choose Whisper model size:" MODELS "small" w
  = (Ret "medium",
     after_prompts ["tiny"]
       [EvPrompt text; EvPrint "Invalid choice.";
        EvPrompt text; EvPrint "Invalid choice.";
        EvPrompt text] w).
Proof.
  cbv zeta.
  assert (Forall (not_a_choice MODELS) ["9"; "huge"]) as Hskip.
  { repeat (apply Forall_cons; split); [| |apply Forall_nil_2].
    - split; [done|]. change (Str.isdigit (Str.strip "9")) with true.
      cbv iota. exists 9%Z. split; [reflexivity|]. simpl. lia.
    - split; [done|]. change (Str.isdigit (Str.strip "huge")) with false.
      change (Str.strip "huge") with "huge". cbv iota. unfold MODELS.
      rewrite !not_elem_of_cons. repeat split; try done. apply not_elem_of_nil. }
  split; [reflexivity|]. split; [exact Hskip|].
  apply (ask_choice_first_answer "Choose Whisper model size:" MODELS "small" _
           ["9"; "huge"] " 4" ["tiny"] "medium"); [reflexivity|exact Hskip|].
  right. left. split; [reflexivity|]. exists 4%Z.
  split; [reflexivity|]. split; [lia|reflexivity].
Defined.


(** X4. When every line left on standard input is answered with "Invalid
    choice.", [ask_choice] reads them all, complaining after each, and the
    prompt that follows raises EOFError. *)
Theorem ask_choice_end_of_input prompt options default w :
  Forall (not_a_choice options) (w_stdin w) →
  ask_choice prompt options default w
  = (Raise EOFError,
     after_prompts []
       (rejected_turns (choice_prompt prompt options default) "Invalid choice."
          (w_stdin w)
        ++ [EvPrompt (choice_prompt prompt options default)]) w).
Proof.
  remember (w_stdin w) as lines eqn:Hin. symmetry in Hin.
  revert w Hin. induction lines as [|s lines IH]; intros w Hin Hall.
  - unfold ask_choice. rewrite Hin. simpl. unfold bind, input. rewrite Hin.
    f_equal. unfold after_prompts, with_stdin, with_trace. simpl.
    destruct w; simpl in *. by subst.
  - apply Forall_cons in Hall as [Hs Hall].
    rewrite (ask_choice_rejects prompt options default w s lines Hin Hs).
    rewrite IH by done.
    by rewrite after_prompts_after.
Qed.

Lemma ask_choice_end_of_input_witness :
  let w := Scenario.world_of Scenario.tree_fresh ["0"] false
             Scenario.both_tools in
  let text := "Choose Whisper model size: 1) tiny, 2) base, 3) small, 4) medium, 5) large [default small]: " in
  Forall (not_a_choice MODELS) (w_stdin w) ∧
  ask_choice "Choose Whisper model size:" MODELS "small" w
  = (Raise EOFError,
     after_prompts [] [EvPrompt text; EvPrint "Invalid choice."; EvPrompt text] w).
Proof.
  cbv zeta.
  assert (Forall (not_a_choice MODELS) ["0"]) as Hskip.
  { apply Forall_cons. split; [|apply Forall_nil_2].
    split; [done|]. change (Str.isdigit (Str.strip "0")) with true.
    cbv iota. exists 0%Z. split; [reflexivity|]. simpl. lia. }
  split; [exact Hskip|].
  apply (ask_choice_end_of_input "Choose Whisper model size:" MODELS "small"
           (Scenario.world_of Scenario.tree_fresh ["0"] false
              Scenario.both_tools)).
  exact Hskip.
Defined.

(** X23. A line of digits that [int] refuses ends [ask_choice] with
    ValueError: a superscript digit is a digit to [isdigit] and no number to
    [int], and [int] gives up on more than 4300 digits.  The lines before
    it were each answered with "Invalid choice."; the lines after it are
    left unread, and no complaint follows the last prompt. *)
Theorem ask_choice_value_error prompt options default w skipped l rest :
  w_stdin w = skipped ++ l :: rest →
  Forall (not_a_choice options) skipped →
  not_an_int l →
  ask_choice prompt options default w
  = (Raise (ValueError "int"),
     after_prompts rest
       (rejected_turns (choice_prompt prompt options default) "Invalid choice."
          skipped
        ++ [EvPrompt (choice_prompt prompt options default)]) w).
Proof.
  revert w. induction skipped as [|s skipped IH]; intros w Hin Hskip [Hd Hi].
  - simpl in Hin. unfold ask_choice. rewrite Hin. simpl length.
    cbn [ask_choice_loop]. unfold bind at 1, input. rewrite Hin.
    destruct (Str.eqb _ "") eqn:E.
    { apply eqb_true in E. by rewrite E in Hd. }
    by rewrite Hd, Hi.
  - apply Forall_cons in Hskip as [Hs Hskip].
    rewrite (ask_choice_rejects prompt options default w s
               (skipped ++ l :: rest) Hin Hs).
    rewrite IH by done.
    by rewrite after_prompts_after.
Qed.

(** The superscript two, after a first line that is no model. *)
Lemma ask_choice_value_error_witness :
  let w := Scenario.world_of Scenario.tree_fresh
             ["huge"; String "178" ""; "tiny"] false Scenario.both_tools in
  let text := "Choose Whisper model size: 1) tiny, 2) base, 3) small, 4) medium, 5) large [default small]: " in
  w_stdin w = ["huge"] ++ String "178" "" :: ["tiny"] ∧
  Forall (not_a_choice MODELS) ["huge"] ∧
  not_an_int (String "178" "") ∧
  ask_choice "Choose Whisper model size:" MODELS "small" w
  = (Raise (ValueError "int"),
     after_prompts ["tiny"]
       [EvPrompt text; EvPrint "Invalid choice."; EvPrompt text] w).
Proof.
  cbv zeta.
  assert (Forall (not_a_choice MODELS) ["huge"]) as Hskip.
  { apply Forall_cons. split; [|apply Forall_nil_2].
    split; [done|]. change (Str.isdigit (Str.strip "huge")) with false.
    change (Str.strip "huge") with "huge". cbv iota. unfold MODELS.
    rewrite !not_elem_of_cons. repeat split; try done. apply not_elem_of_nil. }
  assert (not_an_int (String "178" "")) as Hbad by (by split).
  split; [reflexivity|]. split; [exact Hskip|]. split; [exact Hbad|].
  apply (ask_choice_value_error "Choose Whisper model size:" MODELS "small" _
           ["huge"] (String "178" "") ["tiny"]); [reflexivity|exact Hskip|exact Hbad].
Defined.

(** ** Spawned commands *)

Section Streaming.

Variable exec : list string → list string → tree → proc.

Lemma with_trace_same w : with_trace (w_trace w ++ []) w = w.
Proof. destruct w. unfold with_trace. simpl. by rewrite app_nil_r. Qed.

Lemma log_lines_run lg out w :
  log_lines lg out w
  = (Ret tt,
     with_trace (w_trace w ++ ((λ line, EvLog INFO (Str.rstrip line) []) <$> out)) w).
Proof.
  revert w. induction out as [|l out IH]; intros w; simpl.
  - unfold ret. by rewrite with_trace_same.
  - unfold bind, log, emit. rewrite IH. f_equal.
    unfold with_trace. simpl. by rewrite <- (assoc_L (++)).
Qed.

(** One call of [run_cmd_streamed], whole: result and world. *)
Lemma run_cmd_streamed_run cmd lg w :
  let p := exec cmd (w_cwd w) (w_tree w) in
  run_cmd_streamed exec cmd lg w
  = (match failure_of cmd p with Some e => Raise e | None => Ret tt end,
     with_tree (tree_after p (w_tree w))
       (with_trace (w_trace w ++ streamed cmd p) w)).
Proof.
  cbv zeta. unfold run_cmd_streamed, streamed.
  unfold bind at 1, log, emit. unfold bind at 1, popen. simpl.
  destruct (exec cmd (w_cwd w) (w_tree w)) as [|t out code]; simpl.
  - f_equal. destruct w. unfold with_tree, with_trace. simpl.
    by rewrite <- (assoc_L (++)).
  - unfold bind at 1. rewrite log_lines_run. simpl.
    assert (∀ A (r : result A) tr1 tr2,
              tr1 = tr2 →
              (r, with_trace tr1
                    (with_tree t
                       (with_trace
                          ((w_trace w ++ [EvLog DEBUG "Executing: %s" [AStr (Str.join " " cmd)]])
                           ++ [EvExec cmd (Some code)])
                          (with_trace
                             (w_trace w ++ [EvLog DEBUG "Executing: %s" [AStr (Str.join " " cmd)]])
                             w))))
              = (r, with_tree t (with_trace tr2 w))) as Hw.
    { intros A r tr1 tr2 ->. reflexivity. }
    destruct (decide (code = 0%Z)) as [Hc|Hc].
    + rewrite (bool_decide_eq_true_2 _ Hc).
      rewrite bool_decide_eq_false_2 by (by intros ?).
      apply Hw. by rewrite <- !(assoc_L (++)).
    + rewrite (bool_decide_eq_false_2 _ Hc).
      rewrite (bool_decide_eq_true_2 _ Hc).
      apply Hw. by rewrite <- !(assoc_L (++)).
Qed.

Lemma extract_audio_run video_path wav_path lg w :
  let cmd := ffmpeg_cmd video_path wav_path in
  let p := exec cmd (w_cwd w) (w_tree w) in
  extract_audio exec video_path wav_path lg w
  = (match failure_of cmd p with Some e => Raise e | None => Ret tt end,
     with_tree (tree_after p (w_tree w))
       (with_trace
          (w_trace w
           ++ EvLog DEBUG "Running FFmpeg: %s" [AStr (Str.join " " cmd)]
              :: streamed cmd p) w)).
Proof.
  cbv zeta. unfold extract_audio. unfold bind, log, emit.
  rewrite run_cmd_streamed_run. simpl. f_equal.
  unfold with_tree, with_trace. simpl. by rewrite <- (assoc_L (++)).
Qed.

Lemma failure_status cmd p :
  failure_of cmd p = None ↔ status_of p = Some 0%Z.
Proof.
  destruct p as [|t out code]; simpl; [done|].
  case_bool_decide; split; congruence.
Qed.

Lemma execs_streamed cmd p : execs (streamed cmd p) = [(cmd, status_of p)].
Proof.
  unfold streamed. simpl. f_equal.
  induction (output_of p) as [|l out IH]; [done|exact IH].
Qed.

End Streaming.

(** X5. [run_cmd_streamed] spawns its command once and streams it: the
    trace gains the record of the command line, the command with its status,
    and every line of its output (right-stripped) in order, also when the
    command fails; the file tree is the one the command left.  It returns
    for status 0 and raises otherwise: RuntimeError naming the command line
    and the status for a non-zero status, the error of [Popen] for a command
    that cannot be started.  Standard input is not touched. *)
Theorem run_cmd_streamed_outcome exec cmd lg w :
  let p := exec cmd (w_cwd w) (w_tree w) in
  let run := run_cmd_streamed exec cmd lg w in
  run.1 = match p with
          | NotStarted => Raise (OSError "Popen")
          | Finished _ _ code =>
              if bool_decide (code = 0%Z) then Ret tt
              else Raise (RuntimeError ("Command failed (" +:+ Str.join " " cmd
                                          +:+ ") exit=" +:+ pretty code))
          end ∧
  w_tree run.2 = tree_after p (w_tree w) ∧
  w_stdin run.2 = w_stdin w ∧
  emitted w run.2
  = EvLog DEBUG "Executing: %s" [AStr (Str.join " " cmd)]
    :: EvExec cmd (status_of p)
    :: ((λ line, EvLog INFO (Str.rstrip line) []) <$> output_of p).
Proof.
  cbv zeta. rewrite run_cmd_streamed_run. simpl.
  split; [|split; [done|split; [done|]]].
  - unfold failure_of. destruct (exec cmd (w_cwd w) (w_tree w)); [done|].
    by case_bool_decide.
  - by apply emitted_app.
Qed.

Section FailedExtraction.

Variable exec : list string → list string → tree → proc.
Variable json_load : string → option pyval.

Lemma full_run_failed video base wav srt model language translate clean lg
    out_dir w e :
  failure_of (ffmpeg_cmd video wav)
    (exec (ffmpeg_cmd video wav) (w_cwd w) (w_tree w)) = Some e →
  full_run exec json_load video base wav srt model language translate clean
    lg out_dir w
  = (Raise e,
     with_tree (tree_after (exec (ffmpeg_cmd video wav) (w_cwd w) (w_tree w))
                  (w_tree w))
       (with_trace
          (w_trace w
           ++ EvLog DEBUG "Running FFmpeg: %s"
                [AStr (Str.join " " (ffmpeg_cmd video wav))]
              :: streamed (ffmpeg_cmd video wav)
                   (exec (ffmpeg_cmd video wav) (w_cwd w) (w_tree w))) w)).
Proof.
  intros Hf. unfold full_run. unfold bind at 1.
  rewrite extract_audio_run. cbv zeta. by rewrite Hf.
Qed.

End FailedExtraction.

(** X6. A failed extraction ends [process_video] at once.  When ffmpeg
    cannot be started or exits with a non-zero status, the exception of
    [run_cmd_streamed] leaves [process_video] as it is; whisper is not
    spawned, nothing is relocated or cleaned up, and the file tree is the
    one ffmpeg left: the last thing in the trace is the output of
    ffmpeg. *)
Theorem failed_extraction_is_fatal exec json_load video model language
    translate clean overwrite skip lg out_dir w e :
  let wav := wav_of video out_dir in
  let p1 := exec (ffmpeg_cmd video wav) (w_cwd w) (w_tree w) in
  name video ≠ "" →
  bypasses (present w (srt_of video out_dir)) skip overwrite = false →
  failure_of (ffmpeg_cmd video wav) p1 = Some e →
  ∃ w',
    process_video exec json_load video model language translate clean
      overwrite skip lg out_dir w = (Raise e, w') ∧
    w_tree w' = tree_after p1 (w_tree w) ∧
    execs (emitted w w') = [(ffmpeg_cmd video wav, status_of p1)] ∧
    emitted w w'
    = EvLog DEBUG "Running FFmpeg: %s" [AStr (Str.join " " (ffmpeg_cmd video wav))]
      :: streamed (ffmpeg_cmd video wav) p1.
Proof.
  cbv zeta. intros Hn Hby Hf.
  destruct (process_video_full exec json_load video model language translate
              clean overwrite skip lg out_dir w Hn Hby) as (base & _ & ->).
  rewrite (full_run_failed exec json_load _ _ _ _ _ _ _ _ _ _ _ _ Hf).
  eexists. split; [reflexivity|]. simpl. split; [done|]. split.
  - erewrite emitted_app by reflexivity.
    change (?a :: streamed ?c ?p) with ([a] ++ streamed c p).
    by rewrite execs_app, execs_streamed.
  - by erewrite emitted_app by reflexivity.
Qed.

(** ffmpeg exits with status 1 on a fresh directory. *)
Lemma failed_extraction_is_fatal_witness :
  let w := Scenario.world_of Scenario.tree_fresh [] false Scenario.both_tools in
  let video := Scenario.demo in
  let out_dir := Scenario.out in
  let wav := wav_of video out_dir in
  let p1 := Scenario.toy_exec 1 0 (ffmpeg_cmd video wav) (w_cwd w) (w_tree w) in
  let e := RuntimeError "Command failed (ffmpeg -hide_banner -loglevel error -i demo.mp4 -ar 16000 -ac 1 -c:a pcm_s16le /home/demo/demo.wav) exit=1" in
  name video ≠ "" ∧
  bypasses (present w (srt_of video out_dir)) true true = false ∧
  failure_of (ffmpeg_cmd video wav) p1 = Some e ∧
  ∃ w',
    process_video (Scenario.toy_exec 1 0) Scenario.toy_json video "small" None
      false true true true Scenario.logger0 out_dir w = (Raise e, w') ∧
    w_tree w' = tree_after p1 (w_tree w) ∧
    execs (emitted w w') = [(ffmpeg_cmd video wav, status_of p1)] ∧
    emitted w w'
    = EvLog DEBUG "Running FFmpeg: %s" [AStr (Str.join " " (ffmpeg_cmd video wav))]
      :: streamed (ffmpeg_cmd video wav) p1.
Proof.
  cbv zeta. split; [done|]. split; [reflexivity|]. split; [by vm_compute|].
  apply failed_extraction_is_fatal; [done|reflexivity|by vm_compute].
Defined.

(** ** [main], case by case *)

Section MainCases.

Variable exec : list string → list string → tree → proc.
Variable json_load : string → option pyval.

Lemma calls_whisper_cmd wav_path model language translate :
  calls "whisper" (whisper_cmd wav_path model language translate).
Proof. unfold calls, whisper_cmd. by destruct (str_truthy language). Qed.

(** The three ways a call of [process_video] can go: nothing is spawned
    (early return, or a video without a name); the extraction fails; both
    tools are spawned and a result is returned. *)
Lemma process_video_cases video model language translate clean overwrite
    skip lg out_dir w :
  let wav := wav_of video out_dir in
  let ffmpeg := ffmpeg_cmd video wav in
  let p1 := exec ffmpeg (w_cwd w) (w_tree w) in
  ∃ r w1 evs,
    process_video exec json_load video model language translate clean
      overwrite skip lg out_dir w = (r, w1) ∧
    w_cwd w1 = w_cwd w ∧ w_path w1 = w_path w ∧
    w_trace w1 = w_trace w ++ evs ∧
    ((execs evs = [] ∧ w_tree w1 = w_tree w ∧
      ∀ e, r = Raise e → is_Exception e = true)
     ∨ (∃ e, failure_of ffmpeg p1 = Some e ∧ r = Raise e ∧
             w_tree w1 = tree_after p1 (w_tree w) ∧
             execs evs = [(ffmpeg, status_of p1)])
     ∨ (∃ res st2,
          r = Ret res ∧
          execs evs = [(ffmpeg, Some 0%Z);
                       (whisper_cmd wav model language translate, st2)] ∧
          whisper_succeeded res = bool_decide (st2 = Some 0%Z))).
Proof.
  cbv zeta.
  destruct (decide (name video = "")) as [Hn|Hn].
  { exists (Raise (ValueError "empty name")), w, []. split.
    - unfold process_video, with_suffix. by rewrite Hn.
    - split; [done|]. split; [done|]. split; [by rewrite app_nil_r|].
      left. split; [done|]. split; [done|]. by intros e [= <-]. }
  destruct (bypasses (present w (srt_of video out_dir)) skip overwrite) eqn:Hby.
  { unfold bypasses in Hby. apply andb_true_iff in Hby as [Hsrt Hfl].
    destruct (process_video_bypass exec json_load video model language
                translate clean overwrite skip lg out_dir w Hn Hsrt Hfl)
      as (msg & jp & _ & Hrun).
    eexists _, _, [_]. split; [exact Hrun|]. simpl.
    split; [done|]. split; [done|]. split; [done|]. left. by repeat split. }
  destruct (failure_of (ffmpeg_cmd video (wav_of video out_dir))
              (exec (ffmpeg_cmd video (wav_of video out_dir)) (w_cwd w) (w_tree w)))
    as [e|] eqn:Hf.
  - destruct (process_video_full exec json_load video model language translate
                clean overwrite skip lg out_dir w Hn Hby) as (base & _ & ->).
    rewrite (full_run_failed exec json_load _ _ _ _ _ _ _ _ _ _ _ _ Hf).
    eexists _, _, _. split; [reflexivity|]. simpl.
    split; [done|]. split; [done|]. split; [reflexivity|].
    right. left. exists e. split; [done|]. split; [done|]. split; [done|].
    change (?a :: streamed ?c ?p) with ([a] ++ streamed c p).
    by rewrite execs_app, execs_streamed.
  - apply failure_status in Hf.
    destruct (process_video_full exec json_load video model language translate
                clean overwrite skip lg out_dir w Hn Hby) as (base & _ & ->).
    pose proof (full_run_spec exec json_load video base (srt_of video out_dir)
                  model language translate clean lg out_dir w Hn) as H.
    cbv zeta in H. rewrite Hf in H.
    destruct H as (d & w2 & w' & Hrun & Hran & _ & Hsp & _).
    destruct Hran as (_ & C2 & P2 & evs2 & T2 & X2).
    destruct Hsp as (C3 & P3 & evs3 & T3 & X3).
    eexists _, w', (evs2 ++ evs3). split; [exact Hrun|].
    split; [congruence|]. split; [congruence|]. split.
    { by rewrite T3, T2, (assoc_L (++)). }
    right. right. eexists _, _. split; [reflexivity|]. split; [|done].
    by rewrite execs_app, X2, X3.
Qed.

(** [main] ends at once with status 1 when the log file cannot be opened;
    otherwise it is its start-up followed by the handlers around its
    body. *)
Lemma main_run args w :
  main exec json_load args w = (1%Z, w) ∧ ¬ log_ready w args
  ∨ log_ready w args ∧
    ∃ lg start w0 evs0,
      startup args w = (Ret (lg, start), w0) ∧
      calm w w0 ∧ w_stdin w0 = w_stdin w ∧ w_tty w0 = w_tty w ∧
      w_trace w0 = w_trace w ++ evs0 ∧ evs0 ≠ [] ∧
      execs evs0 = [] ∧ prompts evs0 = [] ∧
      main exec json_load args w
      = match main_body exec json_load args start lg w0 with
        | (Ret _, w') => (0%Z, w')
        | (Raise (SystemExit c), w') => (c, w')
        | (Raise KeyboardInterrupt, w') =>
            (1%Z, (log lg WARNING "Interrupted by user." [] w').2)
        | (Raise e, w') =>
            (1%Z, (log lg ERROR "Fatal error: %s" [AExn e] w').2)
        end.
Proof.
  unfold main.
  destruct (startup_spec args w)
    as [[-> Hno]|(Hlog & lg & start & w0 & evs0 & -> & H)].
  - by left.
  - right. split; [done|]. exists lg, start, w0, evs0.
    split; [done|]. destruct H as (H1 & H2 & H3 & H4 & H5 & H6 & H7).
    do 7 (split; [assumption|]). reflexivity.
Qed.

(** The body of [main] ends before the pipeline with one of the early
    exits, or reaches [process_video] with the tools checked. *)
Lemma main_body_cases args start lg w :
  ∃ r w',
    main_body exec json_load args start lg w = (r, w') ∧
    ((∃ e, r = Raise e ∧ early_exit e w' ∧ grows w w' ∧ tree_step w w')
     ∨ ∃ cfg w1 w2 rp w3,
         configure args lg w = (Ret cfg, w1) ∧ grows w w1 ∧ tree_step w w1 ∧
         require_tools lg w1 = (Ret tt, w2) ∧ calm w1 w2 ∧
         process_video exec json_load (c_video cfg) (c_model cfg)
           (c_language cfg) (c_translate_to_en cfg) (c_clean_wav cfg)
           (c_overwrite cfg) (c_skip_if_exists cfg) lg (c_out_dir cfg) w2
         = (rp, w3) ∧
         match rp with
         | Raise e => r = Raise e ∧ w' = w3
         | Ret res =>
             r = Ret tt ∧
             ∃ evs, w_trace w' = w_trace w3 ++ evs ∧ execs evs = [] ∧
                    w_cwd w' = w_cwd w3 ∧
                    EvLog INFO "Whisper succeeded: %s"
                      [ABool (whisper_succeeded res)] ∈ evs
         end).
Proof.
  unfold main_body.
  destruct (obeys_configure args lg) as [Hs Hr].
  pose proof (configure_single_mkdir args lg w) as Hone.
  specialize (Hs w). specialize (Hr w).
  destruct (configure args lg w) as [[cfg|e] w1] eqn:Hcfg; simpl in *.
  2:{ eexists _, _. split; [by erewrite bind_raise_eq by exact Hcfg|].
      left. exists e. split; [done|]. split; [by apply Hr|]. by split. }
  erewrite bind_ret_eq by exact Hcfg.
  destruct (obeys_require_tools lg) as [Hs2 Hr2].
  specialize (Hs2 w1). specialize (Hr2 w1).
  destruct (require_tools lg w1) as [[[]|e] w2] eqn:Hreq; simpl in *.
  2:{ eexists _, _. split; [by erewrite bind_raise_eq by exact Hreq|].
      left. exists e. split; [done|]. split; [by apply Hr2|]. split.
      - apply (lenient_trans w w1 w2); [done|by apply lenient_calm].
      - destruct Hs2 as (T & _). unfold tree_step in *. by rewrite T. }
  erewrite bind_ret_eq by exact Hreq. unfold run_and_report.
  destruct (process_video exec json_load (c_video cfg) (c_model cfg)
              (c_language cfg) (c_translate_to_en cfg) (c_clean_wav cfg)
              (c_overwrite cfg) (c_skip_if_exists cfg) lg (c_out_dir cfg) w2)
    as [[res|e] w3] eqn:Hpv.
  - erewrite bind_ret_eq by exact Hpv.
    destruct (after_process_video cfg start lg res w3)
      as (w' & evs4 & Hrest & C4 & _ & T4 & X4 & Hlog).
    eexists _, w'. split; [exact Hrest|]. right.
    exists cfg, w1, w2, (Ret res), w3. do 6 (split; [done|]).
    split; [done|]. exists evs4. by repeat split.
  - eexists _, w3. split; [by erewrite bind_raise_eq by exact Hpv|]. right.
    exists cfg, w1, w2, (Raise e), w3. by do 6 (split; [done|]).
Qed.

End MainCases.

Section MainExits.

Variable exec : list string → list string → tree → proc.
Variable json_load : string → option pyval.

Lemma failure_is_Exception cmd p e :
  failure_of cmd p = Some e → is_Exception e = true.
Proof.
  destruct p as [|t out code]; simpl; [by intros [= <-]|].
  case_bool_decide; [done|]. by intros [= <-].
Qed.

Lemma process_video_raises video model language translate clean overwrite
    skip lg out_dir w e w' :
  process_video exec json_load video model language translate clean
    overwrite skip lg out_dir w = (Raise e, w') →
  is_Exception e = true.
Proof.
  intros Hrun.
  destruct (process_video_cases exec json_load video model language translate
              clean overwrite skip lg out_dir w)
    as (r & w1 & evs & Hpv & _ & _ & _ & Hcase).
  rewrite Hrun in Hpv. injection Hpv as <- <-.
  destruct Hcase as [(_ & _ & He)|[(e' & Hf & [= ->] & _)|(? & ? & [=] & _)]].
  - by apply He.
  - by eapply failure_is_Exception.
Qed.

Lemma last_emitted w w' evs ev :
  w_trace w' = w_trace w ++ evs → last evs = Some ev →
  last (emitted w w') = Some ev.
Proof. intros H Hl. by rewrite (emitted_app _ _ _ H). Qed.

End MainExits.

Section MainShape.

Variable exec : list string → list string → tree → proc.
Variable json_load : string → option pyval.

(** A run of [main] ends before the pipeline, having spawned nothing, or
    reaches [process_video]; what that call raises is reported as a fatal
    error, and what it returns is followed by the move of the video and the
    summary. *)
Lemma main_cases args w :
  let run := main exec json_load args w in
  (execs (emitted w run.2) = [] ∧ w_cwd run.2 = w_cwd w ∧
   single_mkdir (w_tree w) (w_tree run.2))
  ∨ ∃ lg cfg w2 pre rp w3,
      w_cwd w2 = w_cwd w ∧ w_path w2 = w_path w ∧
      single_mkdir (w_tree w) (w_tree w2) ∧
      w_trace w2 = w_trace w ++ pre ∧ execs pre = [] ∧
      process_video exec json_load (c_video cfg) (c_model cfg)
        (c_language cfg) (c_translate_to_en cfg) (c_clean_wav cfg)
        (c_overwrite cfg) (c_skip_if_exists cfg) lg (c_out_dir cfg) w2
      = (rp, w3) ∧
      match rp with
      | Raise e =>
          run = (1%Z, with_trace
                        (w_trace w3 ++ [EvLog ERROR "Fatal error: %s" [AExn e]])
                        w3)
      | Ret res =>
          run.1 = 0%Z ∧
          ∃ evs, w_trace run.2 = w_trace w3 ++ evs ∧ execs evs = [] ∧
                 EvLog INFO "Whisper succeeded: %s"
                   [ABool (whisper_succeeded res)] ∈ evs
      end.
Proof.
  cbv zeta.
  destruct (main_run exec json_load args w)
    as [[-> _]|(_ & lg & start & w0 & evs0 & _ & Hc0 & _ & _ & T0 & Hne & X0 & _ & ->)].
  { left. simpl. rewrite emitted_same. split; [done|]. split; [done|by left]. }
  destruct (main_body_cases exec json_load args start lg w0)
    as (r & w1 & -> & Hcase).
  destruct Hc0 as (Tr0 & C0 & P0 & _).
  destruct Hcase as [(e & -> & Hexit & Hg & Hone)
                    |(cfg & w1' & w2 & rp & w3 & _ & Hg1 & Hone & _ & Hc2 & Hpv & Hrp)].
  - left. destruct Hg as (_ & C1 & _ & evs1 & T1 & X1).
    assert (w_trace w1 = w_trace w ++ (evs0 ++ evs1)) as T.
    { by rewrite T1, T0, (assoc_L (++)). }
    assert (single_mkdir (w_tree w) (w_tree w1)) as Hone'.
    { unfold tree_step in Hone. by rewrite Tr0 in Hone. }
    assert (∀ ev, execs [ev] = [] →
              execs (emitted w (with_trace (w_trace w1 ++ [ev]) w1)) = []) as Hlog.
    { intros ev Hev. rewrite (emitted_app w _ ((evs0 ++ evs1) ++ [ev])).
      - by rewrite !execs_app, X0, X1, Hev.
      - simpl. rewrite T. by rewrite <- !(assoc_L (++)). }
    destruct e; simpl;
      try (split; [by apply Hlog|split; [congruence|done]]).
    rewrite (emitted_app _ _ _ T). rewrite execs_app, X0, X1.
    split; [done|]. split; [congruence|done].
  - right.
    destruct Hg1 as (_ & C1 & P1 & evs1 & T1 & X1).
    destruct Hc2 as (Tr2 & C2 & P2 & evs2 & T2 & X2).
    exists lg, cfg, w2, (evs0 ++ evs1 ++ evs2), rp, w3.
    split; [congruence|]. split; [congruence|]. split.
    { unfold tree_step in Hone. by rewrite Tr2, <- Tr0. }
    split. { rewrite T2, T1, T0. by rewrite <- !(assoc_L (++)). }
    split. { by rewrite !execs_app, X0, X1, X2. }
    split; [exact Hpv|].
    destruct rp as [res|e].
    + destruct Hrp as (-> & evs & T & X & _ & Hin). simpl.
      split; [done|]. by exists evs.
    + destruct Hrp as (-> & ->).
      apply process_video_raises in Hpv. by destruct e.
Qed.

End MainShape.

(** X7. Once [parse_args] has returned, the exit status of [main] is 0 or
    1, whatever the arguments, the input and the tools do: every exception
    of the [try] block is caught at the top level, and one raised by
    [setup_logger] before it ends the process with status 1.  Status 0 is
    reached in two ways only: the user declined the
    confirmation prompt, in which case nothing was spawned and "Cancelled."
    is the last record; or the pipeline ran to its end and the summary was
    logged. *)
Theorem main_exit_status exec json_load args w :
  let code := (main exec json_load args w).1 in
  let w' := (main exec json_load args w).2 in
  (code = 0%Z ∨ code = 1%Z) ∧
  (code = 0%Z →
   last (emitted w w') = Some (EvLog INFO "Cancelled." []) ∧
   execs (emitted w w') = []
   ∨ ∃ b, EvLog INFO "Whisper succeeded: %s" [ABool b] ∈ emitted w w').
Proof.
  cbv zeta.
  destruct (main_run exec json_load args w)
    as [[-> _]|(_ & lg & start & w0 & evs0 & _ & _ & _ & _ & T0 & Hne & X0 & _ & ->)].
  { simpl. split; [by right|done]. }
  destruct (main_body_cases exec json_load args start lg w0)
    as (r & w1 & -> & Hcase).
  destruct Hcase as [(e & -> & Hexit & Hg & _)
                    |(cfg & w1' & w2 & rp & w3 & _ & Hg1 & _ & _ & Hc2 & Hpv & Hrp)].
  - destruct Hg as (_ & _ & _ & evs1 & T1 & X1).
    destruct e; simpl in *; try (split; [by right|done]).
    destruct Hexit as [->|[-> Hlast]]; [split; [by right|done]|].
    split; [by left|]. intros _. left.
    assert (w_trace w1 = w_trace w ++ (evs0 ++ evs1)) as T.
    { by rewrite T1, T0, (assoc_L (++)). }
    rewrite (emitted_app _ _ _ T). split; [|by rewrite execs_app, X0, X1].
    rewrite T in Hlast. rewrite last_app in Hlast.
    destruct (last (evs0 ++ evs1)) eqn:Hl; [done|].
    apply last_None in Hl. by destruct evs0.
  - destruct rp as [res|e].
    + destruct Hrp as (-> & evs & T & _ & _ & Hin). simpl.
      split; [by left|]. intros _. right. exists (whisper_succeeded res).
      unfold emitted. rewrite T.
      assert (length (w_trace w) ≤ length (w_trace w3)) as Hle.
      { destruct (process_video_cases exec json_load (c_video cfg) (c_model cfg)
                    (c_language cfg) (c_translate_to_en cfg) (c_clean_wav cfg)
                    (c_overwrite cfg) (c_skip_if_exists cfg) lg (c_out_dir cfg) w2)
          as (r' & w3' & evs3 & Hpv' & _ & _ & T3 & _).
        rewrite Hpv in Hpv'. injection Hpv' as <- <-.
        rewrite T3, List.length_app.
        destruct Hc2 as (_ & _ & _ & e2 & -> & _).
        destruct Hg1 as (_ & _ & _ & e1 & -> & _).
        rewrite T0, !List.length_app. lia. }
      rewrite drop_app_le by done. apply elem_of_app. by right.
    + destruct Hrp as (-> & ->).
      apply (process_video_raises exec json_load) in Hpv.
      destruct e; simpl in *; try done; (split; [by right|done]).
Qed.

(** X8. A failed extraction is fatal to [main].  A run in which an ffmpeg
    call did not complete with status 0 exits with status 1; that call is
    the only command spawned (no whisper); the last record is the fatal
    error that reports the failure; and nothing touched the file tree after
    ffmpeg: it is the tree ffmpeg left, started on the tree of the
    configuration (the initial tree, or that tree after the [mkdir] of the
    output directory), so the video was not moved. *)
Theorem failed_extraction_exits_1 exec json_load args w cmd st :
  calls "ffmpeg" cmd → st ≠ Some 0%Z →
  (cmd, st) ∈ execs (emitted w (main exec json_load args w).2) →
  (main exec json_load args w).1 = 1%Z ∧
  execs (emitted w (main exec json_load args w).2) = [(cmd, st)] ∧
  ∃ e t,
    last (emitted w (main exec json_load args w).2)
    = Some (EvLog ERROR "Fatal error: %s" [AExn e]) ∧
    failure_of cmd (exec cmd (w_cwd w) t) = Some e ∧
    single_mkdir (w_tree w) t ∧
    w_tree (main exec json_load args w).2
    = tree_after (exec cmd (w_cwd w) t) t.
Proof.
  intros Hcmd Hst Hin.
  pose proof (main_cases exec json_load args w) as H. cbv zeta in H.
  destruct H as [(X & _)|(lg & cfg & w2 & pre & rp & w3 & C2 & _ & Hone & T2 & X2
                          & Hpv & Hrp)].
  { rewrite X in Hin. by apply elem_of_nil in Hin. }
  destruct (process_video_cases exec json_load (c_video cfg) (c_model cfg)
              (c_language cfg) (c_translate_to_en cfg) (c_clean_wav cfg)
              (c_overwrite cfg) (c_skip_if_exists cfg) lg (c_out_dir cfg) w2)
    as (r' & w3' & evs3 & Hpv' & _ & _ & T3 & Hcase).
  rewrite Hpv in Hpv'. injection Hpv' as <- <-.
  assert (∀ w' evs, w_trace w' = w_trace w3 ++ evs → execs evs = [] →
            execs (emitted w w') = execs evs3) as Hx.
  { intros w' evs T X. rewrite (emitted_app w w' (pre ++ evs3 ++ evs)).
    - by rewrite !execs_app, X2, X, app_nil_r.
    - rewrite T, T3, T2. by rewrite <- !(assoc_L (++)). }
  destruct rp as [res|e].
  - exfalso. destruct Hrp as (_ & evs & T & X & _).
    rewrite (Hx _ _ T X) in Hin.
    destruct Hcase as [(X3 & _)|[(? & _ & [=] & _)|(res' & st2 & _ & X3 & _)]];
      rewrite X3 in Hin.
    + by apply elem_of_nil in Hin.
    + rewrite !elem_of_cons, elem_of_nil in Hin.
      destruct Hin as [[= -> ->]|[[= -> ->]|[]]]; [done|].
      pose proof (calls_whisper_cmd (wav_of (c_video cfg) (c_out_dir cfg))
                    (c_model cfg) (c_language cfg) (c_translate_to_en cfg)) as Hw.
      unfold calls in *. congruence.
  - rewrite Hrp in *. simpl in *.
    rewrite (Hx (with_trace (w_trace w3 ++ [EvLog ERROR "Fatal error: %s" [AExn e]]) w3)
               [EvLog ERROR "Fatal error: %s" [AExn e]] eq_refl eq_refl) in *.
    destruct Hcase as [(X3 & _)|[(e' & Hf & [= <-] & Tr3 & X3)|(? & ? & [=] & _)]];
      rewrite X3 in Hin.
    { by apply elem_of_nil in Hin. }
    apply list_elem_of_singleton in Hin. injection Hin as -> ->.
    split; [done|]. split; [done|].
    exists e, (w_tree w2). rewrite <- C2. split; [|by repeat split].
    apply (last_emitted w _ (pre ++ evs3 ++ [EvLog ERROR "Fatal error: %s" [AExn e]])).
    + simpl. rewrite T3, T2. by rewrite <- !(assoc_L (++)).
    + by rewrite !last_app.
Qed.

(** ffmpeg exits with status 1 in a run of [main] on a fresh directory. *)
Lemma failed_extraction_exits_1_witness :
  let w := Scenario.world_of Scenario.tree_fresh [""] false Scenario.both_tools in
  let cmd := ffmpeg_cmd Scenario.demo (wav_of Scenario.demo Scenario.out) in
  let run := main (Scenario.toy_exec 1 0) Scenario.toy_json Scenario.args_flags w in
  calls "ffmpeg" cmd ∧ Some 1%Z ≠ Some 0%Z ∧
  (cmd, Some 1%Z) ∈ execs (emitted w run.2) ∧
  run.1 = 1%Z ∧
  execs (emitted w run.2) = [(cmd, Some 1%Z)] ∧
  ∃ e t,
    last (emitted w run.2) = Some (EvLog ERROR "Fatal error: %s" [AExn e]) ∧
    failure_of cmd (Scenario.toy_exec 1 0 cmd (w_cwd w) t) = Some e ∧
    single_mkdir (w_tree w) t ∧
    w_tree run.2 = tree_after (Scenario.toy_exec 1 0 cmd (w_cwd w) t) t.
Proof.
  cbv zeta.
  assert ((ffmpeg_cmd Scenario.demo (wav_of Scenario.demo Scenario.out), Some 1%Z)
          ∈ execs (emitted
                     (Scenario.world_of Scenario.tree_fresh [""] false
                        Scenario.both_tools)
                     (main (Scenario.toy_exec 1 0) Scenario.toy_json
                        Scenario.args_flags
                        (Scenario.world_of Scenario.tree_fresh [""] false
                           Scenario.both_tools)).2)) as Hin.
  { vm_compute. apply list_elem_of_here. }
  split; [reflexivity|]. split; [done|]. split; [exact Hin|].
  apply (failed_extraction_exits_1 (Scenario.toy_exec 1 0) Scenario.toy_json
           Scenario.args_flags
           (Scenario.world_of Scenario.tree_fresh [""] false Scenario.both_tools)
           (ffmpeg_cmd Scenario.demo (wav_of Scenario.demo Scenario.out))
           (Some 1%Z)); [reflexivity|done|exact Hin].
Defined.

(** ** Relocating the outputs of whisper *)

Section RenameFrame.

Implicit Types (t : tree) (k src dst : list string).

Lemma prefix_snoc_inv (l D : list string) x :
  l `prefix_of` D ++ [x] → l = D ++ [x] ∨ l `prefix_of` D.
Proof.
  intros [r Hr]. destruct r as [|z r _] using rev_ind.
  - left. by rewrite app_nil_r in Hr.
  - right. rewrite (assoc_L (++)) in Hr. apply app_inj_tail in Hr as [-> _].
    by apply prefix_app_r.
Qed.

Lemma prefix_snoc_snoc (C : list string) a b :
  C ++ [a] `prefix_of` C ++ [b] → a = b.
Proof.
  intros H. apply prefix_app_inv in H. destruct H as [r Hr].
  by injection Hr.
Qed.

Lemma move_tree_lookup_other t src dst k :
  ¬ src `prefix_of` k → ¬ dst `prefix_of` k →
  move_tree t src dst !! k = t !! k.
Proof.
  intros Hs Hd. unfold move_tree.
  destruct (t !! k) as [n|] eqn:Hk.
  - apply lookup_union_Some_l. by apply map_lookup_filter_Some_2.
  - apply lookup_union_None. split.
    + apply map_lookup_filter_None. by left.
    + apply not_elem_of_list_to_map_1. rewrite <- list_fmap_compose.
      intros Hin. apply list_elem_of_fmap in Hin as ([k' n'] & -> & _).
      apply Hd. simpl. unfold rebase. by apply prefix_app_r.
Qed.

(** What a successful rename leaves as it was, present or absent: every
    path outside the source and the destination. *)
Lemma rename_lookup_other t src dst t' k :
  rename t src dst = Some t' →
  k ≠ src → ¬ dst `prefix_of` k →
  (src `prefix_of` k → src `prefix_of` dst) →
  t' !! k = t !! k.
Proof.
  unfold rename. intros Hr Hsrc Hdst Hunder.
  destruct (t !! src) as [nsrc|] eqn:Es; [|done].
  case_bool_decide as Hsame; [by simplify_eq|].
  destruct (parent_is_dir t dst); simpl in Hr; [|done].
  assert (k ≠ dst) as Hne by (by intros ->).
  destruct nsrc as [c|].
  - assert (t' = <[dst := File c]> (delete src t)) as ->.
    { destruct (t !! dst) as [[]|]; by simplify_eq. }
    rewrite lookup_insert_ne by done. by rewrite lookup_delete_ne.
  - unfold under in Hr. case_bool_decide as Hu; [done|].
    assert (t' = move_tree t src dst) as ->.
    { destruct (t !! dst) as [[]|]; [done| |by simplify_eq].
      destruct (has_children t dst); by simplify_eq. }
    apply move_tree_lookup_other; [|done]. intros Hp. by apply Hu, Hunder.
Qed.

(** A rename into a directory leaves that directory in place. *)
Lemma rename_keeps_parent t src D x t' :
  rename t src (D ++ [x]) = Some t' →
  t !! D = Some Dir → t' !! D = Some Dir.
Proof.
  intros Hr HD. destruct (decide (src = D)) as [->|Hne].
  - exfalso. unfold rename in Hr. rewrite HD in Hr.
    rewrite bool_decide_eq_false_2 in Hr.
    2:{ intros H. apply (f_equal length) in H.
        rewrite List.length_app in H. simpl in H. lia. }
    destruct (parent_is_dir t (D ++ [x])); simpl in Hr; [|done].
    unfold under in Hr.
    rewrite bool_decide_eq_true_2 in Hr by (by apply prefix_app_r). done.
  - eapply rename_keeps; eauto.
    + intros H. apply (f_equal length) in H.
      rewrite List.length_app in H. simpl in H. lia.
    + intros H. by apply prefix_app_r.
Qed.

(** Renaming a regular file into a directory, onto a free name or onto
    another regular file: the file is at the destination afterwards. *)
Lemma rename_file_replaces t src D x c :
  t !! src = Some (File c) → t !! D = Some Dir →
  t !! (D ++ [x]) ≠ Some Dir →
  ∃ t', rename t src (D ++ [x]) = Some t' ∧
        t' !! (D ++ [x]) = Some (File c) ∧
        (src ≠ D ++ [x] → t' !! src = None).
Proof.
  intros Hs HD Hd. unfold rename. rewrite Hs.
  case_bool_decide as Hsame.
  { exists t. split; [done|]. split; [by rewrite <- Hsame|done]. }
  assert (parent_is_dir t (D ++ [x]) = true) as ->.
  { unfold parent_is_dir. destruct (D ++ [x]) eqn:E.
    - by destruct D.
    - rewrite <- E, removelast_last. unfold is_dir.
      by apply bool_decide_eq_true_2. }
  simpl. exists (<[D ++ [x] := File c]> (delete src t)).
  split; [by destruct (t !! (D ++ [x])) as [[]|]|].
  split; [by rewrite lookup_insert_eq|].
  intros _. rewrite lookup_insert_ne by done. by rewrite lookup_delete_eq.
Qed.

End RenameFrame.

Section MoveOutputs.

Lemma app_inv_head_str (s a b : string) : s +:+ a = s +:+ b → a = b.
Proof.
  induction s as [|c s IH]; [done|].
  rewrite !app_cons. intros [= H]. by apply IH.
Qed.

Lemma whisper_ext_nonempty s ext : ext ∈ WHISPER_EXTS → s +:+ ext ≠ "".
Proof.
  intros Hext. apply app_nonempty. revert Hext. unfold WHISPER_EXTS.
  rewrite !elem_of_cons, elem_of_nil.
  by intros [->|[->|[->|[->|[->|[]]]]]].
Qed.

(** One turn of the loop of [move_whisper_outputs]: nothing when the
    output is not in the working directory; otherwise the rename and its
    record, or the warning when the rename fails. *)
Lemma move_one_output_run s target lg ext w :
  s +:+ ext ≠ "" →
  let src := w_cwd w ++ [s +:+ ext] in
  let dst := resolve (w_cwd w) target ++ [s +:+ ext] in
  let srcp := mkPath false [s +:+ ext] in
  let dstp := joinname target (s +:+ ext) in
  move_one_output s target lg ext w
  = (Ret tt,
     match w_tree w !! src with
     | None => w
     | Some _ =>
         match rename (w_tree w) src dst with
         | Some t' =>
             with_trace
               (w_trace w ++ [EvLog DEBUG "Moved %s -> %s" [APath srcp; APath dstp]])
               (with_tree t' w)
         | None =>
             with_trace
               (w_trace w ++ [EvLog WARNING "Could not move %s to %s: %s"
                                [APath srcp; APath dstp; AExn (OSError "replace")]])
               w
         end
     end).
Proof.
  intros Hne. cbv zeta. unfold move_one_output.
  unfold bind at 1, path_exists. simpl.
  change (name (mkPath false [s +:+ ext])) with (s +:+ ext).
  change (resolve (w_cwd w) (mkPath false [s +:+ ext]))
    with (w_cwd w ++ [s +:+ ext]).
  unfold exists_.
  destruct (w_tree w !! (w_cwd w ++ [s +:+ ext])) as [n|] eqn:Hs.
  - rewrite bool_decide_eq_true_2 by eauto.
    unfold try_except, bind, path_replace, fs_try.
    change (resolve (w_cwd w) (mkPath false [s +:+ ext]))
      with (w_cwd w ++ [s +:+ ext]).
    rewrite resolve_joinname by done.
    by destruct (rename _ _ _).
  - rewrite bool_decide_eq_false_2 by (by intros [? ?]). done.
Qed.

(** The same turn, as a relation between the worlds before and after. *)
Lemma move_one_output_step s target lg ext w :
  s +:+ ext ≠ "" →
  ∃ w1,
    move_one_output s target lg ext w = (Ret tt, w1) ∧
    w_cwd w1 = w_cwd w ∧ w_stdin w1 = w_stdin w ∧
    (∃ evs, w_trace w1 = w_trace w ++ evs ∧ execs evs = [] ∧ prompts evs = []) ∧
    (w_tree w1 = w_tree w
     ∨ rename (w_tree w) (w_cwd w ++ [s +:+ ext])
         (resolve (w_cwd w) target ++ [s +:+ ext]) = Some (w_tree w1)).
Proof.
  intros Hne. rewrite move_one_output_run by done. cbv zeta.
  eexists. split; [reflexivity|].
  destruct (w_tree w !! (w_cwd w ++ [s +:+ ext])) as [n|].
  - destruct (rename _ _ _) as [t'|] eqn:Hr; simpl.
    + do 2 (split; [done|]). split; [by eexists [_]|]. by right.
    + do 2 (split; [done|]). split; [by eexists [_]|]. by left.
  - do 2 (split; [done|]). split; [|by left].
    exists []. by rewrite app_nil_r.
Qed.

(** The whole loop, over any list of extensions: it returns, and the
    changes it makes to the file tree are the renames of its turns. *)
Lemma for_each_move_frame s target lg l : ∀ w,
  Forall (λ ext, s +:+ ext ≠ "") l →
  ∃ w',
    for_each (move_one_output s target lg) l w = (Ret tt, w') ∧
    w_cwd w' = w_cwd w ∧ w_stdin w' = w_stdin w ∧
    (∃ evs, w_trace w' = w_trace w ++ evs ∧ execs evs = [] ∧ prompts evs = []) ∧
    ∀ k,
      (∀ ext, ext ∈ l →
         ¬ (w_cwd w ++ [s +:+ ext]) `prefix_of` k ∧
         ¬ (resolve (w_cwd w) target ++ [s +:+ ext]) `prefix_of` k) →
      w_tree w' !! k = w_tree w !! k.
Proof.
  induction l as [|ext l IH]; intros w Hne.
  - exists w. simpl. do 3 (split; [done|]).
    split; [exists []; by rewrite app_nil_r|done].
  - apply Forall_cons in Hne as [Hext Hne].
    destruct (move_one_output_step s target lg ext w Hext)
      as (w1 & Hrun & C1 & I1 & (evs1 & T1 & X1 & P1) & Htree).
    destruct (IH w1 Hne) as (w' & Hrest & C2 & I2 & (evs2 & T2 & X2 & P2) & Hframe).
    exists w'. split.
    { simpl. by erewrite bind_ret_eq by exact Hrun. }
    split; [congruence|]. split; [congruence|]. split.
    { exists (evs1 ++ evs2). split; [by rewrite T2, T1, (assoc_L (++))|].
      unfold prompts in *. by rewrite execs_app, omap_app, X1, X2, P1, P2. }
    intros k Hk. rewrite Hframe.
    2:{ intros ext' Hin. rewrite C1. apply Hk. by right. }
    destruct Htree as [->|Hr]; [done|].
    destruct (Hk ext) as [Hs Hd]; [by left|].
    eapply rename_lookup_other; eauto.
    + intros ->. by apply Hs.
    + intros Hp. by destruct Hs.
Qed.

Lemma whisper_exts_nonempty s :
  Forall (λ ext, s +:+ ext ≠ "") WHISPER_EXTS.
Proof. apply Forall_forall. intros ext Hext. by apply whisper_ext_nonempty. Qed.

End MoveOutputs.

(** X9. [move_whisper_outputs] always returns: a move that fails is logged
    and the loop goes on.  It spawns nothing and reads nothing, and it
    leaves every path of the file tree as it was, present or absent, that
    lies outside the five outputs it looks for in the working directory and
    outside their destinations in the target directory. *)
Theorem move_whisper_outputs_frame video_base target_dir lg w :
  ∃ w',
    move_whisper_outputs video_base target_dir lg w = (Ret tt, w') ∧
    w_cwd w' = w_cwd w ∧ w_stdin w' = w_stdin w ∧
    execs (emitted w w') = [] ∧ prompts (emitted w w') = [] ∧
    ∀ k,
      (∀ ext, ext ∈ WHISPER_EXTS →
         ¬ output_src w video_base ext `prefix_of` k ∧
         ¬ output_dst w video_base target_dir ext `prefix_of` k) →
      w_tree w' !! k = w_tree w !! k.
Proof.
  unfold move_whisper_outputs.
  destruct (for_each_move_frame (stem video_base) target_dir lg WHISPER_EXTS w
              (whisper_exts_nonempty _))
    as (w' & Hrun & C & I & (evs & T & X & P) & Hframe).
  exists w'. split; [done|]. split; [done|]. split; [done|].
  rewrite (emitted_app _ _ _ T). split; [done|]. split; [done|].
  intros k Hk. by apply Hframe.
Qed.

Section MoveOutputsEffect.

Lemma for_each_app (body : string → M unit) l1 l2 w w1 :
  for_each body l1 w = (Ret tt, w1) →
  for_each body (l1 ++ l2) w = for_each body l2 w1.
Proof.
  revert w. induction l1 as [|x l1 IH]; intros w; simpl.
  - by intros [= ->].
  - rewrite !bind_run. destruct (body x w) as [[[]|e] w0]; [|done]. apply IH.
Qed.

Lemma NoDup_WHISPER_EXTS : NoDup WHISPER_EXTS.
Proof. by apply (bool_decide_unpack _). Qed.

(** The rename of one output leaves another output alone, at its source
    and at its destination, and the target directory in place. *)
Lemma rename_other_output t (C D : list string) s ext ext' t' :
  ext' ≠ ext →
  rename t (C ++ [s +:+ ext']) (D ++ [s +:+ ext']) = Some t' →
  (∀ n, t !! (C ++ [s +:+ ext]) = Some n → t' !! (C ++ [s +:+ ext]) = Some n) ∧
  (t !! D = Some Dir → t' !! D = Some Dir) ∧
  t' !! (D ++ [s +:+ ext]) = t !! (D ++ [s +:+ ext]) ∧
  (¬ D `prefix_of` C → t' !! (C ++ [s +:+ ext]) = t !! (C ++ [s +:+ ext])).
Proof.
  intros Hext Hr.
  assert (s +:+ ext' ≠ s +:+ ext) as Hx.
  { intros H. by apply app_inv_head_str in H. }
  assert (∀ A B : list string, A ++ [s +:+ ext] ≠ B ++ [s +:+ ext']) as Hlast.
  { intros A B H. apply app_inj_tail in H as [_ H]. by symmetry in H. }
  assert (∀ A : list string,
            ¬ A ++ [s +:+ ext'] `prefix_of` A ++ [s +:+ ext]) as Hsib.
  { intros A H. by apply prefix_snoc_snoc in H. }
  split; [|split; [|split]].
  - intros n Hn. apply (rename_keeps _ _ _ _ _ _ Hr Hn).
    + apply Hlast.
    + apply Hlast.
    + intros H. by destruct (Hsib C).
  - apply (rename_keeps_parent _ _ _ _ _ Hr).
  - apply (rename_lookup_other _ _ _ _ _ Hr).
    + apply Hlast.
    + apply Hsib.
    + intros H. apply prefix_snoc_inv in H as [H|H].
      * by destruct (Hlast D C).
      * by apply prefix_app_r.
  - intros HD. apply (rename_lookup_other _ _ _ _ _ Hr).
    + apply Hlast.
    + intros H. apply prefix_snoc_inv in H as [H|H].
      * by destruct (Hlast C D).
      * apply HD. destruct H as [r ->].
        rewrite <- (assoc_L (++)). by apply prefix_app_r.
    + intros H. by destruct (Hsib C).
Qed.

Lemma for_each_move_others s target lg ext l : ∀ w,
  ext ∉ l → Forall (λ e, s +:+ e ≠ "") l →
  ∃ w',
    for_each (move_one_output s target lg) l w = (Ret tt, w') ∧
    w_cwd w' = w_cwd w ∧
    (∀ n, w_tree w !! (w_cwd w ++ [s +:+ ext]) = Some n →
          w_tree w' !! (w_cwd w ++ [s +:+ ext]) = Some n) ∧
    (w_tree w !! resolve (w_cwd w) target = Some Dir →
     w_tree w' !! resolve (w_cwd w) target = Some Dir) ∧
    w_tree w' !! (resolve (w_cwd w) target ++ [s +:+ ext])
    = w_tree w !! (resolve (w_cwd w) target ++ [s +:+ ext]) ∧
    (¬ resolve (w_cwd w) target `prefix_of` w_cwd w →
     w_tree w' !! (w_cwd w ++ [s +:+ ext])
     = w_tree w !! (w_cwd w ++ [s +:+ ext])).
Proof.
  induction l as [|ext' l IH]; intros w Hnin Hne.
  - exists w. by repeat split.
  - apply not_elem_of_cons in Hnin as [Hext Hnin].
    apply Forall_cons in Hne as [Hext' Hne].
    destruct (move_one_output_step s target lg ext' w Hext')
      as (w1 & Hrun & C1 & _ & _ & Htree).
    destruct (IH w1 Hnin Hne) as (w' & Hrest & C2 & Hsrc & Hdir & Hdst & Hgone).
    rewrite C1 in *.
    exists w'. split.
    { simpl. by erewrite bind_ret_eq by exact Hrun. }
    split; [congruence|].
    destruct Htree as [Ht|Hr].
    { rewrite Ht in *. by repeat split. }
    destruct (rename_other_output _ _ _ s ext ext' _ (not_eq_sym Hext) Hr)
      as (K1 & K2 & K3 & K4).
    split; [intros n Hn; by apply Hsrc, K1|].
    split; [intros HD; by apply Hdir, K2|].
    split; [by rewrite Hdst, K3|].
    intros HD. by rewrite (Hgone HD), (K4 HD).
Qed.

End MoveOutputsEffect.

(** X10. An output of whisper that is a regular file in the working
    directory ends up in the target directory: when that directory exists
    and holds no directory of the output's name, the file is there after
    [move_whisper_outputs], with its content, in the place of any regular
    file of that name that was there before; and it is gone from the
    working directory, provided the target directory is not the working
    directory itself or one of its ancestors. *)
Theorem move_whisper_outputs_replaces video_base target_dir lg w ext c :
  ext ∈ WHISPER_EXTS →
  w_tree w !! output_src w video_base ext = Some (File c) →
  w_tree w !! resolve (w_cwd w) target_dir = Some Dir →
  w_tree w !! output_dst w video_base target_dir ext ≠ Some Dir →
  ∃ w',
    move_whisper_outputs video_base target_dir lg w = (Ret tt, w') ∧
    w_tree w' !! output_dst w video_base target_dir ext = Some (File c) ∧
    (¬ resolve (w_cwd w) target_dir `prefix_of` w_cwd w →
     w_tree w' !! output_src w video_base ext = None).
Proof.
  unfold output_src, output_dst, move_whisper_outputs.
  set (s := stem video_base). intros Hext Hsrc Hdir Hdst.
  pose proof NoDup_WHISPER_EXTS as Hnd.
  pose proof (whisper_exts_nonempty s) as Hne.
  apply list_elem_of_split in Hext as (l1 & l2 & Hl).
  rewrite Hl in *.
  apply NoDup_app in Hnd as (_ & Hn1 & Hnd).
  apply NoDup_cons in Hnd as [Hn2 _].
  apply Forall_app in Hne as [Hne1 Hne].
  apply Forall_cons in Hne as [Hnex Hne2].
  assert (ext ∉ l1) as Hn1'.
  { intros Hin. apply (Hn1 ext Hin). by left. }
  destruct (for_each_move_others s target_dir lg ext l1 w Hn1' Hne1)
    as (w1 & Hrun1 & C1 & Hs1 & Hd1 & Ht1 & _).
  rewrite (for_each_app _ _ _ _ _ Hrun1). simpl.
  rewrite bind_run, move_one_output_run by done. cbv zeta.
  rewrite C1. rewrite (Hs1 _ Hsrc).
  destruct (rename_file_replaces (w_tree w1) (w_cwd w ++ [s +:+ ext])
              (resolve (w_cwd w) target_dir) (s +:+ ext) c)
    as (t' & Hr & Harr & Hgone); [by apply Hs1|by apply Hd1|by rewrite Ht1|].
  rewrite Hr.
  set (w2 := with_trace _ _).
  destruct (for_each_move_others s target_dir lg ext l2 w2 Hn2 Hne2)
    as (w' & Hrun2 & C2 & _ & _ & Ht2 & Hs2).
  change (w_cwd w2) with (w_cwd w1) in *. rewrite C1 in *.
  change (w_tree w2) with t' in *.
  exists w'. split; [exact Hrun2|]. split; [by rewrite Ht2|].
  intros HD. rewrite (Hs2 HD). apply Hgone.
  intros H. apply HD. apply app_inj_tail in H as [H _]. by rewrite <- H.
Qed.

(** A fresh "demo.srt" of whisper replaces the one already in the output
    directory. *)
Lemma move_whisper_outputs_replaces_witness :
  let t := <[ ["home"; "demo.srt"] := File "new" ]> Scenario.tree_done in
  let w := Scenario.world_of t [] false Scenario.both_tools in
  let base := mkPath false ["demo"] in
  ".srt" ∈ WHISPER_EXTS ∧
  w_tree w !! output_src w base ".srt" = Some (File "new") ∧
  w_tree w !! resolve (w_cwd w) Scenario.out = Some Dir ∧
  w_tree w !! output_dst w base Scenario.out ".srt" = Some (File "1") ∧
  ∃ w',
    move_whisper_outputs base Scenario.out Scenario.logger0 w = (Ret tt, w') ∧
    w_tree w' !! output_dst w base Scenario.out ".srt" = Some (File "new") ∧
    (¬ resolve (w_cwd w) Scenario.out `prefix_of` w_cwd w →
     w_tree w' !! output_src w base ".srt" = None).
Proof.
  cbv zeta. split; [apply list_elem_of_here|].
  split; [by vm_compute|]. split; [by vm_compute|]. split; [by vm_compute|].
  apply move_whisper_outputs_replaces;
    [apply list_elem_of_here|by vm_compute|by vm_compute|].
  intros H. by vm_compute in H.
Defined.

(** X11. Without a target directory nothing is moved: when the target of
    [move_whisper_outputs] is not an existing directory the file tree is
    left as it is, the function returns all the same, and each output found
    in the working directory is reported by a warning. *)
Theorem move_whisper_outputs_needs_directory video_base target_dir lg w :
  w_tree w !! resolve (w_cwd w) target_dir ≠ Some Dir →
  ∃ w',
    move_whisper_outputs video_base target_dir lg w = (Ret tt, w') ∧
    w_tree w' = w_tree w ∧
    ∀ ext, ext ∈ WHISPER_EXTS →
           is_Some (w_tree w !! output_src w video_base ext) →
           resolve (w_cwd w) target_dir ≠ w_cwd w →
           EvLog WARNING "Could not move %s to %s: %s"
             [APath (mkPath false [stem video_base +:+ ext]);
              APath (joinname target_dir (stem video_base +:+ ext));
              AExn (OSError "replace")] ∈ emitted w w'.
Proof.
  intros Hdir. unfold move_whisper_outputs, output_src.
  set (s := stem video_base).
  pose proof (whisper_exts_nonempty s) as Hne.
  assert (∀ l w0, Forall (λ e, s +:+ e ≠ "") l →
            w_tree w0 = w_tree w → w_cwd w0 = w_cwd w →
            ∃ w' evs,
              for_each (move_one_output s target_dir lg) l w0 = (Ret tt, w') ∧
              w_tree w' = w_tree w ∧ w_trace w' = w_trace w0 ++ evs ∧
              ∀ ext, ext ∈ l →
                is_Some (w_tree w !! (w_cwd w ++ [s +:+ ext])) →
                resolve (w_cwd w) target_dir ≠ w_cwd w →
                EvLog WARNING "Could not move %s to %s: %s"
                  [APath (mkPath false [s +:+ ext]);
                   APath (joinname target_dir (s +:+ ext));
                   AExn (OSError "replace")] ∈ evs) as Hloop.
  { induction l as [|ext l IH]; intros w0 Hl Ht Hc.
    - exists w0, []. split; [done|]. split; [done|].
      split; [by rewrite app_nil_r|]. intros ext Hin. by apply elem_of_nil in Hin.
    - apply Forall_cons in Hl as [Hext Hl]. simpl.
      rewrite bind_run, move_one_output_run by done. cbv zeta.
      rewrite Ht, Hc.
      destruct (w_tree w !! (w_cwd w ++ [s +:+ ext])) as [n|] eqn:Hs.
      + destruct (rename (w_tree w) (w_cwd w ++ [s +:+ ext])
                    (resolve (w_cwd w) target_dir ++ [s +:+ ext]))
          as [t'|] eqn:Hr.
        * assert (t' = w_tree w ∧
                  resolve (w_cwd w) target_dir = w_cwd w) as [-> Hsame].
          { unfold rename in Hr. rewrite Hs in Hr.
            case_bool_decide as Heq.
            - split; [by simplify_eq|].
              apply app_inj_tail in Heq as [Heq _]. by symmetry.
            - exfalso.
              assert (parent_is_dir (w_tree w)
                        (resolve (w_cwd w) target_dir ++ [s +:+ ext]) = false)
                as Hp.
              { unfold parent_is_dir.
                destruct (resolve (w_cwd w) target_dir ++ [s +:+ ext]) eqn:E.
                - by destruct (resolve (w_cwd w) target_dir).
                - rewrite <- E, removelast_last. unfold is_dir.
                  by apply bool_decide_eq_false_2. }
              by rewrite Hp in Hr. }
          set (w1 := with_trace _ _).
          destruct (IH w1 Hl eq_refl Hc) as (w' & evs & Hrun & Ht' & Htr & Hw).
          eexists w', (_ :: evs). split; [exact Hrun|]. split; [done|]. split.
          { rewrite Htr. unfold w1. simpl. by rewrite <- (assoc_L (++)). }
          intros ext' Hin Hsome Hneq. done.
        * set (w1 := with_trace _ _).
          destruct (IH w1 Hl Ht Hc) as (w' & evs & Hrun & Ht' & Htr & Hw).
          eexists w', (_ :: evs). split; [exact Hrun|]. split; [done|]. split.
          { rewrite Htr. unfold w1. simpl. by rewrite <- (assoc_L (++)). }
          intros ext' Hin Hsome Hneq.
          apply elem_of_cons in Hin as [->|Hin]; [by left|].
          right. by apply Hw.
      + destruct (IH w0 Hl Ht Hc) as (w' & evs & Hrun & Ht' & Htr & Hw).
        exists w', evs. split; [exact Hrun|]. split; [done|]. split; [done|].
        intros ext' Hin Hsome Hneq.
        apply elem_of_cons in Hin as [->|Hin].
        * rewrite Hs in Hsome. by destruct Hsome.
        * by apply Hw. }
  destruct (Hloop WHISPER_EXTS w Hne eq_refl eq_refl)
    as (w' & evs & Hrun & Ht & Htr & Hw).
  exists w'. split; [done|]. split; [done|].
  rewrite (emitted_app _ _ _ Htr). exact Hw.
Qed.

(** The output directory is missing: "demo.srt" stays in the working
    directory. *)
Lemma move_whisper_outputs_needs_directory_witness :
  let t := <[ ["home"; "demo.srt"] := File "new" ]> Scenario.tree_fresh in
  let w := Scenario.world_of t [] false Scenario.both_tools in
  let base := mkPath false ["demo"] in
  w_tree w !! resolve (w_cwd w) Scenario.out ≠ Some Dir ∧
  ∃ w',
    move_whisper_outputs base Scenario.out Scenario.logger0 w = (Ret tt, w') ∧
    w_tree w' = w_tree w ∧
    ∀ ext, ext ∈ WHISPER_EXTS →
           is_Some (w_tree w !! output_src w base ext) →
           resolve (w_cwd w) Scenario.out ≠ w_cwd w →
           EvLog WARNING "Could not move %s to %s: %s"
             [APath (mkPath false [stem base +:+ ext]);
              APath (joinname Scenario.out (stem base +:+ ext));
              AExn (OSError "replace")] ∈ emitted w w'.
Proof.
  cbv zeta.
  assert (w_tree (Scenario.world_of
                    (<[ ["home"; "demo.srt"] := File "new" ]> Scenario.tree_fresh)
                    [] false Scenario.both_tools)
          !! resolve (w_cwd (Scenario.world_of
                               (<[ ["home"; "demo.srt"] := File "new" ]>
                                  Scenario.tree_fresh)
                               [] false Scenario.both_tools)) Scenario.out
          = None) as Hnone by by vm_compute.
  split; [by rewrite Hnone|].
  apply move_whisper_outputs_needs_directory. by rewrite Hnone.
Defined.

(** ** Language detection and cleanup *)

Section Language.

Variable json_load : string → option pyval.

Lemma language_in_truthy data v : language_in data = Some v → truthy v = true.
Proof.
  unfold language_in. destruct data; try done.
  destruct (assoc "language" items) as [v1|].
  - destruct (truthy v1) eqn:E1; [by intros [= <-]|].
    destruct (assoc "language_detected" items) as [v2|]; [|done].
    destruct (truthy v2) eqn:E2; [by intros [= <-]|done].
  - destruct (assoc "language_detected" items) as [v2|]; [|done].
    destruct (truthy v2) eqn:E2; [by intros [= <-]|done].
Qed.

Lemma language_in_fields items :
  language_in (PyDict items)
  = if truthy (field items "language") then Some (field items "language")
    else if truthy (field items "language_detected")
         then Some (field items "language_detected")
         else None.
Proof.
  unfold language_in, field.
  destruct (assoc "language" items) as [v1|]; simpl.
  - destruct (truthy v1); [done|].
    by destruct (assoc "language_detected" items) as [v2|].
  - by destruct (assoc "language_detected" items) as [v2|].
Qed.

End Language.

(** X12. [find_detected_language] only reads: whatever it returns or
    raises, it leaves the world exactly as it was, and logs nothing.  A
    language it returns is never a false value (no empty string, no null):
    the caller's [or "Unknown"] fires for [None] only.  The one exception
    that can leave it is the ValueError of [with_suffix], for a path without
    a final component; whatever goes wrong with the file itself is
    swallowed. *)
Theorem find_detected_language_only_reads json_load srt_base lg w :
  let run := find_detected_language json_load srt_base lg w in
  run.2 = w ∧
  (∀ v, run.1 = Ret (Some v) → truthy v = true) ∧
  (∀ e, run.1 = Raise e → name srt_base = "" ∧ ∃ msg, e = ValueError msg).
Proof.
  cbv zeta.
  destruct (with_suffix srt_base ".json") as [jp|] eqn:Hp.
  - rewrite (find_detected_language_reads json_load srt_base lg jp w Hp). simpl.
    split; [done|]. split; [|done].
    intros v [= Hv]. unfold recorded_language in Hv.
    destruct (w_tree w !! resolve (w_cwd w) jp) as [[text|]|]; try done.
    destruct (json_load text) as [data|]; [|done].
    by eapply language_in_truthy.
  - unfold find_detected_language. rewrite Hp. simpl.
    split; [done|]. split; [done|]. intros e [= <-]. split; [|by eexists].
    unfold with_suffix in Hp.
    destruct (Str.eqb (name srt_base) "") eqn:E; [|done].
    by apply eqb_true in E.
Qed.

(** X13. Which field of the companion JSON counts.  When the file holds a
    dictionary, [find_detected_language] returns its [language] field if
    that is a true value; otherwise (the field is missing, null, or an empty
    string) its [language_detected] field if that is a true value; otherwise
    [None].  [language] wins whenever it is usable. *)
Theorem language_field_precedence json_load srt_base lg json_path w text items :
  with_suffix srt_base ".json" = Some json_path →
  w_tree w !! resolve (w_cwd w) json_path = Some (File text) →
  json_load text = Some (PyDict items) →
  let result := (find_detected_language json_load srt_base lg w).1 in
  (truthy (field items "language") = true →
   result = Ret (Some (field items "language"))) ∧
  (truthy (field items "language") = false →
   truthy (field items "language_detected") = true →
   result = Ret (Some (field items "language_detected"))) ∧
  (truthy (field items "language") = false →
   truthy (field items "language_detected") = false →
   result = Ret None).
Proof.
  intros Hp Hf Hj. cbv zeta.
  rewrite (find_detected_language_reads json_load srt_base lg json_path w Hp).
  simpl. unfold recorded_language. rewrite Hf, Hj, language_in_fields.
  split; [by intros ->|]. split; by intros -> ->.
Qed.

(** An empty [language] gives way to the legacy field. *)
Lemma language_field_precedence_witness :
  let json (s : string) :=
    Some (PyDict [("text", PyStr "bonjour"); ("language", PyStr "");
                  ("language_detected", PyStr s)]) in
  let w := Scenario.world_of Scenario.tree_done [] false Scenario.both_tools in
  let base := joinname Scenario.out "demo" in
  let json_path := mkPath true ["home"; "demo"; "demo.json"] in
  let items := [("text", PyStr "bonjour"); ("language", PyStr "");
                ("language_detected", PyStr "l=fr")] in
  with_suffix base ".json" = Some json_path ∧
  w_tree w !! resolve (w_cwd w) json_path = Some (File "l=fr") ∧
  json "l=fr" = Some (PyDict items) ∧
  truthy (field items "language") = false ∧
  truthy (field items "language_detected") = true ∧
  (find_detected_language json base Scenario.logger0 w).1
  = Ret (Some (PyStr "l=fr")).
Proof.
  cbv zeta. split; [reflexivity|]. split; [by vm_compute|].
  split; [reflexivity|]. split; [reflexivity|]. split; [reflexivity|].
  apply (language_field_precedence
           (λ s, Some (PyDict [("text", PyStr "bonjour"); ("language", PyStr "");
                               ("language_detected", PyStr s)]))
           (joinname Scenario.out "demo") Scenario.logger0
           (mkPath true ["home"; "demo"; "demo.json"])
           (Scenario.world_of Scenario.tree_done [] false Scenario.both_tools)
           "l=fr"
           [("text", PyStr "bonjour"); ("language", PyStr "");
            ("language_detected", PyStr "l=fr")]);
    [reflexivity|by vm_compute|reflexivity|reflexivity|reflexivity].
Defined.

(** X14. The cleanup step never fails and touches one path only.  With
    the clean flag off, or with nothing at the path of the audio file,
    [cleanup_wav] leaves the world exactly as it is.  A regular file there
    is removed.  Anything else there (a directory) stays: the failure of
    [unlink] becomes a warning.  Every other path of the file tree is as it
    was. *)
Theorem cleanup_wav_outcome clean wav_path lg w :
  let key := resolve (w_cwd w) wav_path in
  ∃ w',
    cleanup_wav clean wav_path lg w = (Ret tt, w') ∧
    (∀ k, k ≠ key → w_tree w' !! k = w_tree w !! k) ∧
    match clean, w_tree w !! key with
    | false, _ | true, None => w' = w
    | true, Some (File _) =>
        w_tree w' !! key = None ∧
        emitted w w' = [EvLog DEBUG "Temporary WAV removed." []]
    | true, Some Dir =>
        w_tree w' = w_tree w ∧
        emitted w w' = [EvLog WARNING "Failed to remove WAV: %s"
                          [AExn (OSError "unlink")]]
    end.
Proof.
  cbv zeta. unfold cleanup_wav. destruct clean; [|by exists w].
  unfold bind at 1, path_exists, exists_. simpl.
  destruct (w_tree w !! resolve (w_cwd w) wav_path) as [[c|]|] eqn:Hk.
  - rewrite bool_decide_eq_true_2 by eauto.
    unfold try_except, bind, path_unlink, fs_try, unlink. rewrite Hk. simpl.
    eexists. split; [reflexivity|]. simpl. split; [|split].
    + intros k Hne. by rewrite lookup_delete_ne.
    + by rewrite lookup_delete_eq.
    + by erewrite emitted_app by reflexivity.
  - rewrite bool_decide_eq_true_2 by eauto.
    unfold try_except, bind, path_unlink, fs_try, unlink. rewrite Hk. simpl.
    eexists. split; [reflexivity|]. simpl. split; [done|]. split; [done|].
    by erewrite emitted_app by reflexivity.
  - rewrite bool_decide_eq_false_2 by (by intros [? ?]).
    by exists w.
Qed.

(** ** Rules for relations that are not lenient *)

Section Steps.

Context (R : world → world → Prop) `{!PreOrder R}.

Lemma steps_ret {A} (a : A) : steps R (ret a).
Proof. intros w. reflexivity. Qed.

Lemma steps_raise {A} e : steps R (raise e : M A).
Proof. intros w. reflexivity. Qed.

Lemma steps_bind {A B} (c : M A) (k : A → M B) :
  steps R c → (∀ a, steps R (k a)) → steps R (bind c k).
Proof.
  intros Hc Hk w. rewrite bind_run. specialize (Hc w).
  destruct (c w) as [[a|e] w1]; simpl in *; [|done].
  etrans; [exact Hc|apply Hk].
Qed.

Lemma steps_try {A} (c : M A) (h : exn → M A) :
  steps R c → (∀ e, steps R (h e)) → steps R (try_except c h).
Proof.
  intros Hc Hh w. unfold try_except. specialize (Hc w).
  destruct (c w) as [[a|e] w1]; simpl in *; [done|].
  destruct (is_Exception e); [|done].
  etrans; [exact Hc|apply Hh].
Qed.

Lemma steps_for_each (body : string → M unit) l :
  (∀ x, steps R (body x)) → steps R (for_each body l).
Proof.
  intros Hb. induction l as [|x l IH]; simpl.
  - apply steps_ret.
  - apply steps_bind; [apply Hb|intros _; apply IH].
Qed.

(** Reading the world changes nothing. *)
Lemma steps_isatty : steps R isatty.
Proof. intros w. reflexivity. Qed.
Lemma steps_getcwd : steps R getcwd.
Proof. intros w. reflexivity. Qed.
Lemma steps_which n : steps R (which n).
Proof. intros w. reflexivity. Qed.
Lemma steps_path_resolve p : steps R (path_resolve p).
Proof. intros w. reflexivity. Qed.
Lemma steps_path_exists p : steps R (path_exists p).
Proof. intros w. reflexivity. Qed.
Lemma steps_read_text p : steps R (read_text p).
Proof. intros w. unfold read_text. by destruct (read _ _). Qed.
Lemma steps_sys_exit {A} c : steps R (sys_exit c : M A).
Proof. intros w. reflexivity. Qed.

End Steps.

Create HintDb steps discriminated.

Global Hint Resolve steps_isatty steps_getcwd steps_which steps_path_resolve
  steps_path_exists steps_read_text steps_sys_exit steps_raise : steps.

Ltac steps_step :=
  lazymatch goal with
  | |- steps _ (bind _ _) => apply steps_bind; [try apply _| |intros ?]
  | |- steps _ (ret _) => apply steps_ret; apply _
  | |- steps _ (try_except _ _) => apply steps_try; [try apply _| |intros ?]
  | |- steps _ (for_each _ _) => apply steps_for_each; [try apply _|intros ?]
  | |- steps _ (if ?b then _ else _) => destruct b
  | |- steps _ (match ?x with _ => _ end) => destruct x
  | |- _ => solve [eauto with steps typeclass_instances]
  end.

Ltac steps_auto := cbv zeta; repeat steps_step.

Section Unattended.

Global Instance unattended_preorder : PreOrder unattended.
Proof.
  split.
  - intros w. repeat split. exists []. by rewrite app_nil_r.
  - intros w1 w2 w3 (I1 & Y1 & e1 & T1 & P1) (I2 & Y2 & e2 & T2 & P2).
    split; [congruence|]. split; [congruence|].
    exists (e1 ++ e2). split; [by rewrite T2, T1, (assoc_L (++))|].
    unfold prompts in *. by rewrite omap_app, P1, P2.
Qed.

Global Instance seated_preorder : PreOrder seated.
Proof.
  split.
  - by intros w.
  - intros w1 w2 w3 (Y1 & C1 & P1) (Y2 & C2 & P2). repeat split; congruence.
Qed.

Lemma unattended_log lg lvl msg args : steps unattended (log lg lvl msg args).
Proof. intros w. repeat split. by exists [EvLog lvl msg args]. Qed.

Lemma unattended_print text : steps unattended (print text).
Proof. intros w. repeat split. by exists [EvPrint text]. Qed.

Lemma unattended_now : steps unattended now.
Proof.
  intros w. unfold now. destruct (w_clock w); repeat split;
    exists []; simpl; by rewrite app_nil_r.
Qed.

Lemma unattended_fs_try what f : steps unattended (fs_try what f).
Proof.
  intros w. unfold fs_try. destruct (f _ _); repeat split;
    exists []; simpl; by rewrite app_nil_r.
Qed.

Lemma unattended_popen exec cmd : steps unattended (popen exec cmd).
Proof.
  intros w. unfold popen. destruct (exec _ _ _); repeat split;
    by eexists [_].
Qed.

Lemma unattended_log_lines lg out : steps unattended (log_lines lg out).
Proof.
  induction out as [|l out IH]; simpl.
  - apply steps_ret, _.
  - apply steps_bind; [apply _|apply unattended_log|intros _; apply IH].
Qed.

Lemma seated_emit e : steps seated (emit e).
Proof. by intros w. Qed.

Lemma seated_log lg lvl msg args : steps seated (log lg lvl msg args).
Proof. by intros w. Qed.

Lemma seated_print text : steps seated (print text).
Proof. by intros w. Qed.

Lemma seated_input prompt : steps seated (input prompt).
Proof. intros w. unfold input. by destruct (w_stdin w). Qed.

Lemma seated_now : steps seated now.
Proof. intros w. unfold now. by destruct (w_clock w). Qed.

Lemma seated_fs_try what f : steps seated (fs_try what f).
Proof. intros w. unfold fs_try. by destruct (f _ _). Qed.

Lemma seated_ask_choice prompt options default :
  steps seated (ask_choice prompt options default).
Proof.
  assert (∀ fuel text, steps seated (ask_choice_loop fuel text options default))
    as Hloop.
  { induction fuel as [|fuel IH]; intros text; simpl.
    - apply steps_bind; [apply _|apply seated_input|intros resp].
      destruct (Str.eqb _ ""); [apply steps_ret, _|].
      destruct (Str.isdigit _); [destruct (Str.int _); [|apply steps_raise, _]|];
        case_bool_decide; try (apply steps_ret, _).
      all: apply steps_bind; [apply _|apply seated_print|intros _];
        apply steps_raise, _.
    - apply steps_bind; [apply _|apply seated_input|intros resp].
      destruct (Str.eqb _ ""); [apply steps_ret, _|].
      destruct (Str.isdigit _); [destruct (Str.int _); [|apply steps_raise, _]|];
        case_bool_decide; try (apply steps_ret, _).
      all: apply steps_bind; [apply _|apply seated_print|intros _]; apply IH. }
  intros w. apply Hloop.
Qed.

Lemma seated_yes_no prompt default : steps seated (yes_no prompt default).
Proof.
  assert (∀ fuel, steps seated (yes_no_loop fuel prompt default)) as Hloop.
  { induction fuel as [|fuel IH]; simpl.
    - apply steps_bind; [apply _|apply seated_input|intros resp].
      destruct (Str.eqb _ ""); [apply steps_ret, _|].
      repeat (case_bool_decide; [apply steps_ret, _|]).
      apply steps_bind; [apply _|apply seated_print|intros _].
      apply steps_raise, _.
    - apply steps_bind; [apply _|apply seated_input|intros resp].
      destruct (Str.eqb _ ""); [apply steps_ret, _|].
      repeat (case_bool_decide; [apply steps_ret, _|]).
      apply steps_bind; [apply _|apply seated_print|intros _]. apply IH. }
  intros w. apply Hloop.
Qed.

End Unattended.

Global Hint Resolve unattended_log unattended_print unattended_now
  unattended_fs_try unattended_popen unattended_log_lines
  seated_log seated_print seated_input seated_now seated_fs_try
  seated_ask_choice seated_yes_no : steps.

Section UnattendedPipeline.

Variable exec : list string → list string → tree → proc.
Variable json_load : string → option pyval.

Lemma unattended_run_cmd_streamed cmd lg :
  steps unattended (run_cmd_streamed exec cmd lg).
Proof. unfold run_cmd_streamed. steps_auto. Qed.

Lemma unattended_find_detected_language srt_base lg :
  steps unattended (find_detected_language json_load srt_base lg).
Proof.
  intros w. destruct (with_suffix srt_base ".json") as [jp|] eqn:Hp.
  - rewrite (find_detected_language_reads json_load srt_base lg jp w Hp).
    reflexivity.
  - unfold find_detected_language. rewrite Hp. reflexivity.
Qed.

Lemma unattended_move_video_into_dir video target_dir lg :
  steps unattended (move_video_into_dir video target_dir lg).
Proof.
  unfold move_video_into_dir, choose_dest, shutil_move_paths, path_exists.
  steps_auto.
Qed.

Lemma unattended_report result total lg :
  steps unattended (report result total lg).
Proof. unfold report, print_banner. steps_auto. Qed.

Lemma unattended_process_video video model language translate clean
    overwrite skip lg out_dir :
  steps unattended
    (process_video exec json_load video model language translate clean
       overwrite skip lg out_dir).
Proof.
  pose proof unattended_run_cmd_streamed.
  pose proof unattended_find_detected_language.
  unfold process_video, bypass, full_run, extract_audio, transcribe,
    run_whisper, move_whisper_outputs, move_one_output, cleanup_wav,
    path_replace, path_unlink.
  steps_auto.
Qed.

End UnattendedPipeline.

(** X15. Once the tools are checked the run is unattended: from the call
    of [process_video] to the closing summary, through both tools, the
    relocation, the cleanup, the move of the video and the report, nothing
    is read from standard input and no prompt is shown, however the run
    ends. *)
Theorem pipeline_is_unattended exec json_load cfg start lg w :
  let w' := (run_and_report exec json_load cfg start lg w).2 in
  w_stdin w' = w_stdin w ∧ prompts (emitted w w') = [].
Proof.
  cbv zeta.
  assert (steps unattended (run_and_report exec json_load cfg start lg)) as H.
  { pose proof (unattended_process_video exec json_load).
    pose proof unattended_move_video_into_dir.
    pose proof unattended_report.
    unfold run_and_report. steps_auto. }
  destruct (H w) as (I & _ & evs & T & P).
  split; [done|]. by rewrite (emitted_app _ _ _ T).
Qed.

(** ** The configuration *)

Section ConfigureFacts.

Lemma bind_Ret_inv {A B} (c : M A) (k : A → M B) w b w' :
  bind c k w = (Ret b, w') →
  ∃ a w1, c w = (Ret a, w1) ∧ k a w1 = (Ret b, w').
Proof.
  rewrite bind_run. destruct (c w) as [[a|e] w1]; [|done]. eauto.
Qed.

(** Whatever [ask_choice] returns is the default or one of the options. *)
Lemma ask_choice_in_options prompt options default w r w' :
  ask_choice prompt options default w = (Ret r, w') →
  r = default ∨ r ∈ options.
Proof.
  unfold ask_choice. generalize (choice_prompt prompt options default).
  generalize (length (w_stdin w)). intros fuel. revert w.
  assert (∀ text w1 (k : M string),
            (∀ w2, k w2 = (Ret r, w') → r = default ∨ r ∈ options) →
            (resp <- input text ;;
             let resp := Str.strip resp in
             if Str.eqb resp "" then ret default
             else
               if Str.isdigit resp then
                 match Str.int resp with
                 | None => raise (ValueError "int")
                 | Some n =>
                     if bool_decide (0 ≤ n - 1 < Z.of_nat (length options))%Z
                     then ret (from_option id "" (options !! Z.to_nat (n - 1)))
                     else (print "Invalid choice." ;; k)
                 end
               else if bool_decide (resp ∈ options) then ret resp
                    else (print "Invalid choice." ;; k)) w1 = (Ret r, w') →
            r = default ∨ r ∈ options) as Hturn.
  { intros text w1 k Hk H. cbv zeta in H.
    apply bind_Ret_inv in H as (resp & w2 & _ & H).
    destruct (Str.eqb (Str.strip resp) ""); [left; by injection H|].
    destruct (Str.isdigit (Str.strip resp)).
    - destruct (Str.int (Str.strip resp)) as [n|]; [|discriminate H].
      case_bool_decide as Hidx.
      + right. injection H as <- _.
        destruct (options !! Z.to_nat (n - 1)) as [o|] eqn:Ho.
        * simpl. by eapply list_elem_of_lookup_2.
        * exfalso. apply lookup_ge_None in Ho. lia.
      + apply bind_Ret_inv in H as (? & w3 & _ & H). by eapply Hk.
    - case_bool_decide as Hin.
      + right. by injection H as <- _.
      + apply bind_Ret_inv in H as (? & w3 & _ & H). by eapply Hk. }
  induction fuel as [|fuel IH]; intros w text H; simpl in H.
  - eapply Hturn; [|exact H]. intros w2 Hr. discriminate Hr.
  - eapply Hturn; [|exact H]. intros w2 Hr. by eapply IH.
Qed.

Lemma mkdir_rev_creates rp : ∀ t t',
  mkdir_rev t rp = Some t' → t' !! rev rp = Some Dir.
Proof.
  destruct rp as [|x rp]; intros t t'; simpl.
  - destruct (t !! []) as [[]|] eqn:E; [done| |done]. by intros [= <-].
  - destruct (t !! (rev rp ++ [x])) as [[]|] eqn:Hk; [done| |].
    { by intros [= <-]. }
    destruct (t !! rev rp) as [[]|]; [done| |].
    + intros [= <-]. by rewrite lookup_insert_eq.
    + destruct (mkdir_rev t rp); [|done].
      intros [= <-]. by rewrite lookup_insert_eq.
Qed.

Lemma mkdir_p_creates t p t' : mkdir_p t p = Some t' → t' !! p = Some Dir.
Proof.
  unfold mkdir_p. intros H. apply mkdir_rev_creates in H.
  by rewrite rev_involutive in H.
Qed.

Lemma str_truthy_Some o :
  str_truthy o = true → o = Some (from_option id "" o).
Proof. by destruct o. Qed.

End ConfigureFacts.

(** What a step of [configure] that returned did to the world: it kept the
    file tree, the working directory, the search path and the kind of
    standard input. *)
Ltac piece H :=
  lazymatch type of H with
  | ?c ?w = (Ret ?a, ?w1) =>
      let Hc := fresh "Hc" in
      let Hs := fresh "Hs" in
      assert (calm w (c w).2) as Hc by
        (apply (obeys_steps calm early_exit);
         repeat first [ apply obeys_cancel; apply _
                      | apply obeys_exit_1; apply _
                      | obeys_step ]);
      assert (seated w (c w).2) as Hs by
        (generalize w; change (steps seated c); steps_auto);
      rewrite H in Hc, Hs; simpl in Hc, Hs;
      destruct Hc as (?T & ?C & ?P & _); destruct Hs as (?Y & _ & _)
  end.

Section ConfigureReturns.

(** Everything a returned configuration says, read off the steps of
    [configure] one by one. *)
Lemma configure_returns args lg w cfg w' :
  configure args lg w = (Ret cfg, w') →
  present w (a_video args) = true ∧
  c_video cfg = a_video args ∧
  c_overwrite cfg = negb (a_no_overwrite args) ∧
  c_skip_if_exists cfg = negb (a_no_skip args) ∧
  (a_model args = Some (c_model cfg) ∨ c_model cfg ∈ MODELS) ∧
  (∀ l, a_language args = Some l → c_language cfg = Some l) ∧
  (a_language args = None → c_language cfg ≠ Some "") ∧
  (a_translate_to_en args = true → c_translate_to_en cfg = true) ∧
  (w_tty w = false →
   c_out_dir cfg = joinname (mkPath true (w_cwd w)) (stem (a_video args)) ∧
   c_clean_wav cfg = negb (a_no_clean args) ∧
   c_translate_to_en cfg = a_translate_to_en args) ∧
  w_cwd w' = w_cwd w ∧ w_tty w' = w_tty w ∧ w_path w' = w_path w ∧
  mkdir_p (w_tree w) (resolve (w_cwd w) (c_out_dir cfg)) = Some (w_tree w').
Proof.
  unfold configure. cbv zeta. intros H.
  apply bind_Ret_inv in H as (ex & w1 & Hex & H).
  apply bind_Ret_inv in H as ([] & w2 & Hfound & H).
  apply bind_Ret_inv in H as (model & w3 & Hmodel & H).
  apply bind_Ret_inv in H as (language & w4 & Hlang & H).
  apply bind_Ret_inv in H as (tty & w5 & Htty & H).
  apply bind_Ret_inv in H as (cwd & w6 & Hcwd & H).
  apply bind_Ret_inv in H as (out_dir & w7 & Hout & H).
  apply bind_Ret_inv in H as ([] & w8 & Hmk & H).
  apply bind_Ret_inv in H as (res1 & w9 & Hres1 & H).
  apply bind_Ret_inv in H as ([] & w10 & Hlog1 & H).
  apply bind_Ret_inv in H as (tty2 & w11 & Htty2 & H).
  apply bind_Ret_inv in H as (clean & w12 & Hclean & H).
  apply bind_Ret_inv in H as (translate & w13 & Htrans & H).
  apply bind_Ret_inv in H as ([] & w14 & Hl1 & H).
  apply bind_Ret_inv in H as ([] & w15 & Hl2 & H).
  apply bind_Ret_inv in H as ([] & w16 & Hl3 & H).
  apply bind_Ret_inv in H as ([] & w17 & Hl4 & H).
  apply bind_Ret_inv in H as ([] & w18 & Hl5 & H).
  apply bind_Ret_inv in H as ([] & w19 & Hl6 & H).
  apply bind_Ret_inv in H as ([] & w20 & Hl7 & H).
  apply bind_Ret_inv in H as (res2 & w21 & Hres2 & H).
  apply bind_Ret_inv in H as ([] & w22 & Hl8 & H).
  apply bind_Ret_inv in H as (go & w23 & Hgo & H).
  apply bind_Ret_inv in H as ([] & w24 & Hcancel & H).
  injection H as <- <-. simpl.
  (* the steps that leave the file tree alone *)
  piece Hex. piece Hfound. piece Hmodel. piece Hlang. piece Htty. piece Hcwd.
  piece Hout. piece Hres1. piece Hlog1. piece Htty2. piece Hclean.
  piece Htrans. piece Hl1. piece Hl2. piece Hl3. piece Hl4. piece Hl5.
  piece Hl6. piece Hl7. piece Hres2. piece Hl8. piece Hgo. piece Hcancel.
  (* the [mkdir] *)
  unfold path_mkdir, fs_try in Hmk.
  destruct (mkdir_p (w_tree w7) (resolve (w_cwd w7) out_dir)) as [t'|] eqn:Hmkdir;
    [|done].
  injection Hmk as <-. simpl in *.
  (* the values *)
  injection Hex as <- _. injection Htty as <- _. injection Hcwd as <- _.
  injection Htty2 as <- _.
  assert (w_cwd w7 = w_cwd w) as Cw7 by congruence.
  assert (w_tree w7 = w_tree w) as Tw7 by congruence.
  assert (w_tty w4 = w_tty w) as Yw4 by congruence.
  assert (w_cwd w5 = w_cwd w) as Cw5 by congruence.
  assert (w_tty w10 = w_tty w) as Yw10 by congruence.
  assert (w_tty w12 = w_tty w) as Yw12 by congruence.
  split.
  { unfold present. destruct (exists_ _ _); [done|]. by simpl in Hfound. }
  do 3 (split; [done|]). split.
  { destruct (str_truthy (a_model args)) eqn:Hm.
    - left. injection Hmodel as <- _. by apply str_truthy_Some.
    - right. apply ask_choice_in_options in Hmodel as [->|Hin]; [|done].
      unfold MODELS. do 2 apply list_elem_of_further. apply list_elem_of_here. }
  split.
  { intros l Hl. rewrite Hl in Hlang. by injection Hlang as <- _. }
  split.
  { intros Hnone. rewrite Hnone in Hlang.
    apply bind_Ret_inv in Hlang as (ans & w' & _ & Hlang).
    destruct (Str.eqb (Str.strip ans) "") eqn:E; simpl in Hlang;
      injection Hlang as <- _; [done|].
    apply eqb_false in E. by intros [= ?]. }
  split.
  { intros Ht. rewrite Ht in Htrans. by injection Htrans as <- _. }
  split.
  { intros Hno. rewrite Yw4, Hno in Hout. simpl in Hout.
    injection Hout as <- _. rewrite Cw5. split; [done|].
    rewrite Yw10, Hno in Hclean. injection Hclean as <- _. split; [done|].
    destruct (a_translate_to_en args); [by injection Htrans as <- _|].
    apply bind_Ret_inv in Htrans as (tty3 & w' & Htty3 & Htrans).
    injection Htty3 as <- <-. rewrite Yw12, Hno in Htrans.
    by injection Htrans as <- _. }
  split; [congruence|]. split; [congruence|]. split; [congruence|].
  rewrite <- Tw7, <- Cw7.
  assert (w_tree w24 = t') as -> by congruence. done.
Qed.

End ConfigureReturns.

(** X16. What a configuration that [configure] returns can hold.  The
    video of the command line exists, and is the video of the
    configuration; overwrite and skip-if-exists are the negations of
    [--no-overwrite] and [--no-skip], prompt or no prompt; the model is the
    one of [--model] or one of the five of [MODELS]; a language given on the
    command line is kept, and a language asked for is never the empty
    string; [--translate-to-en] is never overridden.  The only change to
    the file tree is the [mkdir] of the output directory, which therefore
    exists when the pipeline starts. *)
Theorem configure_result args lg w cfg w' :
  configure args lg w = (Ret cfg, w') →
  present w (a_video args) = true ∧
  c_video cfg = a_video args ∧
  c_overwrite cfg = negb (a_no_overwrite args) ∧
  c_skip_if_exists cfg = negb (a_no_skip args) ∧
  (a_model args = Some (c_model cfg) ∨ c_model cfg ∈ MODELS) ∧
  (∀ l, a_language args = Some l → c_language cfg = Some l) ∧
  (a_language args = None → c_language cfg ≠ Some "") ∧
  (a_translate_to_en args = true → c_translate_to_en cfg = true) ∧
  mkdir_p (w_tree w) (resolve (w_cwd w) (c_out_dir cfg)) = Some (w_tree w') ∧
  w_tree w' !! resolve (w_cwd w') (c_out_dir cfg) = Some Dir.
Proof.
  intros H.
  destruct (configure_returns args lg w cfg w' H)
    as (H1 & H2 & H3 & H4 & H5 & H6 & H7 & H8 & _ & C & _ & _ & Hmk).
  do 8 (split; [done|]). split; [done|].
  rewrite C. by eapply mkdir_p_creates.
Qed.

(** The run of claim C8: the model and the language are asked for, and the
    output directory is created. *)
Lemma configure_result_witness :
  let w := Scenario.world_of Scenario.tree_fresh ["2"; "de"; ""] false
             Scenario.both_tools in
  let args := Scenario.args_bare in
  let run := configure args Scenario.logger0 w in
  ∃ cfg w',
    run = (Ret cfg, w') ∧
    present w (a_video args) = true ∧
    c_video cfg = a_video args ∧
    c_overwrite cfg = negb (a_no_overwrite args) ∧
    c_skip_if_exists cfg = negb (a_no_skip args) ∧
    (a_model args = Some (c_model cfg) ∨ c_model cfg ∈ MODELS) ∧
    (∀ l, a_language args = Some l → c_language cfg = Some l) ∧
    (a_language args = None → c_language cfg ≠ Some "") ∧
    (a_translate_to_en args = true → c_translate_to_en cfg = true) ∧
    mkdir_p (w_tree w) (resolve (w_cwd w) (c_out_dir cfg)) = Some (w_tree w') ∧
    w_tree w' !! resolve (w_cwd w') (c_out_dir cfg) = Some Dir.
Proof.
  cbv zeta.
  assert (∃ cfg w',
            configure Scenario.args_bare Scenario.logger0
              (Scenario.world_of Scenario.tree_fresh ["2"; "de"; ""] false
                 Scenario.both_tools) = (Ret cfg, w')) as (cfg & w' & Hrun).
  { eexists _, _. vm_compute. reflexivity. }
  exists cfg, w'. split; [exact Hrun|].
  exact (configure_result _ _ _ _ _ Hrun).
Defined.

(** X17. Without a terminal three fields of the configuration are settled
    without a prompt: the output directory is the working directory joined
    with the stem of the video, the audio file is cleaned unless
    [--no-clean] is given, and the translation follows
    [--translate-to-en]. *)
Theorem configure_without_terminal args lg w cfg w' :
  w_tty w = false →
  configure args lg w = (Ret cfg, w') →
  c_out_dir cfg = joinname (mkPath true (w_cwd w)) (stem (a_video args)) ∧
  c_clean_wav cfg = negb (a_no_clean args) ∧
  c_translate_to_en cfg = a_translate_to_en args.
Proof.
  intros Hno H.
  destruct (configure_returns args lg w cfg w' H)
    as (_ & _ & _ & _ & _ & _ & _ & _ & Hnotty & _).
  by apply Hnotty.
Qed.

Lemma configure_without_terminal_witness :
  let w := Scenario.world_of Scenario.tree_fresh [""] false
             Scenario.both_tools in
  let args := mkArgs Scenario.demo (Some "small") (Some "fr") true true false
                false None in
  w_tty w = false ∧
  ∃ cfg w',
    configure args Scenario.logger0 w = (Ret cfg, w') ∧
    c_out_dir cfg = joinname (mkPath true (w_cwd w)) (stem (a_video args)) ∧
    c_clean_wav cfg = negb (a_no_clean args) ∧
    c_translate_to_en cfg = a_translate_to_en args.
Proof.
  cbv zeta. split; [reflexivity|].
  assert (∃ cfg w',
            configure
              (mkArgs Scenario.demo (Some "small") (Some "fr") true true false
                 false None)
              Scenario.logger0
              (Scenario.world_of Scenario.tree_fresh [""] false
                 Scenario.both_tools) = (Ret cfg, w')) as (cfg & w' & Hrun).
  { eexists _, _. vm_compute. reflexivity. }
  exists cfg, w'. split; [exact Hrun|].
  apply (configure_without_terminal
           (mkArgs Scenario.demo (Some "small") (Some "fr") true true false
              false None)
           Scenario.logger0
           (Scenario.world_of Scenario.tree_fresh [""] false Scenario.both_tools)
           cfg w'); [reflexivity|exact Hrun].
Defined.

Section TerminalFlags.

Lemma seated_path_mkdir p : steps seated (path_mkdir p).
Proof. apply seated_fs_try. Qed.

(** Two continuations that agree wherever standard input is of the same
    kind give the same run. *)
Lemma bind_cong_seated {A B} (c : M A) (k k' : A → M B) w :
  steps seated c →
  (∀ a w1, w_tty w1 = w_tty w → k a w1 = k' a w1) →
  bind c k w = bind c k' w.
Proof.
  intros Hs Hk. rewrite !bind_run. specialize (Hs w).
  destruct (c w) as [[a|e] w1]; [|done]. apply Hk. apply Hs.
Qed.

End TerminalFlags.

(** One more step of [configure] on both sides, [Htty] following the
    world. *)
Ltac along Htty :=
  apply bind_cong_seated;
  [ first [apply seated_path_mkdir | steps_auto]
  | let a := fresh "a" in
    let w1 := fresh "w" in
    let H := fresh "H" in
    intros a w1 H; rewrite Htty in H; clear Htty; rename H into Htty ].

(** X18. In a terminal [--no-clean] has no effect: whether the audio file
    is removed is decided by the answer to "Clean .wav after run?" alone,
    whose default is yes.  Two runs of [configure] that differ in that flag
    only are the same run. *)
Theorem no_clean_is_ignored_in_a_terminal video model language translate
    no_clean no_clean' no_overwrite no_skip log_file lg w :
  w_tty w = true →
  configure (mkArgs video model language translate no_clean no_overwrite
               no_skip log_file) lg w
  = configure (mkArgs video model language translate no_clean' no_overwrite
                 no_skip log_file) lg w.
Proof.
  intros Htty. unfold configure. cbv zeta. simpl.
  do 10 along Htty.
  rewrite !bind_run. unfold isatty. by rewrite Htty.
Qed.

(** With and without [--no-clean], the answer "n" keeps the audio file. *)
Lemma no_clean_is_ignored_in_a_terminal_witness :
  let w := Scenario.world_of Scenario.tree_fresh [""; "n"; ""; ""] true
             Scenario.both_tools in
  w_tty w = true ∧
  configure (mkArgs Scenario.demo (Some "small") (Some "fr") false true false
               false None) Scenario.logger0 w
  = configure (mkArgs Scenario.demo (Some "small") (Some "fr") false false
                 false false None) Scenario.logger0 w.
Proof.
  cbv zeta. split; [reflexivity|].
  apply no_clean_is_ignored_in_a_terminal. reflexivity.
Defined.

(** ** Runs that end in the configuration *)

Section EndOfInput.

Lemma starves_ret {A} (a : A) : starves (ret a).
Proof. by intros w Hin. Qed.

Lemma starves_raise {A} e : e ≠ SystemExit 0 → starves (raise e : M A).
Proof. intros He w Hin. split; [done|]. by intros e' [= <-]. Qed.

Lemma starves_bind {A B} (c : M A) (k : A → M B) :
  starves c → (∀ a, starves (k a)) → starves (bind c k).
Proof.
  intros Hc Hk w Hin. rewrite bind_run. specialize (Hc w Hin).
  destruct (c w) as [[a|e] w1]; simpl in *.
  - apply Hk, Hc.
  - split; [apply Hc|]. intros e' [= <-]. by apply Hc.
Qed.

Lemma starves_emit ev : starves (emit ev).
Proof. by intros w Hin. Qed.

Lemma starves_log lg lvl msg args : starves (log lg lvl msg args).
Proof. apply starves_emit. Qed.

Lemma starves_reads {A} (f : world → A) : starves (λ w, (Ret (f w), w)).
Proof. by intros w Hin. Qed.

Lemma starves_input prompt : starves (input prompt).
Proof.
  intros w Hin. unfold input. rewrite Hin. simpl. split; [done|].
  by intros e [= <-].
Qed.

Lemma starves_fs_try what f : starves (fs_try what f).
Proof.
  intros w Hin. unfold fs_try. destruct (f _ _); simpl; split; try done.
  by intros e [= <-].
Qed.

Lemma stops_bind {A B} (c : M A) (k : A → M B) : stops c → stops (bind c k).
Proof.
  intros Hc w Hin. destruct (Hc w Hin) as (e & w' & Hrun & He).
  exists e, w'. by rewrite (bind_raise_eq _ _ _ _ _ Hrun).
Qed.

Lemma stops_after {A B} (c : M A) (k : A → M B) :
  starves c → (∀ a, stops (k a)) → stops (bind c k).
Proof.
  intros Hc Hk w Hin. rewrite bind_run. specialize (Hc w Hin).
  destruct (c w) as [[a|e] w1]; simpl in *.
  - apply Hk, Hc.
  - exists e, w1. split; [done|]. by apply Hc.
Qed.

Lemma stops_yes_no prompt default : stops (yes_no prompt default).
Proof.
  intros w Hin. unfold yes_no. rewrite Hin. simpl.
  unfold bind, input. rewrite Hin. by eexists _, _.
Qed.

Lemma starves_ask_choice prompt options default :
  starves (ask_choice prompt options default).
Proof.
  intros w Hin. unfold ask_choice. rewrite Hin. simpl.
  unfold bind, input. rewrite Hin. simpl. split; [done|]. by intros e [= <-].
Qed.

Lemma starves_yes_no prompt default : starves (yes_no prompt default).
Proof.
  intros w Hin. unfold yes_no. rewrite Hin. simpl.
  unfold bind, input. rewrite Hin. simpl. split; [done|]. by intros e [= <-].
Qed.

End EndOfInput.

Ltac starves_step :=
  lazymatch goal with
  | |- starves (bind _ _) => apply starves_bind; [|intros ?]
  | |- starves (ret _) => apply starves_ret
  | |- starves (if ?b then _ else _) => destruct b
  | |- starves (match ?x with _ => _ end) => destruct x
  | |- starves (log _ _ _ _) => apply starves_log
  | |- starves (input _) => apply starves_input
  | |- starves (sys_exit 1) => apply starves_raise; discriminate
  | |- starves (ask_choice _ _ _) => apply starves_ask_choice
  | |- starves (yes_no _ _) => apply starves_yes_no
  | |- starves (path_mkdir _) => apply starves_fs_try
  | |- starves isatty => apply (starves_reads w_tty)
  | |- starves getcwd => apply (starves_reads (λ w, mkPath true (w_cwd w)))
  | |- starves (path_exists ?p) =>
      apply (starves_reads (λ w, exists_ (w_tree w) (resolve (w_cwd w) p)))
  | |- starves (path_resolve ?p) =>
      apply (starves_reads (λ w, resolve (w_cwd w) p))
  end.

Ltac starves_auto := cbv zeta; repeat starves_step.

Section ConfigureEnds.

(** At the end of standard input the configuration does not come back, and
    does not end as a cancellation either. *)
Lemma configure_starved args lg w :
  w_stdin w = [] →
  ∃ e w', configure args lg w = (Raise e, w') ∧ e ≠ SystemExit 0.
Proof.
  revert w. change (stops (configure args lg)). unfold configure. cbv zeta.
  do 22 (apply stops_after; [starves_auto|intros ?]).
  apply stops_bind, stops_yes_no.
Qed.


End ConfigureEnds.

(** X19. A run whose standard input is already at its end cannot succeed,
    whatever the namespace [parse_args] returned holds: one of the
    prompts, at the latest the
    confirmation that is asked for on every run, meets the end of input.
    [main] then exits with status 1 without having started any command, and
    the file tree is as it was or as the [mkdir] of the output directory
    left it. *)
Theorem main_at_end_of_input exec json_load args w :
  w_stdin w = [] →
  let run := main exec json_load args w in
  run.1 = 1%Z ∧ execs (emitted w run.2) = [] ∧
  single_mkdir (w_tree w) (w_tree run.2).
Proof.
  intros Hin. cbv zeta.
  destruct (main_run exec json_load args w)
    as [[-> _]|(_ & lg & start & w0 & evs0 & _ & Hc0 & I0 & _ & T0 & _ & X0 & _ & ->)].
  { simpl. rewrite emitted_same. split; [done|]. split; [done|by left]. }
  rewrite Hin in I0.
  destruct (configure_starved args lg w0 I0) as (e & w1 & Hcfg & Hne).
  destruct (obeys_configure args lg) as [Hs Hr].
  pose proof (configure_single_mkdir args lg w0) as Hone.
  specialize (Hs w0). specialize (Hr w0). rewrite Hcfg in Hs, Hr, Hone.
  simpl in Hs, Hr, Hone. specialize (Hr e eq_refl).
  unfold main_body. rewrite (bind_raise_eq _ _ _ _ _ Hcfg).
  destruct Hc0 as (Tr0 & _). destruct Hs as (_ & _ & _ & evs1 & T1 & X1).
  unfold tree_step in Hone. rewrite Tr0 in Hone.
  assert (w_trace w1 = w_trace w ++ (evs0 ++ evs1)) as T.
  { by rewrite T1, T0, (assoc_L (++)). }
  assert (∀ ev, execs [ev] = [] →
            execs (emitted w (with_trace (w_trace w1 ++ [ev]) w1)) = []) as Hlog.
  { intros ev Hev. rewrite (emitted_app w _ ((evs0 ++ evs1) ++ [ev])).
    - by rewrite !execs_app, X0, X1, Hev.
    - simpl. rewrite T. by rewrite <- !(assoc_L (++)). }
  destruct e as [c| | | | | |]; simpl in *;
    try (split; [done|]; split; [by apply Hlog|done]).
  split; [|split; [|done]].
  - destruct Hr as [->|[-> _]]; done.
  - by rewrite (emitted_app _ _ _ T), execs_app, X0, X1.
Qed.

(** Every option is given and the tools are there; the run still fails. *)
Lemma main_at_end_of_input_witness :
  let w := Scenario.world_of Scenario.tree_fresh [] false Scenario.both_tools in
  let run := main (Scenario.toy_exec 0 0) Scenario.toy_json Scenario.args_flags w in
  w_stdin w = [] ∧
  run.1 = 1%Z ∧ execs (emitted w run.2) = [] ∧
  single_mkdir (w_tree w) (w_tree run.2).
Proof.
  cbv zeta. split; [reflexivity|].
  apply (main_at_end_of_input (Scenario.toy_exec 0 0) Scenario.toy_json Scenario.args_flags
           (Scenario.world_of Scenario.tree_fresh [] false Scenario.both_tools)).
  reflexivity.
Defined.



(** X24. A log file that cannot be opened ends the run before it starts:
    [setup_logger] raises outside the [try] block of [main], so the process
    ends with status 1 and nothing else has happened: no log record, no
    prompt, no line read, no command, no change to the file tree. *)
Theorem unopened_log_ends_the_run exec json_load args w p :
  a_log args = Some p →
  appendable (w_tree w) (resolve (w_cwd w) p) = false →
  main exec json_load args w = (1%Z, w).
Proof.
  intros Hp Ha.
  destruct (main_run exec json_load args w) as [[-> _]|[Hlog _]]; [done|].
  specialize (Hlog p Hp). congruence.
Qed.

(** The log is to go into a directory that does not exist. *)
Lemma unopened_log_ends_the_run_witness :
  let w := Scenario.world_of Scenario.tree_fresh [""] false Scenario.both_tools in
  let p := mkPath false ["logs"; "run.log"] in
  let args := mkArgs Scenario.demo (Some "small") (Some "fr") false false false
                false (Some p) in
  a_log args = Some p ∧
  appendable (w_tree w) (resolve (w_cwd w) p) = false ∧
  main (Scenario.toy_exec 0 0) Scenario.toy_json args w = (1%Z, w).
Proof.
  cbv zeta. split; [reflexivity|]. split; [by vm_compute|].
  apply (unopened_log_ends_the_run (Scenario.toy_exec 0 0) Scenario.toy_json
           (mkArgs Scenario.demo (Some "small") (Some "fr") false false false
              false (Some (mkPath false ["logs"; "run.log"])))
           (Scenario.world_of Scenario.tree_fresh [""] false Scenario.both_tools)
           (mkPath false ["logs"; "run.log"])); [reflexivity|by vm_compute].
Defined.

Section OutputDirectoryClash.

(** [mkdir] fails on a path that holds a regular file, even with
    [exist_ok]. *)
Lemma mkdir_p_on_file t p c : t !! p = Some (File c) → mkdir_p t p = None.
Proof.
  intros H. unfold mkdir_p.
  destruct (rev p) as [|x rp] eqn:E; simpl.
  - rewrite <- (rev_involutive p) in H. rewrite E in H. simpl in H. by rewrite H.
  - rewrite <- (rev_involutive p) in H. rewrite E in H. simpl in H. by rewrite H.
Qed.

(** One step of a run that cannot end well: the step is calm and raises
    only what [except Exception] catches. *)
Lemma clash_step {A} (c : M A) (k : A → M Config) w :
  obeys calm catchable c → steps seated c →
  (∀ a w1, calm w w1 → seated w w1 →
     ∃ e w', k a w1 = (Raise e, w') ∧ e ≠ SystemExit 0 ∧ w_tree w' = w_tree w1) →
  ∃ e w', bind c k w = (Raise e, w') ∧ e ≠ SystemExit 0 ∧ w_tree w' = w_tree w.
Proof.
  intros [Hs Hr] Hseat Hk. rewrite bind_run.
  specialize (Hs w). specialize (Hr w). specialize (Hseat w).
  destruct (c w) as [[a|e] w1]; simpl in *.
  - destruct (Hk a w1 Hs Hseat) as (e & w' & -> & Hne & Ht).
    exists e, w'. split; [done|]. split; [done|]. destruct Hs as (T & _).
    by rewrite Ht.
  - exists e, w1. split; [done|]. split.
    + specialize (Hr e eq_refl). unfold catchable in Hr. by intros ->.
    + apply Hs.
Qed.

(** The configuration fails when a regular file is in the place of the
    default output directory. *)
Lemma configure_clash args lg w c :
  w_tty w = false →
  w_tree w !! resolve (w_cwd w)
                (joinname (mkPath true (w_cwd w)) (stem (a_video args)))
  = Some (File c) →
  ∃ e w', configure args lg w = (Raise e, w') ∧ e ≠ SystemExit 0 ∧
          w_tree w' = w_tree w.
Proof.
  intros Htty Hf. unfold configure. cbv zeta.
  rewrite bind_run. unfold path_exists at 1. cbv beta iota.
  destruct (exists_ (w_tree w) (resolve (w_cwd w) (a_video args))).
  2:{ eexists _, _. split; [reflexivity|]. by split. }
  rewrite bind_run. simpl negb. cbv iota. unfold ret at 1. cbv beta iota.
  apply clash_step.
  { destruct (str_truthy (a_model args)); [apply obeys_ret, _|].
    apply obeys_ask_choice; apply _. }
  { destruct (str_truthy (a_model args)); [apply steps_ret, _|].
    apply seated_ask_choice. }
  intros model w1 (T1 & C1 & _) (Y1 & _).
  apply clash_step.
  { destruct (a_language args); obeys_auto. }
  { destruct (a_language args); steps_auto. }
  intros language w2 (T2 & C2 & _) (Y2 & _).
  rewrite bind_run. unfold isatty at 1. cbv beta iota.
  rewrite bind_run. unfold getcwd at 1. cbv beta iota.
  rewrite Y2, Y1, Htty. simpl negb. cbv iota.
  rewrite bind_run. unfold ret at 1. cbv beta iota.
  rewrite bind_run. unfold path_mkdir, fs_try.
  rewrite C2, C1, T2, T1. rewrite (mkdir_p_on_file _ _ _ Hf).
  eexists _, _. split; [reflexivity|]. split; [done|]. simpl. congruence.
Qed.

End OutputDirectoryClash.

(** X21. Without a terminal the output directory is the working directory
    joined with the stem of the video, and [mkdir] is called on it
    unconditionally.  When a regular file is already at that path (the
    video itself, when it lies in the working directory and its name has no
    extension) the run cannot succeed: [main] exits with status 1, no
    command is started and the file tree is left exactly as it was. *)
Theorem output_directory_clash exec json_load args w c :
  w_tty w = false →
  w_tree w !! resolve (w_cwd w)
                (joinname (mkPath true (w_cwd w)) (stem (a_video args)))
  = Some (File c) →
  let run := main exec json_load args w in
  run.1 = 1%Z ∧ w_tree run.2 = w_tree w ∧ execs (emitted w run.2) = [].
Proof.
  intros Htty Hf. cbv zeta.
  destruct (main_run exec json_load args w)
    as [[-> _]|(_ & lg & start & w0 & evs0 & _ & Hc0 & _ & Y0 & T0 & _ & X0 & _ & ->)].
  { simpl. by rewrite emitted_same. }
  destruct Hc0 as (Tr0 & C0 & _).
  destruct (configure_clash args lg w0 c) as (e & w1 & Hcfg & Hne & Tr1).
  { by rewrite Y0. }
  { by rewrite Tr0, C0. }
  destruct (obeys_configure args lg) as [Hs _].
  specialize (Hs w0). rewrite Hcfg in Hs. simpl in Hs.
  destruct Hs as (_ & _ & _ & evs1 & T1 & X1).
  unfold main_body. rewrite (bind_raise_eq _ _ _ _ _ Hcfg).
  assert (w_trace w1 = w_trace w ++ (evs0 ++ evs1)) as T.
  { by rewrite T1, T0, (assoc_L (++)). }
  assert (∀ ev, execs [ev] = [] →
            execs (emitted w (with_trace (w_trace w1 ++ [ev]) w1)) = []) as Hlog.
  { intros ev Hev. rewrite (emitted_app w _ ((evs0 ++ evs1) ++ [ev])).
    - by rewrite !execs_app, X0, X1, Hev.
    - simpl. rewrite T. by rewrite <- !(assoc_L (++)). }
  assert (w_tree w1 = w_tree w) as Tr by congruence.
  destruct e as [code| | | | | |]; simpl;
    try (split; [done|]; split; [done|]; by apply Hlog).
  destruct (obeys_configure args lg) as [_ Hr].
  specialize (Hr w0). rewrite Hcfg in Hr. specialize (Hr _ eq_refl).
  simpl in Hr. split; [|split; [done|]].
  - destruct Hr as [->|[-> _]]; done.
  - by rewrite (emitted_app _ _ _ T), execs_app, X0, X1.
Qed.

(** A video without extension in the working directory: its own path is
    the output directory. *)
Lemma output_directory_clash_witness :
  let tree0 : tree :=
    <[ ["home"; "clip"] := File "video" ]>
      (<[ ["home"] := Dir ]> (<[ [] := Dir ]> ∅)) in
  let w := Scenario.world_of tree0 [""] false Scenario.both_tools in
  let args := mkArgs (mkPath false ["clip"]) (Some "small") (Some "fr") false
                false false false None in
  let run := main (Scenario.toy_exec 0 0) Scenario.toy_json args w in
  w_tty w = false ∧
  w_tree w !! resolve (w_cwd w)
                (joinname (mkPath true (w_cwd w)) (stem (a_video args)))
  = Some (File "video") ∧
  run.1 = 1%Z ∧ w_tree run.2 = w_tree w ∧ execs (emitted w run.2) = [].
Proof.
  cbv zeta. split; [reflexivity|]. split; [by vm_compute|].
  apply (output_directory_clash (Scenario.toy_exec 0 0) Scenario.toy_json
           (mkArgs (mkPath false ["clip"]) (Some "small") (Some "fr") false
              false false false None)
           (Scenario.world_of
              (<[ ["home"; "clip"] := File "video" ]>
                 (<[ ["home"] := Dir ]> (<[ [] := Dir ]> ∅)))
              [""] false Scenario.both_tools)
           "video"); [reflexivity|by vm_compute].
Defined.

(** ** A video that is already in the output directory *)

Section VideoInPlace.

Lemma candidate_resolve cwd target_dir base sfx i :
  resolve cwd (candidate target_dir base sfx i)
  = resolve cwd target_dir ++ [base +:+ "_" +:+ pretty i +:+ sfx].
Proof.
  unfold candidate, joinname.
  destruct (Str.eqb _ "") eqn:E.
  - apply eqb_true in E. destruct base; discriminate E.
  - unfold resolve. simpl. destruct (anchor target_dir); [done|].
    by rewrite (assoc_L (++)).
Qed.

End VideoInPlace.

(** X22. A video that already lies in the output directory under its own
    name is in its own way: the destination "target_dir / name" exists (it
    is the video), so the search for a free name runs, and with "stem_1
    suffix" free the video is renamed to it.  The call returns that new
    path, the old path is gone and the content is at the new one. *)
Theorem video_in_place_is_renamed video target_dir lg w c :
  let here := resolve (w_cwd w) video in
  let first := candidate target_dir (stem video) (suffix video) 1 in
  resolve (w_cwd w) (joinname target_dir (name video)) = here →
  w_tree w !! here = Some (File c) →
  w_tree w !! resolve (w_cwd w) target_dir = Some Dir →
  w_tree w !! resolve (w_cwd w) first = None →
  ∃ w',
    move_video_into_dir video target_dir lg w = (Ret first, w') ∧
    w_tree w' !! here = None ∧
    w_tree w' !! resolve (w_cwd w) first = Some (File c) ∧
    emitted w w' = [EvLog DEBUG "Moved video %s -> %s" [APath video; APath first]].
Proof.
  cbv zeta. intros Hsame Hv Hd Hfree.
  assert (resolve (w_cwd w) video
          ≠ resolve (w_cwd w) (candidate target_dir (stem video) (suffix video) 1))
    as Hne by congruence.
  assert (choose_dest video target_dir w
          = (Ret (candidate target_dir (stem video) (suffix video) 1), w)) as Hch.
  { unfold choose_dest, bind, path_exists. cbv beta iota.
    unfold exists_ at 1. rewrite Hsame, Hv.
    rewrite bool_decide_eq_true_2 by eauto. cbn [first_free].
    by rewrite (proj2 (exists_false _ _) Hfree). }
  unfold move_video_into_dir. rewrite (bind_ret_eq _ _ _ _ _ Hch).
  unfold try_except, bind at 1, shutil_move_paths, fs_try.
  rewrite (shutil_move_fresh _ _ _ Hfree).
  unfold rename. rewrite Hv, Hfree. rewrite bool_decide_eq_false_2 by done.
  unfold parent_is_dir. rewrite candidate_resolve.
  destruct (resolve (w_cwd w) target_dir ++ _) eqn:Hnil.
  { by apply app_eq_nil in Hnil as [_ ?]. }
  rewrite <- Hnil. rewrite removelast_last. unfold is_dir.
  rewrite bool_decide_eq_true_2 by done. simpl.
  eexists. split; [reflexivity|]. simpl. rewrite <- candidate_resolve.
  split; [|split].
  - rewrite lookup_insert_ne by congruence. by rewrite lookup_delete_eq.
  - by rewrite lookup_insert_eq.
  - by erewrite emitted_app by reflexivity.
Qed.

(** A second run on "demo/demo.mp4" from the directory above. *)
Lemma video_in_place_is_renamed_witness :
  let tree0 : tree :=
    <[ ["home"; "demo"; "demo.mp4"] := File "video" ]>
      (<[ ["home"; "demo"] := Dir ]>
         (<[ ["home"] := Dir ]> (<[ [] := Dir ]> ∅))) in
  let w := Scenario.world_of tree0 [] false Scenario.both_tools in
  let video := mkPath false ["demo"; "demo.mp4"] in
  let first := mkPath true ["home"; "demo"; "demo_1.mp4"] in
  resolve (w_cwd w) (joinname Scenario.out (name video)) = resolve (w_cwd w) video ∧
  w_tree w !! resolve (w_cwd w) video = Some (File "video") ∧
  w_tree w !! resolve (w_cwd w) Scenario.out = Some Dir ∧
  w_tree w !! resolve (w_cwd w) first = None ∧
  candidate Scenario.out (stem video) (suffix video) 1 = first ∧
  ∃ w',
    move_video_into_dir video Scenario.out Scenario.logger0 w = (Ret first, w') ∧
    w_tree w' !! resolve (w_cwd w) video = None ∧
    w_tree w' !! resolve (w_cwd w) first = Some (File "video") ∧
    emitted w w' = [EvLog DEBUG "Moved video %s -> %s" [APath video; APath first]].
Proof.
  cbv zeta. split; [reflexivity|]. split; [by vm_compute|].
  split; [by vm_compute|]. split; [by vm_compute|]. split; [by vm_compute|].
  apply (video_in_place_is_renamed (mkPath false ["demo"; "demo.mp4"])
           Scenario.out Scenario.logger0
           (Scenario.world_of
              (<[ ["home"; "demo"; "demo.mp4"] := File "video" ]>
                 (<[ ["home"; "demo"] := Dir ]>
                    (<[ ["home"] := Dir ]> (<[ [] := Dir ]> ∅))))
              [] false Scenario.both_tools)
           "video"); [reflexivity|by vm_compute|by vm_compute|by vm_compute].
Defined.

(** * What follows the transcription: claims C3 and C6 *)

Section AfterTranscription.

Variable json_load : string → option pyval.

(** The audio file is none of the outputs: no move touches its path,
    whatever is or is not there. *)
Lemma move_one_output_wav s' target lg ext s w :
  ext ∈ WHISPER_EXTS →
  ∃ w1,
    move_one_output s' target lg ext w = (Ret tt, w1) ∧
    w_cwd w1 = w_cwd w ∧
    w_tree w1 !! (resolve (w_cwd w) target ++ [s +:+ ".wav"])
    = w_tree w !! (resolve (w_cwd w) target ++ [s +:+ ".wav"]).
Proof.
  intros Hext.
  destruct (move_one_output_step s' target lg ext w
              (whisper_ext_nonempty s' ext Hext))
    as (w1 & Hrun & C & _ & _ & [Ht|Hr]).
  - exists w1. by rewrite Ht.
  - exists w1. split; [done|]. split; [done|].
    destruct (output_apart_from_wav (w_cwd w) (resolve (w_cwd w) target)
                s s' ext Hext) as [Hne Hunder].
    apply (rename_lookup_other _ _ _ _ _ Hr); [exact Hne| |exact Hunder].
    intros Hp. apply prefix_length_eq in Hp.
    + apply app_inj_tail in Hp as [_ Hp].
      by apply (whisper_ext_not_wav s s' ext Hext).
    + rewrite !List.length_app. simpl. lia.
Qed.

Lemma for_each_move_wav s' target lg s l : ∀ w,
  (∀ ext, ext ∈ l → ext ∈ WHISPER_EXTS) →
  ∃ w1,
    for_each (move_one_output s' target lg) l w = (Ret tt, w1) ∧
    w_cwd w1 = w_cwd w ∧
    w_tree w1 !! (resolve (w_cwd w) target ++ [s +:+ ".wav"])
    = w_tree w !! (resolve (w_cwd w) target ++ [s +:+ ".wav"]).
Proof.
  induction l as [|ext l IH]; intros w Hl.
  - by exists w.
  - destruct (move_one_output_wav s' target lg ext s w) as (w1 & Hrun & C1 & T1).
    { apply Hl. by left. }
    destruct (IH w1) as (w2 & Hrest & C2 & T2).
    { intros e He. apply Hl. by right. }
    exists w2. simpl. rewrite (bind_ret_eq _ _ _ _ _ Hrun).
    split; [done|]. split; [congruence|].
    rewrite C1 in T2. by rewrite T2.
Qed.

(** An output that is a regular file arrives in an existing target
    directory, whatever the other four do. *)
Lemma move_whisper_outputs_arrives video_base target_dir lg w ext c :
  ext ∈ WHISPER_EXTS →
  w_tree w !! output_src w video_base ext = Some (File c) →
  w_tree w !! resolve (w_cwd w) target_dir = Some Dir →
  w_tree w !! output_dst w video_base target_dir ext ≠ Some Dir →
  ∃ w',
    move_whisper_outputs video_base target_dir lg w = (Ret tt, w') ∧
    w_tree w' !! output_dst w video_base target_dir ext = Some (File c).
Proof.
  unfold output_src, output_dst, move_whisper_outputs.
  set (s := stem video_base). intros Hext Hsrc Hdir Hdst.
  pose proof NoDup_WHISPER_EXTS as Hnd.
  pose proof (whisper_exts_nonempty s) as Hne.
  apply list_elem_of_split in Hext as (l1 & l2 & Hl).
  rewrite Hl in *.
  apply NoDup_app in Hnd as (_ & Hn1 & Hnd).
  apply NoDup_cons in Hnd as [Hn2 _].
  apply Forall_app in Hne as [Hne1 Hne].
  apply Forall_cons in Hne as [Hnex Hne2].
  assert (ext ∉ l1) as Hn1'.
  { intros Hin. apply (Hn1 ext Hin). by left. }
  destruct (for_each_move_others s target_dir lg ext l1 w Hn1' Hne1)
    as (w1 & Hrun1 & C1 & Hs1 & Hd1 & Ht1 & _).
  rewrite (for_each_app _ _ _ _ _ Hrun1). simpl.
  rewrite bind_run, move_one_output_run by done. cbv zeta.
  rewrite C1. rewrite (Hs1 _ Hsrc).
  destruct (rename_file_replaces (w_tree w1) (w_cwd w ++ [s +:+ ext])
              (resolve (w_cwd w) target_dir) (s +:+ ext) c)
    as (t' & Hr & Harr & _); [by apply Hs1|by apply Hd1|by rewrite Ht1|].
  rewrite Hr.
  set (w2 := with_trace _ _).
  destruct (for_each_move_others s target_dir lg ext l2 w2 Hn2 Hne2)
    as (w' & Hrun2 & C2 & _ & _ & Ht2 & _).
  change (w_cwd w2) with (w_cwd w1) in *. rewrite C1 in *.
  change (w_tree w2) with t' in *.
  exists w'. split; [exact Hrun2|]. by rewrite Ht2.
Qed.

(** The cleanup, case by case: it returns, and the one path it can change
    is that of the audio file, which it empties when the flag is set and a
    regular file is there. *)
Lemma cleanup_wav_cases clean wav_path lg w :
  ∃ w',
    cleanup_wav clean wav_path lg w = (Ret tt, w') ∧
    w_cwd w' = w_cwd w ∧
    (∀ k, k ≠ resolve (w_cwd w) wav_path → w_tree w' !! k = w_tree w !! k) ∧
    w_tree w' !! resolve (w_cwd w) wav_path
    = match clean, w_tree w !! resolve (w_cwd w) wav_path with
      | true, Some (File _) => None
      | _, n => n
      end.
Proof.
  unfold cleanup_wav. destruct clean; [|by exists w].
  unfold bind at 1, path_exists, exists_. simpl.
  destruct (w_tree w !! resolve (w_cwd w) wav_path) as [[c|]|] eqn:Hk.
  - rewrite bool_decide_eq_true_2 by eauto.
    unfold try_except, bind, path_unlink, fs_try, unlink. rewrite Hk. simpl.
    eexists. split; [reflexivity|]. simpl. split; [done|]. split.
    + intros k Hne. by rewrite lookup_delete_ne.
    + by rewrite lookup_delete_eq.
  - rewrite bool_decide_eq_true_2 by eauto.
    unfold try_except, bind, path_unlink, fs_try, unlink. rewrite Hk. simpl.
    eexists. split; [reflexivity|]. simpl. by rewrite Hk.
  - rewrite bool_decide_eq_false_2 by (by intros [? ?]).
    exists w. by rewrite Hk.
Qed.

(** Relocation, cleanup and detection together: what they leave at the
    path of the audio file and at the destination of each output. *)
Lemma after_transcription_effects video base clean lg out_dir w :
  name video ≠ "" →
  ∃ d w',
    after_transcription json_load video base (wav_of video out_dir) clean lg
      out_dir w = (Ret d, w') ∧
    w_cwd w' = w_cwd w ∧
    w_tree w' !! resolve (w_cwd w) (wav_of video out_dir)
    = match clean, w_tree w !! resolve (w_cwd w) (wav_of video out_dir) with
      | true, Some (File _) => None
      | _, n => n
      end ∧
    ∀ ext c,
      ext ∈ WHISPER_EXTS →
      w_tree w !! output_src w base ext = Some (File c) →
      w_tree w !! resolve (w_cwd w) out_dir = Some Dir →
      w_tree w !! output_dst w base out_dir ext ≠ Some Dir →
      w_tree w' !! output_dst w base out_dir ext = Some (File c).
Proof.
  intros Hn. unfold after_transcription.
  assert (stem video +:+ ".wav" ≠ "") as Hwav by by apply app_nonempty.
  assert (∀ cwd, resolve cwd (wav_of video out_dir)
                 = resolve cwd out_dir ++ [stem video +:+ ".wav"]) as Hkey.
  { intros cwd. unfold wav_of. by rewrite resolve_joinname. }
  destruct (for_each_move_wav (stem base) out_dir lg (stem video) WHISPER_EXTS w)
    as (w1 & Hmove & C1 & T1); [done|].
  fold (move_whisper_outputs base out_dir lg) in Hmove.
  destruct (cleanup_wav_cases clean (wav_of video out_dir) lg w1)
    as (w2 & Hclean & C2 & Hother & Hat).
  pose proof (find_detected_language_reads json_load _ lg _ w2
                (companion_json_path video out_dir Hn)) as Hfind.
  eexists _, w2. split; [|split; [congruence|split]].
  - rewrite (bind_ret_eq _ _ _ _ _ Hmove).
    rewrite (bind_ret_eq _ _ _ _ _ Hclean). exact Hfind.
  - rewrite C1 in Hat. rewrite Hat. by rewrite !Hkey, T1.
  - intros ext c Hext Hsrc Hdir Hdst.
    destruct (move_whisper_outputs_arrives base out_dir lg w ext c
                Hext Hsrc Hdir Hdst) as (w1' & Hmove' & Harr).
    rewrite Hmove in Hmove'. injection Hmove' as <-.
    rewrite Hother; [done|].
    rewrite C1, Hkey. unfold output_dst. intros H.
    apply app_inj_tail in H as [_ H].
    by apply (whisper_ext_not_wav (stem video) (stem base) ext Hext).
Qed.

End AfterTranscription.

Section FullRunEffects.

Variable exec : list string → list string → tree → proc.
Variable json_load : string → option pyval.

(** A full run whose extraction succeeded, whatever whisper did: the
    result, the two commands, and what relocation and cleanup left of the
    tree whisper left. *)
Lemma process_video_effects video model language translate clean overwrite
    skip lg out_dir w :
  let wav := wav_of video out_dir in
  let ffmpeg := ffmpeg_cmd video wav in
  let whisper := whisper_cmd wav model language translate in
  let p1 := exec ffmpeg (w_cwd w) (w_tree w) in
  let p2 := exec whisper (w_cwd w) (tree_after p1 (w_tree w)) in
  let left := tree_after p2 (tree_after p1 (w_tree w)) in
  name video ≠ "" →
  bypasses (present w (srt_of video out_dir)) skip overwrite = false →
  status_of p1 = Some 0%Z →
  ∃ base d w',
    with_suffix video "" = Some base ∧
    process_video exec json_load video model language translate clean
      overwrite skip lg out_dir w
    = (Ret (mkRunResult video wav (srt_of video out_dir) d 0
              (bool_decide (status_of p2 = Some 0%Z))), w') ∧
    execs (emitted w w') = [(ffmpeg, Some 0%Z); (whisper, status_of p2)] ∧
    w_cwd w' = w_cwd w ∧
    (∀ ext c,
       ext ∈ WHISPER_EXTS →
       left !! (w_cwd w ++ [stem base +:+ ext]) = Some (File c) →
       left !! resolve (w_cwd w) out_dir = Some Dir →
       left !! (resolve (w_cwd w) out_dir ++ [stem base +:+ ext]) ≠ Some Dir →
       w_tree w' !! (resolve (w_cwd w) out_dir ++ [stem base +:+ ext])
       = Some (File c)) ∧
    w_tree w' !! resolve (w_cwd w) wav
    = match clean, left !! resolve (w_cwd w) wav with
      | true, Some (File _) => None
      | _, n => n
      end.
Proof.
  cbv zeta. intros Hn Hby Hok.
  destruct (process_video_full exec json_load video model language translate
              clean overwrite skip lg out_dir w Hn Hby) as (base & Hbase & ->).
  pose proof (full_run_spec exec json_load video base (srt_of video out_dir)
                model language translate clean lg out_dir w Hn) as H.
  cbv zeta in H. rewrite Hok in H.
  destruct H as (d & w2 & w' & Hrun & Hran & Hafter & Hsp & _).
  destruct Hran as (T2 & C2 & _ & evs2 & Tr2 & X2).
  destruct Hsp as (_ & _ & evs3 & Tr3 & X3).
  destruct (after_transcription_effects json_load video base clean lg out_dir
              w2 Hn) as (d' & w'' & Hafter' & C' & Hwav & Hmoved).
  rewrite Hafter in Hafter'. injection Hafter' as <- <-.
  exists base, d, w'. split; [done|]. split; [exact Hrun|]. split.
  { rewrite (emitted_app w w' (evs2 ++ evs3)).
    - by rewrite execs_app, X2, X3.
    - by rewrite Tr3, Tr2, (assoc_L (++)). }
  split; [congruence|]. unfold output_src, output_dst in Hmoved.
  rewrite C2, T2 in *. split; [|exact Hwav].
  intros ext c Hext Hsrc Hdir Hdst. by apply (Hmoved ext c Hext).
Qed.

End FullRunEffects.

(** C3. A transcription tool that exits with a non-zero status does not end
    the run.  In [process_video], once the extraction has succeeded, the
    result is returned with [whisper_succeeded = False] after exactly the
    two commands, and relocation and cleanup have done their work on the
    tree whisper left: every output that is a regular file in the working
    directory is in the output directory (when that is a directory and the
    name is not taken by a directory there), and a regular audio file is
    gone when the clean flag is set and otherwise as whisper left it.  In
    [main], a run in which a whisper call exited with a non-zero status logs
    its summary, with "Whisper succeeded" false, and exits with status 0. *)
Theorem whisper_failure_is_not_fatal exec json_load :
  (∀ video model language translate clean overwrite skip lg out_dir w code,
     let wav := wav_of video out_dir in
     let p1 := exec (ffmpeg_cmd video wav) (w_cwd w) (w_tree w) in
     let p2 := exec (whisper_cmd wav model language translate) (w_cwd w)
                 (tree_after p1 (w_tree w)) in
     let left := tree_after p2 (tree_after p1 (w_tree w)) in
     name video ≠ "" →
     bypasses (present w (srt_of video out_dir)) skip overwrite = false →
     status_of p1 = Some 0%Z →
     status_of p2 = Some code → code ≠ 0%Z →
     ∃ base d w',
       with_suffix video "" = Some base ∧
       process_video exec json_load video model language translate clean
         overwrite skip lg out_dir w
       = (Ret (mkRunResult video wav (srt_of video out_dir) d 0 false), w') ∧
       execs (emitted w w')
       = [(ffmpeg_cmd video wav, Some 0%Z);
          (whisper_cmd wav model language translate, Some code)] ∧
       (∀ ext c,
          ext ∈ WHISPER_EXTS →
          left !! (w_cwd w ++ [stem base +:+ ext]) = Some (File c) →
          left !! resolve (w_cwd w) out_dir = Some Dir →
          left !! (resolve (w_cwd w) out_dir ++ [stem base +:+ ext]) ≠ Some Dir →
          w_tree w' !! (resolve (w_cwd w) out_dir ++ [stem base +:+ ext])
          = Some (File c)) ∧
       w_tree w' !! resolve (w_cwd w) wav
       = match clean, left !! resolve (w_cwd w) wav with
         | true, Some (File _) => None
         | _, n => n
         end) ∧
  (∀ args w cmd code,
     calls "whisper" cmd → code ≠ 0%Z →
     (cmd, Some code) ∈ execs (emitted w (main exec json_load args w).2) →
     (main exec json_load args w).1 = 0%Z ∧
     EvLog INFO "Whisper succeeded: %s" [ABool false]
     ∈ emitted w (main exec json_load args w).2).
Proof.
  split.
  - intros video model language translate clean overwrite skip lg out_dir w
      code. cbv zeta. intros Hn Hby Hok Hfail Hcode.
    destruct (process_video_effects exec json_load video model language
                translate clean overwrite skip lg out_dir w Hn Hby Hok)
      as (base & d & w' & Hbase & Hrun & Hx & _ & Hmoved & Hwav).
    rewrite Hfail in Hrun, Hx.
    rewrite bool_decide_eq_false_2 in Hrun by congruence.
    by exists base, d, w'.
  - intros args w cmd code Hcmd Hcode Hin.
    pose proof (main_outcome exec json_load args w) as H. cbv zeta in H.
    destruct H as [H|[(c1 & st & Hc1 & H)|(c1 & c2 & st2 & Hc1 & H & Hzero & Hlog)]];
      rewrite H in Hin.
    + by apply elem_of_nil in Hin.
    + apply list_elem_of_singleton in Hin. injection Hin as -> _.
      unfold calls in *. congruence.
    + rewrite !elem_of_cons, elem_of_nil in Hin.
      destruct Hin as [[= -> _]|[[= -> <-]|[]]].
      * unfold calls in *. congruence.
      * split; [done|]. rewrite bool_decide_eq_false_2 in Hlog; [done|].
        congruence.
Qed.

(** C6, as amended.  A run of [process_video] that goes through the
    extraction and is not ended by it returns a result, and the path of the
    audio file then holds what the tools left there, with one exception:
    when the clean flag is set, a regular file there has been removed.  So
    with the flag set a regular audio file is gone, while a directory at
    its path stays (the failure of [unlink] is only logged); with the flag
    not set the audio file is there, with its content, exactly when the
    tools left it there. *)
Theorem cleanup_follows_clean_flag exec json_load video model language
    translate clean overwrite skip lg out_dir w :
  let wav := wav_of video out_dir in
  let p1 := exec (ffmpeg_cmd video wav) (w_cwd w) (w_tree w) in
  let p2 := exec (whisper_cmd wav model language translate) (w_cwd w)
              (tree_after p1 (w_tree w)) in
  let left := tree_after p2 (tree_after p1 (w_tree w)) in
  name video ≠ "" →
  bypasses (present w (srt_of video out_dir)) skip overwrite = false →
  status_of p1 = Some 0%Z →
  ∃ r w',
    process_video exec json_load video model language translate clean
      overwrite skip lg out_dir w = (Ret r, w') ∧
    w_cwd w' = w_cwd w ∧
    w_tree w' !! resolve (w_cwd w) wav
    = match clean, left !! resolve (w_cwd w) wav with
      | true, Some (File _) => None
      | _, n => n
      end.
Proof.
  cbv zeta. intros Hn Hby Hok.
  destruct (process_video_effects exec json_load video model language
              translate clean overwrite skip lg out_dir w Hn Hby Hok)
    as (base & d & w' & _ & Hrun & _ & C & _ & Hwav).
  by eexists _, w'.
Qed.

Section StageRuns.

Import Scenario.

(** Whisper fails after ffmpeg succeeded: the run returns all the same, a
    "demo.txt" found in the working directory is relocated and the audio
    file is removed. *)
Lemma whisper_failure_is_not_fatal_witness :
  let t := <[ ["home"; "demo.txt"] := File "notes" ]>
             (<[ ["home"; "demo"] := Dir ]> tree_fresh) in
  let w := world_of t [] false both_tools in
  let wav := wav_of demo out in
  let p1 := toy_exec 0 2 (ffmpeg_cmd demo wav) (w_cwd w) (w_tree w) in
  let p2 := toy_exec 0 2 (whisper_cmd wav "small" None false) (w_cwd w)
              (tree_after p1 (w_tree w)) in
  let w0 := world_of tree_fresh [""] false both_tools in
  let cmd := ["whisper"; "/home/demo/demo.wav"; "--model"; "small";
              "--task"; "transcribe"; "--language"; "fr"] in
  let run := main (toy_exec 0 2) toy_json args_flags w0 in
  (name demo ≠ "" ∧
   bypasses (present w (srt_of demo out)) true true = false ∧
   status_of p1 = Some 0%Z ∧ status_of p2 = Some 2%Z ∧ (2 ≠ 0)%Z ∧
   ∃ d w',
     process_video (toy_exec 0 2) toy_json demo "small" None false true true
       true logger0 out w
     = (Ret (mkRunResult demo wav (srt_of demo out) d 0 false), w') ∧
     execs (emitted w w')
     = [(ffmpeg_cmd demo wav, Some 0%Z);
        (whisper_cmd wav "small" None false, Some 2%Z)] ∧
     w_tree w' !! ["home"; "demo"; "demo.txt"] = Some (File "notes") ∧
     w_tree w' !! ["home"; "demo"; "demo.wav"] = None) ∧
  (calls "whisper" cmd ∧ (2 ≠ 0)%Z ∧
   (cmd, Some 2%Z) ∈ execs (emitted w0 run.2) ∧
   run.1 = 0%Z ∧
   EvLog INFO "Whisper succeeded: %s" [ABool false] ∈ emitted w0 run.2).
Proof.
  cbv zeta. split.
  - split; [done|]. split; [reflexivity|]. split; [reflexivity|].
    split; [reflexivity|]. split; [done|].
    destruct (proj1 (whisper_failure_is_not_fatal (toy_exec 0 2) toy_json)
                demo "small" None false true true true logger0 out
                (world_of (<[ ["home"; "demo.txt"] := File "notes" ]>
                             (<[ ["home"; "demo"] := Dir ]> tree_fresh))
                   [] false both_tools) 2%Z)
      as (base & d & w' & Hbase & Hrun & Hx & Hmoved & Hwav);
      [done|reflexivity|reflexivity|reflexivity|done|].
    injection Hbase as <-.
    exists d, w'. split; [exact Hrun|]. split; [exact Hx|]. split.
    + apply (Hmoved ".txt" "notes").
      * apply (bool_decide_unpack _). reflexivity.
      * by vm_compute.
      * by vm_compute.
      * by vm_compute.
    + etrans; [exact Hwav|]. by vm_compute.
  - split; [reflexivity|]. split; [done|].
    assert ((["whisper"; "/home/demo/demo.wav"; "--model"; "small";
              "--task"; "transcribe"; "--language"; "fr"], Some 2%Z)
            ∈ execs (emitted (world_of tree_fresh [""] false both_tools)
                       (main (toy_exec 0 2) toy_json args_flags
                          (world_of tree_fresh [""] false both_tools)).2)) as Hin.
    { vm_compute. apply list_elem_of_further, list_elem_of_here. }
    split; [exact Hin|].
    apply (proj2 (whisper_failure_is_not_fatal (toy_exec 0 2) toy_json)
             args_flags (world_of tree_fresh [""] false both_tools)
             ["whisper"; "/home/demo/demo.wav"; "--model"; "small";
              "--task"; "transcribe"; "--language"; "fr"] 2%Z);
      [reflexivity|done|exact Hin].
Defined.

(** Both tools do their work and the clean flag is set: the audio file
    ffmpeg wrote is gone when [process_video] returns. *)
Lemma cleanup_follows_clean_flag_witness :
  let w := world_of tree_done [] false both_tools in
  let wav := wav_of demo out in
  let p1 := toy_exec 0 0 (ffmpeg_cmd demo wav) (w_cwd w) (w_tree w) in
  name demo ≠ "" ∧
  bypasses (present w (srt_of demo out)) false true = false ∧
  status_of p1 = Some 0%Z ∧
  ∃ r w',
    process_video (toy_exec 0 0) toy_json demo "small" None false true true
      false logger0 out w = (Ret r, w') ∧
    w_cwd w' = w_cwd w ∧
    w_tree w' !! resolve (w_cwd w) wav = None.
Proof.
  cbv zeta. split; [done|]. split; [reflexivity|]. split; [reflexivity|].
  destruct (cleanup_follows_clean_flag (toy_exec 0 0) toy_json demo "small"
              None false true true false logger0 out
              (world_of tree_done [] false both_tools))
    as (r & w' & Hrun & C & Hwav); [done|reflexivity|reflexivity|].
  exists r, w'. split; [exact Hrun|]. split; [exact C|].
  etrans; [exact Hwav|]. by vm_compute.
Defined.

(** C6 as stated fails in both halves.  The tools here exit with status 0
    and write nothing.  With the clean flag set and a directory at the path
    of the audio file, the run returns and the path is still taken: the
    failure of [unlink] was only logged.  With the flag not set and nothing
    at that path, the run returns and there is no audio file. *)
Lemma cleanup_follows_clean_flag_counterexample :
  let idle : list string → list string → tree → proc :=
    λ _ _ t, Finished t [] 0 in
  let t_none := <[ ["home"; "demo"] := Dir ]> tree_fresh in
  let t_dir := <[ ["home"; "demo"; "demo.wav"] := Dir ]> t_none in
  let run_clean := process_video idle toy_json demo "small" None false true
                     true false logger0 out
                     (world_of t_dir [] false both_tools) in
  let run_keep := process_video idle toy_json demo "small" None false false
                    true false logger0 out
                    (world_of t_none [] false both_tools) in
  (∃ r, run_clean.1 = Ret r) ∧
  present run_clean.2 (wav_of demo out) = true ∧
  EvLog WARNING "Failed to remove WAV: %s" [AExn (OSError "unlink")]
  ∈ w_trace run_clean.2 ∧
  (∃ r, run_keep.1 = Ret r) ∧
  present run_keep.2 (wav_of demo out) = false.
Proof.
  cbv zeta. split; [eexists; by vm_compute|]. split; [by vm_compute|].
  split; [vm_compute; set_solver|]. split; [eexists; by vm_compute|].
  by vm_compute.
Qed.

(** C1, evaluated where the code departs from it.  The video is
    "talk.v2.mp4"; its subtitles "talk.v2.srt" and their companion
    "talk.v2.json", which records French, are in the output directory.  With
    skip-if-exists set nothing is spawned, but the language is not reused:
    the file looked up is "talk.json", which does not exist. *)
Theorem dotted_stem_loses_language :
  let video := mkPath false ["talk.v2.mp4"] in
  let out := mkPath true ["home"; "talk.v2"] in
  let t : tree :=
    <[ ["home"; "talk.v2"; "talk.v2.json"] := File "l=fr" ]>
      (<[ ["home"; "talk.v2"; "talk.v2.srt"] := File "1" ]>
         (<[ ["home"; "talk.v2"] := Dir ]>
            (<[ ["home"; "talk.v2.mp4"] := File "video" ]>
               (<[ ["home"] := Dir ]> (<[ [] := Dir ]> ∅))))) in
  let w := world_of t [] false both_tools in
  let run := process_video (toy_exec 0 0) toy_json video "small" None false
               true true true logger0 out w in
  srt_of video out = mkPath true ["home"; "talk.v2"; "talk.v2.srt"] ∧
  present w (srt_of video out) = true ∧
  recorded_language toy_json (w_tree w) ["home"; "talk.v2"; "talk.v2.json"]
  = Some (PyStr "fr") ∧
  with_suffix (joinname out (stem video)) ".json"
  = Some (mkPath true ["home"; "talk.v2"; "talk.json"]) ∧
  execs (w_trace run.2) = [] ∧
  ∃ r, run.1 = Ret r ∧ detected_language r = None.
Proof.
  cbv zeta. split; [by vm_compute|]. split; [by vm_compute|].
  split; [by vm_compute|]. split; [by vm_compute|]. split; [by vm_compute|].
  eexists. split; by vm_compute.
Qed.

(** C9, evaluated where the code departs from it.  The output directory is
    shared: it holds "talk.srt" and "talk.json" (German) of another video,
    and the subtitles "talk.v2.srt" of "talk.v2.mp4" without their companion
    "talk.v2.json".  The language is not unknown: [find_detected_language]
    opens "talk.json", and the summary of the run reports German. *)
Theorem absent_companion_reads_another :
  let video := mkPath false ["talk.v2.mp4"] in
  let out := mkPath true ["home"; "subs"] in
  let t : tree :=
    <[ ["home"; "subs"; "talk.v2.srt"] := File "2" ]>
      (<[ ["home"; "subs"; "talk.json"] := File "l=de" ]>
         (<[ ["home"; "subs"; "talk.srt"] := File "1" ]>
            (<[ ["home"; "subs"] := Dir ]>
               (<[ ["home"; "talk.v2.mp4"] := File "video" ]>
                  (<[ ["home"] := Dir ]> (<[ [] := Dir ]> ∅)))))) in
  let w := world_of t [] false both_tools in
  let cfg := mkConfig video "small" None out true true true false in
  w_tree w !! ["home"; "subs"; "talk.v2.json"] = None ∧
  find_detected_language toy_json (joinname out (stem video)) logger0 w
  = (Ret (Some (PyStr "de")), w) ∧
  EvLog INFO "Detected language: %s" [AVal (PyStr "de")]
  ∈ w_trace (run_and_report (toy_exec 0 0) toy_json cfg 0 logger0 w).2.
Proof.
  cbv zeta. split; [by vm_compute|]. split; [by vm_compute|].
  vm_compute. set_solver.
Qed.

End StageRuns.
